(** * Bluetooth host stack (gd): module registry and round-robin ACL scheduler

    A shallow embedding of two pieces of the [gd] tree:

    - [ModuleRegistry::Start] and [ModuleRegistry::StopAll]
      (src/gd/module.cc);
    - [RoundRobinScheduler]: the class is declared in
      src/gd/hci/round_robin_scheduler.h, its member functions are in the
      second half of src/gd/btaa/hci_processor.h (lines 59-245; the line
      numbers quoted below are those).

    C++ objects become records, member functions become functions from a
    state to an [outcome]: a normal return, a failed [ASSERT] (the process
    aborts with a diagnostic), or undefined behaviour (dereferencing or
    incrementing an iterator that does not designate an element).
    16-bit counters are integers in [Z] with their wrap-around written out.

    The definitions come first (the two models, then the predicates the
    statements use and a few concrete scenarios), the lemmas and theorems
    after them. *)

From Stdlib Require Import ZArith Bool Lia String Arith List Sorted Setoid Morphisms.
From Stdlib Require Import Init.Byte.
Import ListNotations.

Local Open Scope Z_scope.

(** ** Outcomes of a member function *)

Inductive outcome (A : Type) : Type :=
| Done (a : A)
| AssertFailed (condition : string)
| UndefinedBehavior.

Arguments Done {A} a.
Arguments AssertFailed {A} condition.
Arguments UndefinedBehavior {A}.

Definition bind {A B : Type} (x : outcome A) (f : A -> outcome B) : outcome B :=
  match x with
  | Done a => f a
  | AssertFailed c => AssertFailed c
  | UndefinedBehavior => UndefinedBehavior
  end.

Notation "x <- e ;; k" := (bind e (fun x => k))
  (at level 61, e at next level, right associativity).

(** [ASSERT(condition)] of os/log.h: [LOG_ALWAYS_FATAL] then [abort()]. *)
Definition ASSERT (condition : bool) (text : string) : outcome unit :=
  if condition then Done tt else AssertFailed text.

(** ** 16-bit unsigned arithmetic *)

Definition wrap16 (z : Z) : Z := z mod 65536.

Arguments wrap16 : simpl never.

Definition is_uint16 (z : Z) : bool := (0 <=? z) && (z <? 65536).

(** Equality of what two integers are as 16-bit values. *)
Definition cong16 (a b : Z) : Prop := wrap16 a = wrap16 b.

(** * The round-robin scheduler *)

Module RoundRobinScheduler.

Inductive ConnectionType := CLASSIC | LE.

Definition ConnectionType_eqb (a b : ConnectionType) : bool :=
  match a, b with
  | CLASSIC, CLASSIC | LE, LE => true
  | _, _ => false
  end.

(** The two packet boundary flags the scheduler emits. *)
Inductive PacketBoundaryFlag := FIRST_AUTOMATICALLY_FLUSHABLE | CONTINUING_FRAGMENT.

Inductive BroadcastFlag := POINT_TO_POINT.

(** What [AclPacketBuilder::Create(handle, pb, bc, payload)] holds. *)
Record AclPacketBuilder := Create {
  builder_handle : Z;
  builder_packet_boundary_flag : PacketBoundaryFlag;
  builder_broadcast_flag : BroadcastFlag;
  builder_payload : list byte
}.

(** [struct acl_queue_handler]; [queue_down_end_] is the address of the
    connection's queue end. *)
Record acl_queue_handler := mk_handler {
  connection_type_ : ConnectionType;
  queue_down_end_ : Z;
  dequeue_is_registered_ : bool;
  number_of_sent_packets_ : Z;
  is_disconnected_ : bool
}.

Definition set_dequeue_is_registered (b : bool) (r : acl_queue_handler) :=
  mk_handler (connection_type_ r) (queue_down_end_ r) b
             (number_of_sent_packets_ r) (is_disconnected_ r).

Definition set_number_of_sent_packets (n : Z) (r : acl_queue_handler) :=
  mk_handler (connection_type_ r) (queue_down_end_ r) (dequeue_is_registered_ r)
             n (is_disconnected_ r).

Definition set_is_disconnected (b : bool) (r : acl_queue_handler) :=
  mk_handler (connection_type_ r) (queue_down_end_ r) (dequeue_is_registered_ r)
             (number_of_sent_packets_ r) b.

(** ** [std::map<uint16_t, acl_queue_handler>]

    An association list kept in increasing key order; an iterator is the
    key of the node it designates, [end()], or a default-constructed
    (singular) iterator. *)

Definition handler_map := list (Z * acl_queue_handler).

Inductive iterator := it_singular | it_end | it_at (handle : Z).

Fixpoint map_find (h : Z) (m : handler_map) : option acl_queue_handler :=
  match m with
  | [] => None
  | (k, r) :: m' => if k =? h then Some r else map_find h m'
  end.

(** Where a new key goes in iteration order. *)
Fixpoint map_place (h : Z) (r : acl_queue_handler) (m : handler_map) : handler_map :=
  match m with
  | [] => [(h, r)]
  | (k, r0) :: m' =>
      if h <? k then (h, r) :: m else (k, r0) :: map_place h r m'
  end.

(** [insert(std::pair(h, r))]: an existing element is kept as it is. *)
Definition map_insert (h : Z) (r : acl_queue_handler) (m : handler_map) : handler_map :=
  match map_find h m with
  | Some _ => m
  | None => map_place h r m
  end.

Fixpoint map_erase (h : Z) (m : handler_map) : handler_map :=
  match m with
  | [] => []
  | (k, r) :: m' => if k =? h then m' else (k, r) :: map_erase h m'
  end.

(** A write through [it->second] where [it] designates key [h]. *)
Fixpoint map_update (h : Z) (f : acl_queue_handler -> acl_queue_handler)
         (m : handler_map) : handler_map :=
  match m with
  | [] => []
  | (k, r) :: m' => if k =? h then (k, f r) :: m' else (k, r) :: map_update h f m'
  end.

Definition map_begin (m : handler_map) : iterator :=
  match m with
  | [] => it_end
  | (k, _) :: _ => it_at k
  end.

Fixpoint map_next_of (h : Z) (m : handler_map) : option iterator :=
  match m with
  | [] => None
  | (k, _) :: m' => if k =? h then Some (map_begin m') else map_next_of h m'
  end.

(** [std::next(it)]: defined only when [it] designates an element. *)
Definition iter_next (it : iterator) (m : handler_map) : outcome iterator :=
  match it with
  | it_at h =>
      match map_next_of h m with
      | Some it' => Done it'
      | None => UndefinedBehavior
      end
  | _ => UndefinedBehavior
  end.

Definition iterator_is_end (it : iterator) : bool :=
  match it with it_end => true | _ => false end.

(** Position of an iterator in iteration order; [end()] is at [size()]. *)
Fixpoint map_index (h : Z) (m : handler_map) : nat :=
  match m with
  | [] => O
  | (k, _) :: m' => if k =? h then O else S (map_index h m')
  end.

Definition iter_pos (it : iterator) (m : handler_map) : nat :=
  match it with
  | it_at h => map_index h m
  | _ => length m
  end.

Definition map_keys (m : handler_map) : list Z := map fst m.

(** ** Scheduler state

    [handler_posts_] stands for [os::Handler* handler_]: the number of
    [StartRoundRobin] closures posted on it and not yet run.  The
    registration state of [hci_queue_end_] is mirrored by
    [enqueue_registered_], that of each [queue_down_end_] by
    [dequeue_is_registered_]. *)

Record scheduler := mk_scheduler {
  acl_queue_handlers_ : handler_map;
  fragments_to_send_ : list (ConnectionType * AclPacketBuilder);
  max_acl_packet_credits_ : Z;
  acl_packet_credits_ : Z;
  le_max_acl_packet_credits_ : Z;
  le_acl_packet_credits_ : Z;
  hci_mtu_ : Z;
  le_hci_mtu_ : Z;
  enqueue_registered_ : bool;
  starting_point_ : iterator;
  handler_posts_ : nat
}.

Definition with_handlers (m : handler_map) (s : scheduler) :=
  mk_scheduler m (fragments_to_send_ s) (max_acl_packet_credits_ s)
    (acl_packet_credits_ s) (le_max_acl_packet_credits_ s) (le_acl_packet_credits_ s)
    (hci_mtu_ s) (le_hci_mtu_ s) (enqueue_registered_ s) (starting_point_ s)
    (handler_posts_ s).

Definition with_fragments (q : list (ConnectionType * AclPacketBuilder)) (s : scheduler) :=
  mk_scheduler (acl_queue_handlers_ s) q (max_acl_packet_credits_ s)
    (acl_packet_credits_ s) (le_max_acl_packet_credits_ s) (le_acl_packet_credits_ s)
    (hci_mtu_ s) (le_hci_mtu_ s) (enqueue_registered_ s) (starting_point_ s)
    (handler_posts_ s).

Definition with_acl_credits (c : Z) (s : scheduler) :=
  mk_scheduler (acl_queue_handlers_ s) (fragments_to_send_ s) (max_acl_packet_credits_ s)
    c (le_max_acl_packet_credits_ s) (le_acl_packet_credits_ s)
    (hci_mtu_ s) (le_hci_mtu_ s) (enqueue_registered_ s) (starting_point_ s)
    (handler_posts_ s).

Definition with_le_credits (c : Z) (s : scheduler) :=
  mk_scheduler (acl_queue_handlers_ s) (fragments_to_send_ s) (max_acl_packet_credits_ s)
    (acl_packet_credits_ s) (le_max_acl_packet_credits_ s) c
    (hci_mtu_ s) (le_hci_mtu_ s) (enqueue_registered_ s) (starting_point_ s)
    (handler_posts_ s).

Definition with_enqueue_registered (b : bool) (s : scheduler) :=
  mk_scheduler (acl_queue_handlers_ s) (fragments_to_send_ s) (max_acl_packet_credits_ s)
    (acl_packet_credits_ s) (le_max_acl_packet_credits_ s) (le_acl_packet_credits_ s)
    (hci_mtu_ s) (le_hci_mtu_ s) b (starting_point_ s) (handler_posts_ s).

Definition with_starting_point (it : iterator) (s : scheduler) :=
  mk_scheduler (acl_queue_handlers_ s) (fragments_to_send_ s) (max_acl_packet_credits_ s)
    (acl_packet_credits_ s) (le_max_acl_packet_credits_ s) (le_acl_packet_credits_ s)
    (hci_mtu_ s) (le_hci_mtu_ s) (enqueue_registered_ s) it (handler_posts_ s).

Definition with_handler_posts (n : nat) (s : scheduler) :=
  mk_scheduler (acl_queue_handlers_ s) (fragments_to_send_ s) (max_acl_packet_credits_ s)
    (acl_packet_credits_ s) (le_max_acl_packet_credits_ s) (le_acl_packet_credits_ s)
    (hci_mtu_ s) (le_hci_mtu_ s) (enqueue_registered_ s) (starting_point_ s) n.

(** The constructor, given what the controller reports:
    [GetControllerNumAclPacketBuffers], [GetControllerAclPacketLength] and
    the two fields of [GetControllerLeBufferSize]. *)
Definition new (num_acl_packet_buffers acl_packet_length
                total_num_le_packets le_data_packet_length : Z) : scheduler :=
  mk_scheduler [] [] num_acl_packet_buffers num_acl_packet_buffers
    total_num_le_packets total_num_le_packets
    acl_packet_length le_data_packet_length false it_singular O.

(** ** Member functions *)

Definition SendNextFragment (s : scheduler) : scheduler :=
  with_enqueue_registered true s.

Definition UnregisterAllConnections (m : handler_map) : handler_map :=
  map (fun kr => (fst kr, set_dequeue_is_registered false (snd kr))) m.

(** The body of the [for] loop of [StartRoundRobin], [count] rounds. *)
Fixpoint round_robin_loop (count : nat) (it : iterator) (m : handler_map)
  : outcome handler_map :=
  match count with
  | O => Done m
  | S count' =>
      match it with
      | it_at h =>
          match map_find h m with
          | None => UndefinedBehavior
          | Some r =>
              let m1 := if dequeue_is_registered_ r then m
                        else map_update h (set_dequeue_is_registered true) m in
              it1 <- iter_next it m1 ;;
              let it2 := if iterator_is_end it1 then map_begin m1 else it1 in
              round_robin_loop count' it2 m1
          end
      | _ => UndefinedBehavior
      end
  end.

(** Lines 125-127: where the registration pass starts.  Comparing a
    singular iterator with [end()] has no defined result. *)
Definition pass_start (s : scheduler) : outcome iterator :=
  let m := acl_queue_handlers_ s in
  if (Z.of_nat (length m) =? 1) then Done (map_begin m)
  else match starting_point_ s with
       | it_singular => UndefinedBehavior
       | it_end => Done (map_begin m)
       | it_at h => Done (it_at h)
       end.

Definition StartRoundRobin (s : scheduler) : outcome scheduler :=
  if (acl_packet_credits_ s =? 0) && (le_acl_packet_credits_ s =? 0) then Done s
  else if negb (Nat.eqb (length (fragments_to_send_ s)) 0) then Done (SendNextFragment s)
  else
    start <- pass_start s ;;
    let count := length (acl_queue_handlers_ s) in
    m' <- round_robin_loop count start (acl_queue_handlers_ s) ;;
    next <- iter_next start m' ;;
    Done (with_starting_point next (with_handlers m' s)).

Definition Register (connection_type : ConnectionType) (handle : Z) (queue_down_end : Z)
           (s : scheduler) : outcome scheduler :=
  let acl_queue_handler := mk_handler connection_type queue_down_end false 0 false in
  let s1 := with_handlers (map_insert handle acl_queue_handler (acl_queue_handlers_ s)) s in
  if Nat.eqb (length (fragments_to_send_ s1)) 0 then StartRoundRobin s1 else Done s1.

Definition Unregister (handle : Z) (s : scheduler) : outcome scheduler :=
  match map_find handle (acl_queue_handlers_ s) with
  | None => AssertFailed "acl_queue_handlers_.count(handle) == 1"
  | Some _ =>
      (* the flag is cleared in a local copy; UnregisterDequeue acts on the queue *)
      let m := map_erase handle (acl_queue_handlers_ s) in
      Done (with_starting_point (map_begin m) (with_handlers m s))
  end.

(** [auto acl_queue_handler = acl_queue_handlers_.find(handle)->second;]
    copies the element: the writes to [is_disconnected_] and
    [number_of_sent_packets_] land in the local copy, the map keeps its
    element.  [find] returns [end()] for an unknown handle and the
    dereference is not guarded. *)
Definition SetDisconnect (handle : Z) (s : scheduler) : outcome scheduler :=
  match map_find handle (acl_queue_handlers_ s) with
  | None => UndefinedBehavior
  | Some found =>
      let acl_queue_handler := set_is_disconnected true found in
      let s1 :=
        match connection_type_ acl_queue_handler with
        | CLASSIC =>
            with_acl_credits
              (wrap16 (acl_packet_credits_ s + number_of_sent_packets_ acl_queue_handler)) s
        | LE =>
            with_le_credits
              (wrap16 (le_acl_packet_credits_ s + number_of_sent_packets_ acl_queue_handler)) s
        end in
      let _local := set_number_of_sent_packets 0 acl_queue_handler in
      Done s1
  end.

(** Modelled from the spec: [AclFragmenter::GetFragments] (hci/acl_fragmenter.h
    is not among the sources).  The spec says the payload is split "into
    MTU-sized pieces": every piece but the last has exactly [mtu] bytes. *)
Fixpoint split_pieces (fuel mtu : nat) (packet : list byte) : list (list byte) :=
  match fuel with
  | O => []
  | S fuel' =>
      match packet with
      | [] => []
      | _ => firstn mtu packet :: split_pieces fuel' mtu (skipn mtu packet)
      end
  end.

Definition GetFragments (mtu : Z) (packet : list byte) : list (list byte) :=
  split_pieces (length packet) (Z.to_nat mtu) packet.

(** The [for] loop of [BufferPacket] over [fragments], carrying
    [packet_boundary_flag]. *)
Fixpoint push_fragments (connection_type : ConnectionType) (handle : Z)
         (packet_boundary_flag : PacketBoundaryFlag) (fragments : list (list byte))
         (q : list (ConnectionType * AclPacketBuilder))
  : list (ConnectionType * AclPacketBuilder) :=
  match fragments with
  | [] => q
  | fragment :: rest =>
      push_fragments connection_type handle CONTINUING_FRAGMENT rest
        (q ++ [(connection_type,
                Create handle packet_boundary_flag POINT_TO_POINT fragment)])
  end.

Definition mtu_of (connection_type : ConnectionType) (s : scheduler) : Z :=
  match connection_type with
  | CLASSIC => hci_mtu_ s
  | LE => le_hci_mtu_ s
  end.

(** [acl_queue_handler] is the iterator bound into the dequeue callback,
    [packet] what [TryDequeue] returns. *)
Definition BufferPacket (acl_queue_handler : Z) (packet : option (list byte))
           (s : scheduler) : outcome scheduler :=
  match map_find acl_queue_handler (acl_queue_handlers_ s) with
  | None => UndefinedBehavior
  | Some r =>
      let handle := acl_queue_handler in
      match packet with
      | None => AssertFailed "packet != nullptr"
      | Some packet =>
          let connection_type := connection_type_ r in
          let mtu := mtu_of connection_type s in
          let q :=
            if Z.of_nat (length packet) <=? mtu
            then fragments_to_send_ s ++
                 [(connection_type,
                   Create handle FIRST_AUTOMATICALLY_FLUSHABLE POINT_TO_POINT packet)]
            else push_fragments connection_type handle FIRST_AUTOMATICALLY_FLUSHABLE
                   (GetFragments mtu packet) (fragments_to_send_ s) in
          _ <- ASSERT (0 <? Z.of_nat (length q)) "fragments_to_send_.size() > 0" ;;
          let m1 := UnregisterAllConnections (acl_queue_handlers_ s) in
          let m2 :=
            map_update handle
              (fun e => set_number_of_sent_packets
                          (wrap16 (number_of_sent_packets_ e + Z.of_nat (length q))) e)
              m1 in
          Done (SendNextFragment (with_handlers m2 (with_fragments q s)))
      end
  end.

(** Returns the new state and the fragment handed to the HCI queue. *)
Definition HandleEnqueueNextFragment (s : scheduler)
  : outcome (scheduler * AclPacketBuilder) :=
  match fragments_to_send_ s with
  | [] => UndefinedBehavior
  | (connection_type, packet) :: rest =>
      s1 <- match connection_type with
            | CLASSIC =>
                _ <- ASSERT (0 <? acl_packet_credits_ s) "acl_packet_credits_ > 0" ;;
                Done (with_acl_credits (wrap16 (acl_packet_credits_ s - 1)) s)
            | LE =>
                _ <- ASSERT (0 <? le_acl_packet_credits_ s) "le_acl_packet_credits_ > 0" ;;
                Done (with_le_credits (wrap16 (le_acl_packet_credits_ s - 1)) s)
            end ;;
      let s2 := with_fragments rest s1 in
      match rest with
      | [] =>
          Done (with_handler_posts (S (handler_posts_ s2))
                  (with_enqueue_registered false s2), packet)
      | (next_connection_type, _) :: _ =>
          let classic_buffer_full :=
            ConnectionType_eqb next_connection_type CLASSIC && (acl_packet_credits_ s2 =? 0) in
          let le_buffer_full :=
            ConnectionType_eqb next_connection_type LE && (le_acl_packet_credits_ s2 =? 0) in
          if classic_buffer_full || le_buffer_full
          then Done (with_enqueue_registered false s2, packet)
          else Done (s2, packet)
      end
  end.

Definition IncomingAclCredits (handle credits : Z) (s : scheduler) : outcome scheduler :=
  match map_find handle (acl_queue_handlers_ s) with
  | None => Done s
  | Some r =>
      if is_disconnected_ r then Done s
      else
        let m1 :=
          map_update handle
            (fun e => set_number_of_sent_packets
                        (wrap16 (number_of_sent_packets_ e - credits)) e)
            (acl_queue_handlers_ s) in
        let s1 := with_handlers m1 s in
        let s2 :=
          match connection_type_ r with
          | CLASSIC => with_acl_credits (wrap16 (acl_packet_credits_ s1 + credits)) s1
          | LE => with_le_credits (wrap16 (le_acl_packet_credits_ s1 + credits)) s1
          end in
        _ <- ASSERT (acl_packet_credits_ s2 <=? max_acl_packet_credits_ s2)
               "acl_packet_credits_ <= max_acl_packet_credits_" ;;
        _ <- ASSERT (le_acl_packet_credits_ s2 <=? le_max_acl_packet_credits_ s2)
               "le_acl_packet_credits_ <= le_max_acl_packet_credits_" ;;
        if (acl_packet_credits_ s2 =? credits) || (le_acl_packet_credits_ s2 =? credits)
        then StartRoundRobin s2
        else Done s2
  end.

(** ** The scheduler driven by its environment

    The public calls, the controller's completed-packets callback, and the
    three callbacks the scheduler registers: the dequeue callback of a
    connection (fires only while registered, with the payload at the head
    of that connection's queue), the enqueue callback of the HCI queue
    (fires only while registered) and a posted [StartRoundRobin]. *)

Inductive op :=
| OpRegister (connection_type : ConnectionType) (handle queue_down_end : Z)
| OpUnregister (handle : Z)
| OpSetDisconnect (handle : Z)
| OpBufferPacket (handle : Z) (packet : list byte)
| OpHandleEnqueueNextFragment
| OpIncomingAclCredits (handle credits : Z)
| OpStartRoundRobin.

Definition enabled (o : op) (s : scheduler) : bool :=
  match o with
  | OpRegister _ h _ => is_uint16 h
  | OpUnregister h => is_uint16 h
  | OpSetDisconnect h => is_uint16 h
  | OpBufferPacket h _ =>
      match map_find h (acl_queue_handlers_ s) with
      | Some r => dequeue_is_registered_ r
      | None => false
      end
  | OpHandleEnqueueNextFragment => enqueue_registered_ s
  | OpIncomingAclCredits h n => is_uint16 h && is_uint16 n
  | OpStartRoundRobin => negb (Nat.eqb (handler_posts_ s) 0)
  end.

Definition run (o : op) (s : scheduler) : outcome scheduler :=
  match o with
  | OpRegister k h q => Register k h q s
  | OpUnregister h => Unregister h s
  | OpSetDisconnect h => SetDisconnect h s
  | OpBufferPacket h p => BufferPacket h (Some p) s
  | OpHandleEnqueueNextFragment =>
      sp <- HandleEnqueueNextFragment s ;; Done (fst sp)
  | OpIncomingAclCredits h n => IncomingAclCredits h n s
  | OpStartRoundRobin =>
      StartRoundRobin (with_handler_posts (Nat.pred (handler_posts_ s)) s)
  end.

Inductive reachable : scheduler -> scheduler -> Prop :=
| reach_here s : reachable s s
| reach_step s o s1 s2 :
    enabled o s = true -> run o s = Done s1 -> reachable s1 s2 -> reachable s s2.

Fixpoint exec (tr : list op) (s : scheduler) : outcome scheduler :=
  match tr with
  | [] => Done s
  | o :: tr' => s' <- run o s ;; exec tr' s'
  end.

(** Every step of the trace is enabled when it is taken. *)
Fixpoint admissible (tr : list op) (s : scheduler) : bool :=
  match tr with
  | [] => true
  | o :: tr' =>
      enabled o s &&
      match run o s with
      | Done s' => admissible tr' s'
      | _ => match tr' with [] => true | _ => false end
      end
  end.

(** ** Accounting and invariants *)

Definition credits (k : ConnectionType) (s : scheduler) : Z :=
  match k with
  | CLASSIC => acl_packet_credits_ s
  | LE => le_acl_packet_credits_ s
  end.

Definition credits_max (k : ConnectionType) (s : scheduler) : Z :=
  match k with
  | CLASSIC => max_acl_packet_credits_ s
  | LE => le_max_acl_packet_credits_ s
  end.

Definition other_kind (k : ConnectionType) : ConnectionType :=
  match k with CLASSIC => LE | LE => CLASSIC end.

(** Sum of [number_of_sent_packets_] over the connections of kind [k]. *)
Fixpoint sum_sent (k : ConnectionType) (m : handler_map) : Z :=
  match m with
  | [] => 0
  | (_, r) :: m' =>
      (if ConnectionType_eqb (connection_type_ r) k
       then number_of_sent_packets_ r else 0) + sum_sent k m'
  end.

(** Number of queued fragments tagged [k]. *)
Fixpoint queued (k : ConnectionType) (q : list (ConnectionType * AclPacketBuilder)) : Z :=
  match q with
  | [] => 0
  | (k', _) :: q' => (if ConnectionType_eqb k' k then 1 else 0) + queued k q'
  end.

(** The credit equation in the spec's words. *)
Definition spec_credit_equation (k : ConnectionType) (s : scheduler) : Prop :=
  credits k s + sum_sent k (acl_queue_handlers_ s) = credits_max k s.

(** The credit equation the code keeps: fragments still queued are already
    counted as sent, and the counters are 16 bits wide. *)
Definition credit_balance (k : ConnectionType) (s : scheduler) : Prop :=
  wrap16 (credits k s + sum_sent k (acl_queue_handlers_ s)) =
  wrap16 (credits_max k s + queued k (fragments_to_send_ s)).

Definition sent_of (h : Z) (s : scheduler) : Z :=
  match map_find h (acl_queue_handlers_ s) with
  | Some r => number_of_sent_packets_ r
  | None => 0
  end.

(** Steps that drop or reclaim a non-zero count. *)
Definition reclaim_free (o : op) (s : scheduler) : Prop :=
  match o with
  | OpUnregister h | OpSetDisconnect h => sent_of h s = 0
  | _ => True
  end.

(** Iteration order is increasing key order. *)
Definition keys_sorted (m : handler_map) : Prop :=
  StronglySorted Z.lt (map_keys m).

Definition all_unregistered (m : handler_map) : bool :=
  forallb (fun kr => negb (dequeue_is_registered_ (snd kr))) m.

Definition cursor_designates (m : handler_map) (it : iterator) : Prop :=
  match it with
  | it_singular => False
  | it_end => True
  | it_at h => In h (map_keys m)
  end.

(** Before the first registration pass the cursor is still singular. *)
Record untouched (s : scheduler) : Prop := {
  un_fifo : fragments_to_send_ s = [];
  un_flags : all_unregistered (acl_queue_handlers_ s) = true;
  un_enqueue : enqueue_registered_ s = false;
  un_posts : handler_posts_ s = O;
  un_sent : forall h r, map_find h (acl_queue_handlers_ s) = Some r ->
                        number_of_sent_packets_ r = 0;
  un_acl : acl_packet_credits_ s = max_acl_packet_credits_ s;
  un_le : le_acl_packet_credits_ s = le_max_acl_packet_credits_ s
}.

Definition no_credits (s : scheduler) : Prop :=
  acl_packet_credits_ s = 0 /\ le_acl_packet_credits_ s = 0.

(** What holds on entry to [StartRoundRobin], also in the middle of
    [Register]. *)
Record sched_pre (s : scheduler) : Prop := {
  si_keys : NoDup (map_keys (acl_queue_handlers_ s));
  si_flags : fragments_to_send_ s <> [] ->
             all_unregistered (acl_queue_handlers_ s) = true;
  si_enqueue : enqueue_registered_ s = true -> fragments_to_send_ s <> [];
  si_cursor : match starting_point_ s with
              | it_singular =>
                  untouched s /\
                  ((length (acl_queue_handlers_ s) <= 1)%nat \/ no_credits s)
              | it => cursor_designates (acl_queue_handlers_ s) it
              end
}.

(** What holds between two steps of the scheduler. *)
Definition sched_inv (s : scheduler) : Prop :=
  sched_pre s /\
  (starting_point_ s = it_singular -> acl_queue_handlers_ s = [] \/ no_credits s).

(** [ceil(a / b)] for [0 < b]. *)
Definition ceil_div (a b : Z) : Z := (a + b - 1) / b.

(** The builders [push_fragments] appends for a list of pieces. *)
Definition tag_pieces (k : ConnectionType) (h : Z) (flag : PacketBoundaryFlag)
           (pieces : list (list byte)) : list AclPacketBuilder :=
  match pieces with
  | [] => []
  | f :: rest =>
      Create h flag POINT_TO_POINT f ::
      map (Create h CONTINUING_FRAGMENT POINT_TO_POINT) rest
  end.

(** What one connection contributes to [sum_sent k]. *)
Definition contribution (k : ConnectionType) (r : acl_queue_handler) : Z :=
  if ConnectionType_eqb (connection_type_ r) k then number_of_sent_packets_ r else 0.

(** The spec's reading of the dequeue flag: FIFO empty and credits of the
    connection's own kind strictly positive. *)
Definition spec_dequeue_condition (s : scheduler) : Prop :=
  forall h r,
    map_find h (acl_queue_handlers_ s) = Some r ->
    dequeue_is_registered_ r = true ->
    fragments_to_send_ s = [] /\ 0 < credits (connection_type_ r) s.

(** ** Scenarios *)

Definition payload (n : nat) : list byte := repeat x00 n.

(** One classic connection, one credit of each kind: two payloads. *)
Definition second_payload_trace : list op :=
  [ OpRegister CLASSIC 64 1;
    OpBufferPacket 64 (payload 10);
    OpHandleEnqueueNextFragment;
    OpStartRoundRobin;
    OpBufferPacket 64 (payload 10);
    OpHandleEnqueueNextFragment ].

(** Scenario 4 of the spec up to the point where both credits are used:
    two classic connections, two credits, one payload emitted on each. *)
Definition both_credits_used_trace : list op :=
  [ OpRegister CLASSIC 64 1;
    OpRegister CLASSIC 65 2;
    OpBufferPacket 64 (payload 10);
    OpHandleEnqueueNextFragment;
    OpStartRoundRobin;
    OpBufferPacket 65 (payload 10);
    OpHandleEnqueueNextFragment ].

(** The state that trace ends in. *)
Definition both_credits_used : scheduler :=
  mk_scheduler
    [ (64, mk_handler CLASSIC 1 false 1 false);
      (65, mk_handler CLASSIC 2 false 1 false) ]
    [] 2 0 0 0 27 27 false it_end 1%nat.

(** One registered classic connection, idle, with two credits. *)
Definition one_connection : scheduler :=
  mk_scheduler [ (64, mk_handler CLASSIC 1 true 0 false) ]
    [] 2 2 0 0 27 27 false it_end O.

(** One classic connection after its first payload went out, with one
    credit of each kind to start with: the classic pool is empty, the LE
    pool is not, and the registration pass has run again. *)
Definition classic_pool_empty : scheduler :=
  mk_scheduler [ (64, mk_handler CLASSIC 1 true 1 false) ]
    [] 1 0 1 1 27 27 false it_end O.

(** Two registered connections, the cursor on the second. *)
Definition two_connections : scheduler :=
  mk_scheduler
    [ (64, mk_handler CLASSIC 1 false 0 false);
      (65, mk_handler LE 2 false 0 false) ]
    [] 2 2 1 1 27 27 false (it_at 65) O.

(** ** Further notions used below *)

(** [n] successive calls of [HandleEnqueueNextFragment] by the HCI queue,
    with the fragments they hand over. *)
Fixpoint drain (n : nat) (s : scheduler) : outcome (scheduler * list AclPacketBuilder) :=
  match n with
  | O => Done (s, [])
  | S n' =>
      sp <- HandleEnqueueNextFragment s ;;
      rest <- drain n' (fst sp) ;;
      Done (fst rest, snd sp :: snd rest)
  end.

Definition credits_in_range (s : scheduler) : Prop :=
  is_uint16 (acl_packet_credits_ s) = true /\
  is_uint16 (le_acl_packet_credits_ s) = true.

(** All queued fragments belong to one payload of one connection: same
    kind tag, same handle, and every fragment behind the front one is a
    continuation. *)
Definition one_payload_queued (q : list (ConnectionType * AclPacketBuilder)) : Prop :=
  (forall f g, In f q -> In g q ->
               fst f = fst g /\ builder_handle (snd f) = builder_handle (snd g)) /\
  match q with
  | [] => True
  | _ :: rest =>
      Forall (fun f => builder_packet_boundary_flag (snd f) = CONTINUING_FRAGMENT) rest
  end.

(** Every connection registered for dequeue, nothing else changed. *)
Definition all_registered (m : handler_map) : handler_map :=
  map (fun kr => (fst kr, set_dequeue_is_registered true (snd kr))) m.

(** What the steps may not do if undefined behaviour is to be excluded. *)
Definition defined_step (o : op) (s : scheduler) : Prop :=
  match o with
  | OpSetDisconnect h => map_find h (acl_queue_handlers_ s) <> None
  | OpStartRoundRobin => acl_queue_handlers_ s <> []
  | _ => True
  end.

(** The only connection sends a payload and is unregistered before the
    posted [StartRoundRobin] runs. *)
Definition last_connection_gone_trace : list op :=
  [ OpRegister CLASSIC 64 1;
    OpBufferPacket 64 (payload 10);
    OpHandleEnqueueNextFragment;
    OpUnregister 64 ].

Definition last_connection_gone : scheduler :=
  mk_scheduler [] [] 2 1 0 0 27 27 false it_end 1%nat.

(** A 60-byte payload of a classic connection queued, three credits. *)
Definition three_fragments_queued : scheduler :=
  mk_scheduler [ (64, mk_handler CLASSIC 1 false 3 false) ]
    [ (CLASSIC, Create 64 FIRST_AUTOMATICALLY_FLUSHABLE POINT_TO_POINT (payload 27));
      (CLASSIC, Create 64 CONTINUING_FRAGMENT POINT_TO_POINT (payload 27));
      (CLASSIC, Create 64 CONTINUING_FRAGMENT POINT_TO_POINT (payload 6)) ]
    3 3 0 0 27 27 true it_end O.

(** The same payload with a single credit: the burst stalls after the
    first fragment. *)
Definition stalled_burst : scheduler :=
  mk_scheduler [ (64, mk_handler CLASSIC 1 false 3 false) ]
    [ (CLASSIC, Create 64 CONTINUING_FRAGMENT POINT_TO_POINT (payload 27));
      (CLASSIC, Create 64 CONTINUING_FRAGMENT POINT_TO_POINT (payload 6)) ]
    1 0 0 0 27 27 false it_end O.

End RoundRobinScheduler.

(** * The module registry (gd/module.cc) *)

Module ModuleRegistry.

(** A [const ModuleFactory*] is an address. *)
Definition ModuleFactory := nat.

(** The object [module->ctor_()] returns. *)
Inductive instance := Instance (made_by : ModuleFactory).

(** Calls of [Module::Start()] and [Module::Stop()] on instances. *)
Inductive lifecycle_call :=
| Start_called (i : instance)
| Stop_called (i : instance).

(** [started_modules_] is a [std::map] from factory to instance, never
    iterated; [calls_] records the start and stop steps that ran. *)
Record registry := mk_registry {
  started_modules_ : list (ModuleFactory * instance);
  start_order_ : list ModuleFactory;
  calls_ : list lifecycle_call
}.

Definition empty : registry := mk_registry [] [] [].

Fixpoint find (module : ModuleFactory) (m : list (ModuleFactory * instance))
  : option instance :=
  match m with
  | [] => None
  | (k, i) :: m' => if Nat.eqb k module then Some i else find module m'
  end.

(** [started_modules_[module] = instance]. *)
Fixpoint assign (module : ModuleFactory) (i : instance)
         (m : list (ModuleFactory * instance)) : list (ModuleFactory * instance) :=
  match m with
  | [] => [(module, i)]
  | (k, i0) :: m' =>
      if Nat.eqb k module then (k, i) :: m' else (k, i0) :: assign module i m'
  end.

Fixpoint erase (module : ModuleFactory) (m : list (ModuleFactory * instance))
  : list (ModuleFactory * instance) :=
  match m with
  | [] => []
  | (k, i) :: m' => if Nat.eqb k module then m' else (k, i) :: erase module m'
  end.

Definition IsStarted (module : ModuleFactory) (r : registry) : bool :=
  match find module (started_modules_ r) with
  | Some _ => true
  | None => false
  end.

Definition Get (module : ModuleFactory) (r : registry) : outcome instance :=
  match find module (started_modules_ r) with
  | Some i => Done i
  | None => AssertFailed "instance != started_modules_.end()"
  end.

Definition unstarted (r : registry) (module : ModuleFactory) : Prop :=
  find module (started_modules_ r) = None.

(** What relates the three fields after any number of starts. *)
Record registry_inv (r : registry) : Prop := {
  inv_calls : calls_ r = map (fun m => Start_called (Instance m)) (start_order_ r);
  inv_nodup : NoDup (start_order_ r);
  inv_find : forall m, find m (started_modules_ r) =
                       if in_dec Nat.eq_dec m (start_order_ r)
                       then Some (Instance m) else None;
  inv_keys : NoDup (map fst (started_modules_ r))
}.

Section Start.

(** What [instance->ListDependencies(&instance->dependencies_)] lists for
    the module a factory constructs. *)
Variable ListDependencies : ModuleFactory -> list ModuleFactory.

(** The overload of [Start] on a [ModuleList], over a [Start] for single
    modules. *)
Definition StartList (start : ModuleFactory -> registry -> option registry)
  : list ModuleFactory -> registry -> option registry :=
  fix go (modules : list ModuleFactory) (r : registry) : option registry :=
    match modules with
    | [] => Some r
    | it :: rest =>
        match start it r with
        | Some r' => go rest r'
        | None => None
        end
    end.

(** The overload of [Start] on a single [ModuleFactory].  The recursion through the
    dependencies is bounded by [fuel]; [None] means the bound was reached
    (a dependency cycle never returns). *)
Fixpoint Start (fuel : nat) (module : ModuleFactory) (r : registry) : option registry :=
  match fuel with
  | O => None
  | S fuel' =>
      match find module (started_modules_ r) with
      | Some _ => Some r
      | None =>
          let instance := Instance module in
          let dependencies_ := ListDependencies module in
          match StartList (Start fuel') dependencies_ r with
          | None => None
          | Some r1 =>
              Some (mk_registry
                      (assign module instance (started_modules_ r1))
                      (start_order_ r1 ++ [module])
                      (calls_ r1 ++ [Start_called instance]))
          end
      end
  end.

(** Registries produced by calls of [Start] that returned. *)
Inductive started : registry -> Prop :=
| started_empty : started empty
| started_Start fuel module r r' :
    started r -> Start fuel module r = Some r' -> started r'.

(** A chain of modules whose starts are in progress: the head depends on
    the module about to start, each further one on its predecessor. *)
Inductive chain : list ModuleFactory -> ModuleFactory -> Prop :=
| chain_nil a : chain [] a
| chain_cons s rest a :
    In a (ListDependencies s) -> chain rest s -> chain (s :: rest) a.

(** What a returning [Start] guarantees: the invariant, the module
    started, and nothing on the chain of starts in progress started. *)
Definition Start_returns (fuel : nat) : Prop :=
  forall module r r' stack,
    registry_inv r -> Start fuel module r = Some r' ->
    chain stack module -> Forall (unstarted r) stack ->
    registry_inv r' /\ Forall (unstarted r') stack /\
    find module (started_modules_ r') <> None.

End Start.

(** The loop of [StopAll] over [start_order_.rbegin() .. rend()]. *)
Fixpoint stop_loop (order : list ModuleFactory) (r : registry) : outcome registry :=
  match order with
  | [] => Done r
  | it :: rest =>
      match find it (started_modules_ r) with
      | None => AssertFailed "instance != started_modules_.end()"
      | Some i =>
          stop_loop rest
            (mk_registry (erase it (started_modules_ r)) (start_order_ r)
                         (calls_ r ++ [Stop_called i]))
      end
  end.

Definition StopAll (r : registry) : outcome registry :=
  r1 <- stop_loop (rev (start_order_ r)) r ;;
  _ <- ASSERT (match started_modules_ r1 with [] => true | _ => false end)
         "started_modules_.empty()" ;;
  Done (mk_registry (started_modules_ r1) [] (calls_ r1)).

(** The instances whose start step, resp. stop step, ran, in order. *)
Fixpoint started_instances (calls : list lifecycle_call) : list instance :=
  match calls with
  | [] => []
  | Start_called i :: rest => i :: started_instances rest
  | Stop_called _ :: rest => started_instances rest
  end.

Fixpoint stopped_instances (calls : list lifecycle_call) : list instance :=
  match calls with
  | [] => []
  | Start_called _ :: rest => stopped_instances rest
  | Stop_called i :: rest => i :: stopped_instances rest
  end.

(** A small stack: module 0 depends on 1 and 2, module 1 on 2. *)
Definition example_dependencies (module : ModuleFactory) : list ModuleFactory :=
  match module with
  | 0%nat => [1%nat; 2%nat]
  | 1%nat => [2%nat]
  | _ => []
  end.

Definition example_registry : registry :=
  mk_registry
    [(2%nat, Instance 2%nat); (1%nat, Instance 1%nat); (0%nat, Instance 0%nat)]
    [2%nat; 1%nat; 0%nat]
    [Start_called (Instance 2%nat); Start_called (Instance 1%nat);
     Start_called (Instance 0%nat)].

(** [Module::GetDependency], called on the instance constructed by
    [self]: [dependencies_.list_] holds what [ListDependencies] listed when
    the instance was started. *)
Fixpoint GetDependency_loop (dependencies : list ModuleFactory)
         (module : ModuleFactory) (r : registry) : outcome instance :=
  match dependencies with
  | [] => AssertFailed "false"
  | dependency :: rest =>
      if Nat.eqb dependency module then Get module r
      else GetDependency_loop rest module r
  end.

Definition GetDependency (ListDependencies : ModuleFactory -> list ModuleFactory)
           (self module : ModuleFactory) (r : registry) : outcome instance :=
  GetDependency_loop (ListDependencies self) module r.

(** Every module of [order] comes after all its dependencies. *)
Definition dependencies_first (ListDependencies : ModuleFactory -> list ModuleFactory)
           (order : list ModuleFactory) : Prop :=
  forall l1 m l2, order = l1 ++ m :: l2 ->
                  forall d, In d (ListDependencies m) -> In d l1.

(** Two modules that depend on each other. *)
Definition cyclic_dependencies (module : ModuleFactory) : list ModuleFactory :=
  match module with
  | 0%nat => [1%nat]
  | 1%nat => [0%nat]
  | _ => []
  end.

End ModuleRegistry.

(** * Properties of the scheduler *)

Import RoundRobinScheduler.

(** ** Fragmentation *)

Section Fragmentation.

Lemma split_pieces_concat fuel mtu (p : list byte) :
  (0 < mtu)%nat -> (length p <= fuel)%nat ->
  concat (split_pieces fuel mtu p) = p.
Proof.
  intros Hm. revert p.
  induction fuel as [|fuel IH]; intros p Hlen.
  - destruct p; [reflexivity | simpl in Hlen; lia].
  - destruct p as [|b p]; [reflexivity|].
    cbn [split_pieces concat].
    rewrite IH.
    + apply firstn_skipn.
    + rewrite length_skipn. cbn [length] in *. lia.
Qed.

Lemma split_pieces_count fuel mtu (p : list byte) :
  (0 < mtu)%nat -> (length p <= fuel)%nat -> p <> [] ->
  let n := length (split_pieces fuel mtu p) in
  ((n - 1) * mtu < length p /\ length p <= n * mtu /\ 1 <= n)%nat.
Proof.
  intros Hm. revert p.
  induction fuel as [|fuel IH]; intros p Hlen Hne.
  - destruct p; [congruence | simpl in Hlen; lia].
  - destruct p as [|b p]; [congruence|].
    cbn [split_pieces length]. cbv zeta.
    destruct (skipn mtu (b :: p)) as [|c rest] eqn:Hs.
    + assert (Hl : length (skipn mtu (b :: p)) = O) by (rewrite Hs; reflexivity).
      rewrite length_skipn in Hl. cbn [length] in Hl.
      destruct fuel; cbn [split_pieces length]; lia.
    + assert (Hl : length (skipn mtu (b :: p)) = length (c :: rest)) by (rewrite Hs; reflexivity).
      rewrite length_skipn in Hl. cbn [length] in Hl.
      specialize (IH (c :: rest)).
      cbv zeta in IH. cbn [length] in IH.
      assert (Hfuel : (S (length rest) <= fuel)%nat) by (simpl in Hlen; lia).
      specialize (IH Hfuel ltac:(discriminate)).
      destruct IH as (I1 & I2 & I3).
      remember (length (split_pieces fuel mtu (c :: rest))) as n.
      simpl in Hlen.
      repeat split; try lia; nia.
Qed.

Lemma ceil_div_unique (a b n : Z) :
  0 < b -> (n - 1) * b < a -> a <= n * b -> ceil_div a b = n.
Proof.
  intros Hb H1 H2. unfold ceil_div. symmetry.
  apply Z.div_unique with (r := a + b - 1 - b * n); lia.
Qed.

Lemma push_fragments_app k h flag pieces q :
  push_fragments k h flag pieces q = q ++ map (pair k) (tag_pieces k h flag pieces).
Proof.
  revert flag q. induction pieces as [|f rest IH]; intros flag q.
  - simpl. now rewrite app_nil_r.
  - cbn [push_fragments]. rewrite IH. rewrite <- app_assoc.
    destruct rest; reflexivity.
Qed.

Lemma tag_pieces_payload k h flag pieces :
  map builder_payload (tag_pieces k h flag pieces) = pieces.
Proof.
  destruct pieces as [|f rest]; [reflexivity|].
  cbn [tag_pieces map builder_payload]. f_equal.
  rewrite map_map. cbn. apply map_id.
Qed.

End Fragmentation.

(** C6: one delivered payload of length [L], with MTU [M > 0] for the
    connection's kind, appends exactly [ceil(max(1,L)/M)] fragments to the
    FIFO; their payloads concatenate to the payload; the first is
    FIRST_AUTOMATICALLY_FLUSHABLE and all later ones CONTINUING_FRAGMENT;
    an empty payload gives one empty FIRST_AUTOMATICALLY_FLUSHABLE fragment. *)
Theorem BufferPacket_fragments (s : scheduler) (h : Z) (r : acl_queue_handler)
        (p : list byte) :
  map_find h (acl_queue_handlers_ s) = Some r ->
  0 < mtu_of (connection_type_ r) s ->
  exists s' frs,
    BufferPacket h (Some p) s = Done s' /\
    fragments_to_send_ s' =
      fragments_to_send_ s ++ map (pair (connection_type_ r)) frs /\
    Z.of_nat (length frs) =
      ceil_div (Z.max 1 (Z.of_nat (length p))) (mtu_of (connection_type_ r) s) /\
    concat (map builder_payload frs) = p /\
    (exists first rest,
        frs = first :: rest /\
        builder_packet_boundary_flag first = FIRST_AUTOMATICALLY_FLUSHABLE /\
        Forall (fun f => builder_packet_boundary_flag f = CONTINUING_FRAGMENT) rest) /\
    (p = [] -> frs = [Create h FIRST_AUTOMATICALLY_FLUSHABLE POINT_TO_POINT []]).
Proof.
  intros Hfind Hmtu.
  unfold BufferPacket. rewrite Hfind. cbv zeta.
  set (k := connection_type_ r) in *.
  set (M := mtu_of k s) in *.
  destruct (Z.of_nat (length p) <=? M) eqn:Hle.
  - (* a single fragment *)
    apply Z.leb_le in Hle.
    set (f := Create h FIRST_AUTOMATICALLY_FLUSHABLE POINT_TO_POINT p).
    assert (Hpos : (0 <? Z.of_nat (length (fragments_to_send_ s ++ [(k, f)]))) = true).
    { apply Z.ltb_lt. rewrite length_app. simpl. lia. }
    rewrite Hpos. cbn [ASSERT bind].
    eexists. exists [f]. split; [reflexivity|].
    split; [reflexivity|].
    split.
    { cbn [length]. symmetry. apply ceil_div_unique; lia. }
    split; [simpl; apply app_nil_r|].
    split.
    { exists f, []. repeat split. constructor. }
    intros ->. reflexivity.
  - (* several fragments *)
    apply Z.leb_gt in Hle.
    rewrite push_fragments_app.
    set (frs := tag_pieces k h FIRST_AUTOMATICALLY_FLUSHABLE (GetFragments M p)).
    assert (Hne : p <> []) by (intros ->; simpl in Hle; lia).
    assert (HM : (0 < Z.to_nat M)%nat) by lia.
    pose proof (split_pieces_count (length p) (Z.to_nat M) p HM (le_n _) Hne) as Hc.
    cbv zeta in Hc. fold (GetFragments M p) in Hc.
    assert (Hlen : length frs = length (GetFragments M p)).
    { unfold frs.
      rewrite <- (length_map builder_payload). now rewrite tag_pieces_payload. }
    assert (Hpos : (0 <? Z.of_nat (length (fragments_to_send_ s ++ map (pair k) frs))) = true).
    { apply Z.ltb_lt. rewrite length_app, length_map, Hlen. lia. }
    rewrite Hpos. cbn [ASSERT bind].
    eexists. exists frs. split; [reflexivity|].
    split; [reflexivity|].
    split.
    { rewrite Hlen. destruct Hc as (H1 & H2 & H3).
      symmetry. apply ceil_div_unique; try lia; nia. }
    split.
    { unfold frs. rewrite tag_pieces_payload. unfold GetFragments.
      apply split_pieces_concat; [exact HM | apply le_n]. }
    split.
    { unfold frs. destruct (GetFragments M p) as [|f rest] eqn:Hg.
      - simpl in Hc. lia.
      - cbn [tag_pieces]. eexists _, _. split; [reflexivity|]. split; [reflexivity|].
        apply Forall_forall. intros x Hx. apply in_map_iff in Hx.
        destruct Hx as (y & <- & _). reflexivity. }
    intros ->. congruence.
Qed.

(** ** The handler map *)

Section MapFacts.

Lemma map_find_In h m r : map_find h m = Some r -> In h (map_keys m).
Proof.
  induction m as [|[k r0] m IH]; simpl; [discriminate|].
  destruct (Z.eqb_spec k h); [now left | right; auto].
Qed.

Lemma map_find_None h m : map_find h m = None -> ~ In h (map_keys m).
Proof.
  induction m as [|[k r0] m IH]; simpl; [tauto|].
  destruct (Z.eqb_spec k h); [discriminate|]. intros H [E|E]; [congruence | now apply IH].
Qed.

Lemma In_map_find h m : In h (map_keys m) -> exists r, map_find h m = Some r.
Proof.
  destruct (map_find h m) eqn:E; [eauto|].
  intros H. now apply map_find_None in E.
Qed.

Lemma map_insert_present h r r0 m : map_find h m = Some r0 -> map_insert h r m = m.
Proof. unfold map_insert. now intros ->. Qed.

Lemma map_place_keys h r m k :
  In k (map_keys (map_place h r m)) <-> k = h \/ In k (map_keys m).
Proof.
  induction m as [|[k0 r0] m IH]; simpl.
  - intuition.
  - destruct (h <? k0); simpl; rewrite ?IH; intuition.
Qed.

Lemma map_place_NoDup h r m :
  ~ In h (map_keys m) -> NoDup (map_keys m) -> NoDup (map_keys (map_place h r m)).
Proof.
  induction m as [|[k0 r0] m IH]; simpl; intros Hn Hd.
  - constructor; [tauto | constructor].
  - destruct (h <? k0); simpl.
    + constructor; simpl; [tauto | exact Hd].
    + inversion Hd; subst. constructor.
      * rewrite map_place_keys. intuition.
      * apply IH; tauto.
Qed.

Lemma map_insert_keys h r m k :
  In k (map_keys (map_insert h r m)) <-> k = h \/ In k (map_keys m).
Proof.
  unfold map_insert. destruct (map_find h m) eqn:E.
  - apply map_find_In in E. intuition (subst; auto).
  - apply map_place_keys.
Qed.

Lemma map_insert_NoDup h r m :
  NoDup (map_keys m) -> NoDup (map_keys (map_insert h r m)).
Proof.
  unfold map_insert. destruct (map_find h m) eqn:E; [auto|].
  intros. apply map_place_NoDup; [now apply map_find_None | assumption].
Qed.

Lemma map_place_find h r m k :
  map_find h m = None ->
  map_find k (map_place h r m) = if h =? k then Some r else map_find k m.
Proof.
  induction m as [|[k0 r0] m IH]; simpl; intros Hf.
  - reflexivity.
  - destruct (Z.eqb_spec k0 h); [discriminate|].
    destruct (h <? k0); simpl.
    + reflexivity.
    + rewrite IH by assumption.
      destruct (Z.eqb_spec k0 k), (Z.eqb_spec h k); congruence.
Qed.

Lemma map_update_keys h f m : map_keys (map_update h f m) = map_keys m.
Proof.
  induction m as [|[k r] m IH]; simpl; [reflexivity|].
  destruct (k =? h); simpl; [reflexivity | now rewrite IH].
Qed.

Lemma map_update_length h f m : length (map_update h f m) = length m.
Proof.
  induction m as [|[k r] m IH]; simpl; [reflexivity|].
  destruct (k =? h); simpl; [reflexivity | now rewrite IH].
Qed.

Lemma map_find_update h f m k :
  map_find k (map_update h f m) =
  if h =? k then option_map f (map_find k m) else map_find k m.
Proof.
  induction m as [|[k0 r] m IH]; simpl.
  - now destruct (h =? k).
  - destruct (Z.eqb_spec k0 h) as [->|Hne]; simpl.
    + destruct (Z.eqb_spec h k); reflexivity.
    + rewrite IH. destruct (Z.eqb_spec k0 k), (Z.eqb_spec h k); try reflexivity; congruence.
Qed.

Lemma map_erase_keys h m k : In k (map_keys (map_erase h m)) -> In k (map_keys m).
Proof.
  induction m as [|[k0 r] m IH]; simpl; [tauto|].
  destruct (k0 =? h); simpl; intuition.
Qed.

Lemma map_erase_NoDup h m : NoDup (map_keys m) -> NoDup (map_keys (map_erase h m)).
Proof.
  induction m as [|[k0 r] m IH]; simpl; intros Hd; [constructor|].
  inversion Hd; subst. destruct (k0 =? h); simpl; [assumption|].
  constructor; [|auto]. intros Hin. now apply map_erase_keys in Hin.
Qed.

End MapFacts.

(** ** Dequeue flags and sums *)

Section FlagsAndSums.

Lemma unregister_all_keys m : map_keys (UnregisterAllConnections m) = map_keys m.
Proof. unfold map_keys, UnregisterAllConnections. rewrite map_map. reflexivity. Qed.

Lemma unregister_all_length m : length (UnregisterAllConnections m) = length m.
Proof. apply length_map. Qed.

Lemma unregister_all_find h m :
  map_find h (UnregisterAllConnections m) =
  option_map (set_dequeue_is_registered false) (map_find h m).
Proof.
  induction m as [|[k r] m IH]; simpl; [reflexivity|].
  destruct (k =? h); [reflexivity | exact IH].
Qed.

Lemma unregister_all_unregistered m :
  all_unregistered (UnregisterAllConnections m) = true.
Proof. induction m as [|[k r] m IH]; simpl; auto. Qed.

Lemma unregister_all_update_flag h b m :
  UnregisterAllConnections (map_update h (set_dequeue_is_registered b) m) =
  UnregisterAllConnections m.
Proof.
  induction m as [|[k r] m IH]; simpl; [reflexivity|].
  destruct (k =? h); simpl; [reflexivity | now rewrite IH].
Qed.

Lemma unregister_all_update_sent h g m :
  all_unregistered
    (map_update h (fun e => set_number_of_sent_packets (g e) e)
                (UnregisterAllConnections m)) = true.
Proof.
  induction m as [|[k r] m IH]; simpl; [reflexivity|].
  destruct (k =? h); simpl.
  - apply unregister_all_unregistered.
  - exact IH.
Qed.

Lemma all_unregistered_find m h r :
  all_unregistered m = true -> map_find h m = Some r -> dequeue_is_registered_ r = false.
Proof.
  induction m as [|[k r0] m IH]; simpl; [discriminate|].
  intros Ha. apply andb_true_iff in Ha. destruct Ha as [H1 H2].
  destruct (k =? h).
  - intros [= <-]. now apply negb_true_iff.
  - now apply IH.
Qed.

Lemma all_unregistered_place h r m :
  dequeue_is_registered_ r = false ->
  all_unregistered m = true -> all_unregistered (map_place h r m) = true.
Proof.
  intros Hr. induction m as [|[k r0] m IH]; simpl; intros Ha.
  - now rewrite Hr.
  - apply andb_true_iff in Ha. destruct Ha as [H1 H2].
    destruct (h <? k); simpl.
    + rewrite Hr, H1, H2. reflexivity.
    + rewrite H1. simpl. auto.
Qed.

Lemma all_unregistered_insert h r m :
  dequeue_is_registered_ r = false ->
  all_unregistered m = true -> all_unregistered (map_insert h r m) = true.
Proof.
  intros. unfold map_insert. destruct (map_find h m); [assumption|].
  now apply all_unregistered_place.
Qed.

Lemma all_unregistered_erase h m :
  all_unregistered m = true -> all_unregistered (map_erase h m) = true.
Proof.
  induction m as [|[k r0] m IH]; simpl; [auto|].
  intros Ha. apply andb_true_iff in Ha. destruct Ha as [H1 H2].
  destruct (k =? h); simpl; [assumption|]. rewrite H1. simpl. auto.
Qed.

Lemma all_unregistered_update_sent h g m :
  all_unregistered m = true ->
  all_unregistered (map_update h (fun e => set_number_of_sent_packets (g e) e) m) = true.
Proof.
  induction m as [|[k r0] m IH]; simpl; [auto|].
  intros Ha. apply andb_true_iff in Ha. destruct Ha as [H1 H2].
  destruct (k =? h); simpl; rewrite H1; simpl; auto.
Qed.

Lemma sum_sent_unregister_all k m :
  sum_sent k (UnregisterAllConnections m) = sum_sent k m.
Proof.
  induction m as [|[h r] m IH]; simpl; [reflexivity|]. now rewrite IH.
Qed.

Lemma sum_sent_same_unregistered k m m' :
  UnregisterAllConnections m' = UnregisterAllConnections m ->
  sum_sent k m' = sum_sent k m.
Proof.
  intros H. rewrite <- (sum_sent_unregister_all k m'), H.
  apply sum_sent_unregister_all.
Qed.

Lemma sum_sent_place k h r m :
  sum_sent k (map_place h r m) = contribution k r + sum_sent k m.
Proof.
  induction m as [|[k0 r0] m IH]; simpl.
  - reflexivity.
  - destruct (h <? k0); simpl; [reflexivity|]. rewrite IH. lia.
Qed.

Lemma sum_sent_insert_fresh k h r m :
  number_of_sent_packets_ r = 0 ->
  sum_sent k (map_insert h r m) = sum_sent k m.
Proof.
  intros H0. unfold map_insert. destruct (map_find h m); [reflexivity|].
  rewrite sum_sent_place. unfold contribution. rewrite H0.
  destruct (ConnectionType_eqb _ _); lia.
Qed.

Lemma sum_sent_update k h f m r :
  map_find h m = Some r ->
  sum_sent k (map_update h f m) = sum_sent k m - contribution k r + contribution k (f r).
Proof.
  induction m as [|[k0 r0] m IH]; simpl; [discriminate|].
  destruct (k0 =? h); simpl.
  - intros [= ->]. unfold contribution. lia.
  - intros Hf. rewrite (IH Hf). lia.
Qed.

Lemma sum_sent_erase k h m r :
  map_find h m = Some r ->
  sum_sent k (map_erase h m) = sum_sent k m - contribution k r.
Proof.
  induction m as [|[k0 r0] m IH]; simpl; [discriminate|].
  destruct (k0 =? h); simpl.
  - intros [= ->]. unfold contribution. lia.
  - intros Hf. rewrite (IH Hf). lia.
Qed.

Lemma queued_app k q1 q2 : queued k (q1 ++ q2) = queued k q1 + queued k q2.
Proof.
  induction q1 as [|[k' f] q1 IH]; simpl; [reflexivity|]. rewrite IH. lia.
Qed.

Lemma queued_tagged k k' (frs : list AclPacketBuilder) :
  queued k (map (pair k') frs) =
  if ConnectionType_eqb k' k then Z.of_nat (length frs) else 0.
Proof.
  induction frs as [|f frs IH]; simpl.
  - now destruct (ConnectionType_eqb k' k).
  - rewrite IH. destruct (ConnectionType_eqb k' k); lia.
Qed.

End FlagsAndSums.

(** ** Iterators and the registration pass *)

Section Iterators.

Lemma map_begin_designates m : cursor_designates m (map_begin m).
Proof. destruct m as [|[k r] m]; simpl; auto. Qed.

Lemma map_next_of_designates h m :
  In h (map_keys m) ->
  exists it, map_next_of h m = Some it /\ cursor_designates m it.
Proof.
  induction m as [|[k r] m IH]; simpl; [tauto|].
  destruct (Z.eqb_spec k h) as [->|Hne].
  - intros _. eexists. split; [reflexivity|].
    destruct m as [|[k' r'] m]; simpl; auto.
  - intros [E|Hin]; [congruence|].
    destruct (IH Hin) as (it & H1 & H2). exists it. split; [assumption|].
    destruct it; simpl in *; auto.
Qed.

Lemma map_next_of_pos h m it :
  NoDup (map_keys m) -> map_next_of h m = Some it ->
  iter_pos it m = S (map_index h m).
Proof.
  induction m as [|[k r] m IH]; simpl; [discriminate|].
  intros Hd. inversion Hd as [|? ? Hnotin Hd']; subst.
  destruct (Z.eqb_spec k h) as [->|Hne].
  - intros [= <-]. destruct m as [|[k' r'] m]; simpl; [reflexivity|].
    destruct (Z.eqb_spec h k'); [subst; simpl in Hnotin; tauto|].
    now rewrite Z.eqb_refl.
  - intros Hn. specialize (IH Hd' Hn).
    destruct it as [| |h']; simpl in *; try (now rewrite IH).
    destruct (Z.eqb_spec k h'); [|now rewrite IH].
    subst. exfalso.
    (* [h'] comes after [h] in [m], so it is a key of [m] *)
    clear IH Hd Hd'. apply Hnotin. clear Hnotin Hne.
    induction m as [|[k1 r1] m IHm]; simpl in *; [discriminate|].
    destruct (k1 =? h).
    + destruct m as [|[k2 r2] m]; simpl in *; [discriminate|].
      injection Hn as ->. auto.
    + right. auto.
Qed.

Lemma map_index_lt h m : In h (map_keys m) -> (map_index h m < length m)%nat.
Proof.
  induction m as [|[k r] m IH]; simpl; [tauto|].
  destruct (Z.eqb_spec k h); [lia|]. intros [E|Hin]; [congruence|].
  specialize (IH Hin). lia.
Qed.

Lemma iter_next_designates h m :
  In h (map_keys m) ->
  exists it, iter_next (it_at h) m = Done it /\ cursor_designates m it.
Proof.
  intros Hin. destruct (map_next_of_designates h m Hin) as (it & H1 & H2).
  exists it. simpl. now rewrite H1.
Qed.

Lemma iter_next_inv it m it' :
  iter_next it m = Done it' ->
  exists h, it = it_at h /\ map_next_of h m = Some it'.
Proof.
  destruct it as [| |h]; simpl; try discriminate.
  destruct (map_next_of h m) eqn:E; [|discriminate].
  intros [= ->]. eauto.
Qed.

Lemma map_next_of_In h m it : map_next_of h m = Some it -> In h (map_keys m).
Proof.
  induction m as [|[k r] m IH]; simpl; [discriminate|].
  destruct (Z.eqb_spec k h); [now left | right; auto].
Qed.

Lemma round_robin_loop_frame count :
  forall it m m',
    round_robin_loop count it m = Done m' ->
    UnregisterAllConnections m' = UnregisterAllConnections m.
Proof.
  induction count as [|count IH]; intros it m m'; cbn [round_robin_loop].
  - now intros [= ->].
  - destruct it as [| |h]; try discriminate.
    destruct (map_find h m) as [r|] eqn:Hf; [|discriminate].
    set (m1 := if dequeue_is_registered_ r then m
               else map_update h (set_dequeue_is_registered true) m).
    assert (Hm1 : UnregisterAllConnections m1 = UnregisterAllConnections m).
    { unfold m1. destruct (dequeue_is_registered_ r); [reflexivity|].
      apply unregister_all_update_flag. }
    unfold iter_next.
    destruct (map_next_of h m1) as [it1|]; cbn [bind]; [|discriminate].
    intros Hl. apply IH in Hl. congruence.
Qed.

Lemma round_robin_loop_total count :
  forall h m, In h (map_keys m) -> exists m', round_robin_loop count (it_at h) m = Done m'.
Proof.
  induction count as [|count IH]; intros h m Hin; cbn [round_robin_loop]; [eauto|].
  destruct (In_map_find h m Hin) as (r & ->).
  set (m1 := if dequeue_is_registered_ r then m
             else map_update h (set_dequeue_is_registered true) m).
  assert (Hk : map_keys m1 = map_keys m).
  { unfold m1. destruct (dequeue_is_registered_ r); [reflexivity|].
    apply map_update_keys. }
  assert (Hin1 : In h (map_keys m1)) by now rewrite Hk.
  unfold iter_next.
  destruct (map_next_of_designates h m1 Hin1) as (it1 & -> & Hd).
  cbn [bind].
  destruct it1 as [| |h1]; simpl in *; [tauto| |now apply IH].
  destruct m1 as [|[k0 r0] m1']; [simpl in Hin1; tauto|].
  simpl. apply IH. simpl. auto.
Qed.

Lemma same_unregistered_keys m m' :
  UnregisterAllConnections m' = UnregisterAllConnections m -> map_keys m' = map_keys m.
Proof.
  intros H. rewrite <- (unregister_all_keys m'), H. apply unregister_all_keys.
Qed.

Lemma same_unregistered_length m m' :
  UnregisterAllConnections m' = UnregisterAllConnections m -> length m' = length m.
Proof.
  intros H. rewrite <- (unregister_all_length m'), H. apply unregister_all_length.
Qed.

End Iterators.

(** ** [StartRoundRobin] *)

(** Projections of an updated scheduler. *)
Ltac fields :=
  cbn [acl_queue_handlers_ fragments_to_send_ max_acl_packet_credits_
       acl_packet_credits_ le_max_acl_packet_credits_ le_acl_packet_credits_
       hci_mtu_ le_hci_mtu_ enqueue_registered_ starting_point_ handler_posts_
       with_handlers with_fragments with_acl_credits with_le_credits
       with_enqueue_registered with_starting_point with_handler_posts
       SendNextFragment credits credits_max] in *.

Section RegistrationPass.

Lemma map_next_of_cursor h m it :
  map_next_of h m = Some it -> cursor_designates m it.
Proof.
  intros H. pose proof (map_next_of_In _ _ _ H) as Hin.
  destruct (map_next_of_designates h m Hin) as (it' & H1 & H2). congruence.
Qed.

(** The three ways [StartRoundRobin] returns. *)
Lemma StartRoundRobin_cases s s' :
  StartRoundRobin s = Done s' ->
  (no_credits s /\ s' = s) \/
  (fragments_to_send_ s <> [] /\ s' = SendNextFragment s) \/
  (fragments_to_send_ s = [] /\ ~ no_credits s /\
   exists h m' next,
     pass_start s = Done (it_at h) /\
     round_robin_loop (length (acl_queue_handlers_ s)) (it_at h)
                      (acl_queue_handlers_ s) = Done m' /\
     map_next_of h m' = Some next /\
     s' = with_starting_point next (with_handlers m' s)).
Proof.
  unfold StartRoundRobin, no_credits.
  destruct (Z.eqb_spec (acl_packet_credits_ s) 0) as [Ha|Ha];
    destruct (Z.eqb_spec (le_acl_packet_credits_ s) 0) as [Hl|Hl]; cbn [andb].
  1: { intros [= <-]. left. auto. }
  all: destruct (fragments_to_send_ s) as [|f q] eqn:Hq; cbn [length Nat.eqb negb].
  all: try (intros [= <-]; right; left; split; [discriminate | reflexivity]).
  all: intros H; right; right; split; [reflexivity|]; split; [lia|].
  all: destruct (pass_start s) as [start| |]; cbn [bind] in H; try discriminate.
  all: destruct (round_robin_loop _ start _) as [m'| |] eqn:Hloop; cbn [bind] in H;
    try discriminate.
  all: destruct (iter_next start m') as [next| |] eqn:Hn; cbn [bind] in H; try discriminate.
  all: apply iter_next_inv in Hn; destruct Hn as (h & -> & Hn).
  all: injection H as <-; exists h, m', next; repeat split; assumption.
Qed.

(** [StartRoundRobin] touches only dequeue flags, the cursor and the
    enqueue registration. *)
Lemma StartRoundRobin_frame s s' :
  StartRoundRobin s = Done s' ->
  fragments_to_send_ s' = fragments_to_send_ s /\
  acl_packet_credits_ s' = acl_packet_credits_ s /\
  le_acl_packet_credits_ s' = le_acl_packet_credits_ s /\
  max_acl_packet_credits_ s' = max_acl_packet_credits_ s /\
  le_max_acl_packet_credits_ s' = le_max_acl_packet_credits_ s /\
  handler_posts_ s' = handler_posts_ s /\
  UnregisterAllConnections (acl_queue_handlers_ s') =
  UnregisterAllConnections (acl_queue_handlers_ s).
Proof.
  intros H. apply StartRoundRobin_cases in H.
  destruct H as [[_ ->]|[[_ ->]|(_ & _ & h & m' & next & _ & Hl & _ & ->)]];
    fields; repeat split; try reflexivity.
  now apply round_robin_loop_frame in Hl.
Qed.

Lemma StartRoundRobin_inv s s' :
  sched_pre s -> StartRoundRobin s = Done s' -> sched_inv s'.
Proof.
  intros [Hk Hf He Hc] H. apply StartRoundRobin_cases in H.
  destruct H as [[Hz ->]|[[Hq ->]|(Hq & Hnz & h & m' & next & Hs & Hl & Hn & ->)]].
  - split; [constructor; assumption | auto].
  - assert (Hns : starting_point_ s <> it_singular).
    { intros E. rewrite E in Hc. destruct Hc as [Hu _].
      now apply Hq, un_fifo. }
    split.
    + constructor; fields; auto.
      destruct (starting_point_ s); auto. congruence.
    + fields. intros E. congruence.
  - pose proof (round_robin_loop_frame _ _ _ _ Hl) as Hfr.
    pose proof (same_unregistered_keys _ _ Hfr) as Hkeys.
    split.
    + constructor; fields.
      * now rewrite Hkeys.
      * intros Hne. congruence.
      * exact He.
      * pose proof (map_next_of_cursor _ _ _ Hn) as Hd.
        destruct next; simpl in *; tauto.
    + fields. intros ->. now apply map_next_of_cursor in Hn.
Qed.

Lemma pass_start_total s :
  sched_pre s -> acl_queue_handlers_ s <> [] -> ~ no_credits s ->
  exists h, pass_start s = Done (it_at h) /\ In h (map_keys (acl_queue_handlers_ s)).
Proof.
  intros [Hk Hf He Hc] Hne Hnz. unfold pass_start.
  destruct (acl_queue_handlers_ s) as [|[k r] m] eqn:Hm; [congruence|].
  destruct (Z.eqb_spec (Z.of_nat (length ((k, r) :: m))) 1) as [E|E].
  - exists k. simpl. auto.
  - destruct (starting_point_ s) as [| |h].
    + exfalso. destruct Hc as [_ [Hlen|Hz]]; [|tauto].
      cbn [length] in *. destruct m; cbn [length] in *; [lia|lia].
    + exists k. simpl. auto.
    + exists h. simpl in Hc. auto.
Qed.

Lemma StartRoundRobin_total s :
  sched_pre s -> acl_queue_handlers_ s <> [] -> exists s', StartRoundRobin s = Done s'.
Proof.
  intros Hp Hne. unfold StartRoundRobin.
  destruct ((acl_packet_credits_ s =? 0) && (le_acl_packet_credits_ s =? 0)) eqn:Hz;
    [eauto|].
  destruct (negb (Nat.eqb (length (fragments_to_send_ s)) 0)); [eauto|].
  assert (Hnz : ~ no_credits s).
  { intros [H1 H2]. rewrite H1, H2 in Hz. discriminate. }
  destruct (pass_start_total s Hp Hne Hnz) as (h & -> & Hin). cbn [bind].
  destruct (round_robin_loop_total (length (acl_queue_handlers_ s)) h _ Hin)
    as (m' & Hl).
  rewrite Hl. cbn [bind].
  pose proof (same_unregistered_keys _ _ (round_robin_loop_frame _ _ _ _ Hl)) as Hkeys.
  rewrite <- Hkeys in Hin.
  destruct (iter_next_designates h m' Hin) as (next & -> & _). cbn [bind]. eauto.
Qed.

End RegistrationPass.

(** ** The invariant is kept by every step *)

Section Invariant.

Lemma map_find_insert_cases k h r m x :
  map_find k (map_insert h r m) = Some x -> x = r \/ map_find k m = Some x.
Proof.
  unfold map_insert. destruct (map_find h m) eqn:E; [auto|].
  rewrite map_place_find by assumption.
  destruct (h =? k); [intros [= <-]; auto | auto].
Qed.

Lemma new_inv a b c d : sched_inv (new a b c d).
Proof.
  split.
  - constructor; simpl; try constructor; try congruence; try (left; lia).
    constructor; simpl; try reflexivity. discriminate.
  - intros _. now left.
Qed.

Lemma Register_inv k h q s s' :
  sched_inv s -> Register k h q s = Done s' -> sched_inv s'.
Proof.
  intros [[Hk Hf He Hc] Hi] H. unfold Register in H.
  set (r0 := mk_handler k q false 0 false) in *.
  set (s1 := with_handlers (map_insert h r0 (acl_queue_handlers_ s)) s) in *.
  assert (Hp1 : sched_pre s1).
  { constructor; unfold s1; fields.
    - now apply map_insert_NoDup.
    - intros Hne. apply all_unregistered_insert; [reflexivity | auto].
    - exact He.
    - destruct (starting_point_ s) eqn:Hsp.
      + destruct Hc as [Hu Hlen]. split.
        * destruct Hu. constructor; fields; auto.
          -- apply all_unregistered_insert; [reflexivity | assumption].
          -- intros h1 r1 Hfind. apply map_find_insert_cases in Hfind.
             destruct Hfind as [->|Hfind]; [reflexivity | eauto].
        * destruct (Hi eq_refl) as [Hm|Hz]; [left | right; exact Hz].
          rewrite Hm. unfold map_insert. simpl. lia.
      + exact I.
      + simpl. apply map_insert_keys. auto. }
  destruct (Nat.eqb (length (fragments_to_send_ s1)) 0) eqn:Hq.
  - now apply StartRoundRobin_inv with (s := s1).
  - injection H as <-. split; [exact Hp1|].
    unfold s1 at 1. fields. intros Hsp. exfalso.
    rewrite Hsp in Hc. destruct Hc as [Hu _]. destruct Hu.
    unfold s1 in Hq. fields. rewrite un_fifo0 in Hq. discriminate.
Qed.

Lemma Unregister_inv h s s' :
  sched_inv s -> Unregister h s = Done s' -> sched_inv s'.
Proof.
  intros [[Hk Hf He Hc] Hi] H. unfold Unregister in H.
  destruct (map_find h (acl_queue_handlers_ s)); [|discriminate].
  injection H as <-. split.
  - constructor; fields.
    + now apply map_erase_NoDup.
    + intros Hne. apply all_unregistered_erase. auto.
    + exact He.
    + pose proof (map_begin_designates (map_erase h (acl_queue_handlers_ s))) as Hd.
      destruct (map_begin _); simpl in *; tauto.
  - fields. intros E.
    pose proof (map_begin_designates (map_erase h (acl_queue_handlers_ s))) as Hd.
    rewrite E in Hd. destruct Hd.
Qed.

Lemma wrap16_0 : wrap16 0 = 0.
Proof. reflexivity. Qed.

Lemma with_acl_credits_same s : with_acl_credits (acl_packet_credits_ s) s = s.
Proof. now destruct s. Qed.

Lemma with_le_credits_same s : with_le_credits (le_acl_packet_credits_ s) s = s.
Proof. now destruct s. Qed.

(** Once the cursor has been set, the invariant reads neither the
    credits nor the counts. *)
Lemma sched_inv_frame s s' :
  sched_inv s -> starting_point_ s <> it_singular ->
  map_keys (acl_queue_handlers_ s') = map_keys (acl_queue_handlers_ s) ->
  (fragments_to_send_ s' <> [] -> all_unregistered (acl_queue_handlers_ s') = true) ->
  (enqueue_registered_ s' = true -> fragments_to_send_ s' <> []) ->
  starting_point_ s' = starting_point_ s ->
  sched_inv s'.
Proof.
  intros [[Hk Hf He Hc] Hi] Hns Hm Hq Hen Hsp. split.
  - constructor; rewrite ?Hm, ?Hsp; auto.
    destruct (starting_point_ s); [congruence | assumption | ].
    simpl in *. now rewrite Hm.
  - congruence.
Qed.

Lemma SetDisconnect_inv h s s' :
  sched_inv s -> SetDisconnect h s = Done s' -> sched_inv s'.
Proof.
  intros Hinv H. unfold SetDisconnect in H.
  destruct (map_find h (acl_queue_handlers_ s)) as [r|] eqn:Hfind; [|discriminate].
  cbv zeta in H. cbn [connection_type_ number_of_sent_packets_ set_is_disconnected] in H.
  injection H as <-.
  destruct (starting_point_ s) eqn:Hsp.
  - (* nothing was sent yet and there are no credits: the state is unchanged *)
    destruct Hinv as [[Hk Hf He Hc] Hi].
    rewrite Hsp in Hc. destruct Hc as [Hu Hlen].
    assert (H0 : number_of_sent_packets_ r = 0) by (eapply un_sent; eauto).
    destruct (Hi Hsp) as [Hm|[Hz1 Hz2]]; [rewrite Hm in Hfind; discriminate|].
    assert (Hsame :
      match connection_type_ r with
      | CLASSIC => with_acl_credits
                     (wrap16 (acl_packet_credits_ s + number_of_sent_packets_ r)) s
      | LE => with_le_credits
                (wrap16 (le_acl_packet_credits_ s + number_of_sent_packets_ r)) s
      end = s).
    { rewrite H0, Hz1, Hz2. cbn [Z.add]. rewrite wrap16_0.
      destruct (connection_type_ r).
      - rewrite <- Hz1 at 1. apply with_acl_credits_same.
      - rewrite <- Hz2 at 1. apply with_le_credits_same. }
    rewrite Hsame. split; [constructor; auto; rewrite Hsp; auto | assumption].
  - destruct Hinv as [Hp Hi].
    apply sched_inv_frame with (s := s); [now split | congruence | ..];
      destruct (connection_type_ r); fields; auto; apply Hp.
  - destruct Hinv as [Hp Hi].
    apply sched_inv_frame with (s := s); [now split | congruence | ..];
      destruct (connection_type_ r); fields; auto; apply Hp.
Qed.

Lemma singular_untouched s :
  sched_inv s -> starting_point_ s = it_singular -> untouched s.
Proof. intros [[_ _ _ Hc] _] E. rewrite E in Hc. tauto. Qed.

Lemma BufferPacket_inv h p s s' r :
  sched_inv s ->
  map_find h (acl_queue_handlers_ s) = Some r -> dequeue_is_registered_ r = true ->
  BufferPacket h (Some p) s = Done s' -> sched_inv s'.
Proof.
  intros Hinv Hfind Hflag H.
  assert (Hns : starting_point_ s <> it_singular).
  { intros E. apply singular_untouched in E; [|assumption]. destruct E.
    rewrite (all_unregistered_find _ _ _ un_flags0 Hfind) in Hflag. discriminate. }
  unfold BufferPacket in H. rewrite Hfind in H. cbv zeta in H.
  match type of H with
  | context [ASSERT (0 <? Z.of_nat (length ?q)) _] => set (Q := q) in *
  end.
  destruct (0 <? Z.of_nat (length Q)) eqn:Hpos; cbn [ASSERT bind] in H; [|discriminate].
  injection H as <-.
  apply sched_inv_frame with (s := s); try assumption; fields.
  - now rewrite map_update_keys, unregister_all_keys.
  - intros _. apply unregister_all_update_sent.
  - intros _ E. rewrite E in Hpos. discriminate.
  - reflexivity.
Qed.

Lemma HandleEnqueueNextFragment_inv s s' pkt :
  sched_inv s -> enqueue_registered_ s = true ->
  HandleEnqueueNextFragment s = Done (s', pkt) -> sched_inv s'.
Proof.
  intros Hinv Hen H.
  assert (Hns : starting_point_ s <> it_singular).
  { intros E. apply singular_untouched in E; [|assumption]. destruct E. congruence. }
  pose proof Hinv as [[Hk Hf He Hc] Hi].
  unfold HandleEnqueueNextFragment in H.
  destruct (fragments_to_send_ s) as [|[k f] rest] eqn:Hq; [discriminate|].
  assert (Hall : all_unregistered (acl_queue_handlers_ s) = true)
    by (apply Hf; discriminate).
  destruct k;
    [destruct (0 <? acl_packet_credits_ s) | destruct (0 <? le_acl_packet_credits_ s)];
    cbn [ASSERT bind] in H; try discriminate;
    cbv zeta in H;
    destruct rest as [|[k2 f2] rest2]; fields.
  all: try (injection H as <- <-;
            apply sched_inv_frame with (s := s); try assumption; fields;
            auto; congruence).
  all: match type of H with
       | (if ?c then _ else _) = _ => destruct c
       end; injection H as <- <-;
       apply sched_inv_frame with (s := s); try assumption; fields;
       auto; try congruence; try discriminate.
Qed.

Lemma wrap16_small n : is_uint16 n = true -> wrap16 n = n.
Proof.
  unfold is_uint16, wrap16. intros H. apply andb_true_iff in H.
  destruct H as [H1 H2]. apply Z.leb_le in H1. apply Z.ltb_lt in H2.
  apply Z.mod_small. lia.
Qed.

Lemma map_update_id h f m r :
  map_find h m = Some r -> f r = r -> map_update h f m = m.
Proof.
  induction m as [|[k r0] m IH]; simpl; [discriminate|].
  destruct (k =? h).
  - intros [= ->] ->. reflexivity.
  - intros Hf Hr. now rewrite IH.
Qed.

Lemma with_handlers_same s : with_handlers (acl_queue_handlers_ s) s = s.
Proof. now destruct s. Qed.

Lemma IncomingAclCredits_inv h n s s' :
  sched_inv s -> is_uint16 n = true ->
  IncomingAclCredits h n s = Done s' -> sched_inv s'.
Proof.
  intros Hinv Hn H. unfold IncomingAclCredits in H.
  destruct (map_find h (acl_queue_handlers_ s)) as [r|] eqn:Hfind;
    [|injection H as <-; assumption].
  destruct (is_disconnected_ r); [injection H as <-; assumption|].
  cbv zeta in H.
  match type of H with
  | context [ASSERT (acl_packet_credits_ ?x <=? _) _] => set (s2 := x) in *
  end.
  destruct (acl_packet_credits_ s2 <=? max_acl_packet_credits_ s2) eqn:Ha;
    cbn [ASSERT bind] in H; [|discriminate].
  destruct (le_acl_packet_credits_ s2 <=? le_max_acl_packet_credits_ s2) eqn:Hl;
    cbn [ASSERT bind] in H; [|discriminate].
  assert (Hinv2 : sched_inv s2).
  { destruct (starting_point_ s) eqn:Hsp.
    - (* no credits at all: only a return of zero credits passes the assertions *)
      pose proof (singular_untouched s Hinv Hsp) as Hu. destruct Hu.
      destruct Hinv as [Hp Hi].
      destruct (Hi Hsp) as [Hm|[Hz1 Hz2]]; [rewrite Hm in Hfind; discriminate|].
      assert (H0 : number_of_sent_packets_ r = 0) by eauto.
      assert (Hn0 : n = 0).
      { apply Z.leb_le in Ha, Hl. unfold s2 in Ha, Hl.
        destruct (connection_type_ r); fields.
        - rewrite Hz1, Z.add_0_l, wrap16_small in Ha by assumption.
          unfold is_uint16 in Hn. lia.
        - rewrite Hz2, Z.add_0_l, wrap16_small in Hl by assumption.
          unfold is_uint16 in Hn. lia. }
      assert (Hs2 : s2 = s).
      { unfold s2. subst n.
        rewrite (map_update_id h _ _ r Hfind).
        - rewrite with_handlers_same, Hz1, Hz2. cbn [Z.add]. rewrite wrap16_0.
          destruct (connection_type_ r).
          + rewrite <- Hz1 at 1. apply with_acl_credits_same.
          + rewrite <- Hz2 at 1. apply with_le_credits_same.
        - rewrite H0. cbn [Z.sub Z.add Z.opp]. rewrite wrap16_0.
          destruct r; simpl in *. now subst. }
      rewrite Hs2. now split.
    - apply sched_inv_frame with (s := s); try assumption; try congruence;
        unfold s2; destruct (connection_type_ r); fields;
        rewrite ?map_update_keys; auto;
        try (intros Hne; apply all_unregistered_update_sent; now apply Hinv);
        apply Hinv.
    - apply sched_inv_frame with (s := s); try assumption; try congruence;
        unfold s2; destruct (connection_type_ r); fields;
        rewrite ?map_update_keys; auto;
        try (intros Hne; apply all_unregistered_update_sent; now apply Hinv);
        apply Hinv. }
  destruct ((acl_packet_credits_ s2 =? n) || (le_acl_packet_credits_ s2 =? n)).
  - apply StartRoundRobin_inv with (s := s2); [apply Hinv2 | assumption].
  - now injection H as <-.
Qed.

Lemma posted_StartRoundRobin_inv s s' :
  sched_inv s -> handler_posts_ s <> O ->
  StartRoundRobin (with_handler_posts (Nat.pred (handler_posts_ s)) s) = Done s' ->
  sched_inv s'.
Proof.
  intros Hinv Hp H.
  assert (Hns : starting_point_ s <> it_singular).
  { intros E. apply singular_untouched in E; [|assumption]. destruct E. congruence. }
  apply StartRoundRobin_inv in H; [assumption|].
  apply (sched_inv_frame s); try assumption; fields; auto; apply Hinv.
Qed.

Theorem step_inv o s s' :
  sched_inv s -> enabled o s = true -> run o s = Done s' -> sched_inv s'.
Proof.
  intros Hinv Hen H. destruct o; simpl in Hen, H.
  - eapply Register_inv; eauto.
  - eapply Unregister_inv; eauto.
  - eapply SetDisconnect_inv; eauto.
  - destruct (map_find handle (acl_queue_handlers_ s)) as [r|] eqn:Hf; [|discriminate].
    eapply BufferPacket_inv; eauto.
  - destruct (HandleEnqueueNextFragment s) as [[s1 pkt]| |] eqn:Hh; try discriminate.
    injection H as <-. eapply HandleEnqueueNextFragment_inv; eauto.
  - apply andb_true_iff in Hen. eapply IncomingAclCredits_inv; eauto. tauto.
  - eapply posted_StartRoundRobin_inv; eauto.
    destruct (handler_posts_ s); [discriminate | congruence].
Qed.

Theorem reachable_inv s s' : sched_inv s -> reachable s s' -> sched_inv s'.
Proof.
  intros Hinv Hr. induction Hr as [|s o s1 s2 Hen Hrun _ IH]; [assumption|].
  apply IH. eapply step_inv; eauto.
Qed.

Lemma exec_reachable tr :
  forall s s', admissible tr s = true -> exec tr s = Done s' -> reachable s s'.
Proof.
  induction tr as [|o tr IH]; intros s s'; simpl.
  - intros _ [= <-]. constructor.
  - intros Ha He. apply andb_true_iff in Ha. destruct Ha as [Hen Ha].
    destruct (run o s) as [s1| |] eqn:Hrun; cbn [bind] in He; try discriminate.
    eapply reach_step; eauto.
Qed.

End Invariant.

(** ** Credit accounting *)

Section Accounting.

#[local] Instance cong16_equivalence : Equivalence cong16.
Proof.
  split; unfold cong16.
  - intros x. reflexivity.
  - intros x y H. now symmetry.
  - intros x y z H1 H2. congruence.
Qed.

#[local] Instance cong16_add : Proper (cong16 ==> cong16 ==> cong16) Z.add.
Proof.
  intros a a' Ha b b' Hb. unfold cong16, wrap16 in *.
  rewrite (Z.add_mod a b), (Z.add_mod a' b') by lia. now rewrite Ha, Hb.
Qed.

#[local] Instance cong16_sub : Proper (cong16 ==> cong16 ==> cong16) Z.sub.
Proof.
  intros a a' Ha b b' Hb. unfold cong16, wrap16 in *.
  rewrite (Zminus_mod a b), (Zminus_mod a' b'). now rewrite Ha, Hb.
Qed.

Lemma cong16_wrap z : cong16 (wrap16 z) z.
Proof. unfold cong16, wrap16. apply Z.mod_mod. lia. Qed.

Lemma credit_balance_cong k s :
  credit_balance k s <->
  cong16 (credits k s + sum_sent k (acl_queue_handlers_ s))
         (credits_max k s + queued k (fragments_to_send_ s)).
Proof. reflexivity. Qed.

Lemma balance_frame k s s' :
  credits k s' = credits k s -> credits_max k s' = credits_max k s ->
  sum_sent k (acl_queue_handlers_ s') = sum_sent k (acl_queue_handlers_ s) ->
  queued k (fragments_to_send_ s') = queued k (fragments_to_send_ s) ->
  credit_balance k s -> credit_balance k s'.
Proof. unfold credit_balance. now intros -> -> -> ->. Qed.

Lemma balance_StartRoundRobin k s s' :
  StartRoundRobin s = Done s' -> credit_balance k s -> credit_balance k s'.
Proof.
  intros H. apply StartRoundRobin_frame in H.
  destruct H as (Hq & Ha & Hl & Hma & Hml & _ & Hfr).
  apply balance_frame.
  - destruct k; simpl; assumption.
  - destruct k; simpl; assumption.
  - now apply sum_sent_same_unregistered.
  - now rewrite Hq.
Qed.

Lemma balance_Register k kind h q s s' :
  Register kind h q s = Done s' -> credit_balance k s -> credit_balance k s'.
Proof.
  unfold Register. intros H Hb.
  match type of H with
  | context [StartRoundRobin ?x] => set (s1 := x) in *
  end.
  assert (Hb1 : credit_balance k s1).
  { revert Hb. apply balance_frame; unfold s1; destruct k; fields; try reflexivity;
      now apply sum_sent_insert_fresh. }
  destruct (Nat.eqb (length (fragments_to_send_ s1)) 0).
  - eapply balance_StartRoundRobin; eassumption.
  - now injection H as <-.
Qed.

Lemma balance_Unregister k h s s' :
  sent_of h s = 0 -> Unregister h s = Done s' ->
  credit_balance k s -> credit_balance k s'.
Proof.
  unfold Unregister, sent_of. intros H0 H.
  destruct (map_find h (acl_queue_handlers_ s)) as [r|] eqn:Hf; [|discriminate].
  injection H as <-. apply balance_frame; destruct k; fields; try reflexivity.
  all: rewrite (sum_sent_erase _ _ _ _ Hf); unfold contribution; rewrite H0;
    destruct (ConnectionType_eqb _ _); lia.
Qed.

Lemma balance_SetDisconnect k h s s' :
  sent_of h s = 0 -> SetDisconnect h s = Done s' ->
  credit_balance k s -> credit_balance k s'.
Proof.
  unfold SetDisconnect, sent_of. intros H0 H.
  destruct (map_find h (acl_queue_handlers_ s)) as [r|] eqn:Hf; [|discriminate].
  cbv zeta in H. cbn [connection_type_ number_of_sent_packets_ set_is_disconnected] in H.
  injection H as <-. rewrite H0, !Z.add_0_r.
  rewrite !credit_balance_cong.
  destruct (connection_type_ r), k; fields; rewrite ?cong16_wrap; auto.
Qed.

Lemma queued_new_fragments k kind h (p : list byte) mtu :
  let Q := if Z.of_nat (length p) <=? mtu
           then [] ++ [(kind, Create h FIRST_AUTOMATICALLY_FLUSHABLE POINT_TO_POINT p)]
           else push_fragments kind h FIRST_AUTOMATICALLY_FLUSHABLE
                  (GetFragments mtu p) [] in
  queued k Q = if ConnectionType_eqb kind k then Z.of_nat (length Q) else 0.
Proof.
  cbv zeta. destruct (Z.of_nat (length p) <=? mtu).
  - simpl. destruct (ConnectionType_eqb kind k); reflexivity.
  - rewrite push_fragments_app. cbn [app].
    rewrite queued_tagged, length_map. reflexivity.
Qed.

Lemma balance_BufferPacket k h p s s' :
  fragments_to_send_ s = [] -> BufferPacket h (Some p) s = Done s' ->
  credit_balance k s -> credit_balance k s'.
Proof.
  intros Hq H. unfold BufferPacket in H.
  destruct (map_find h (acl_queue_handlers_ s)) as [r|] eqn:Hf; [|discriminate].
  cbv zeta in H. rewrite Hq in H.
  pose proof (queued_new_fragments k (connection_type_ r) h p
                (mtu_of (connection_type_ r) s)) as HQ.
  cbv zeta in HQ.
  match type of H with
  | context [ASSERT (0 <? Z.of_nat (length ?q)) _] => set (Q := q) in *
  end.
  destruct (0 <? Z.of_nat (length Q)); cbn [ASSERT bind] in H; [|discriminate].
  injection H as <-.
  rewrite !credit_balance_cong. intros Hb.
  assert (Hfu : map_find h (UnregisterAllConnections (acl_queue_handlers_ s)) =
                Some (set_dequeue_is_registered false r)).
  { now rewrite unregister_all_find, Hf. }
  assert (Hc : credits k
                 (SendNextFragment
                    (with_handlers
                       (map_update h
                          (fun e => set_number_of_sent_packets
                                      (wrap16 (number_of_sent_packets_ e +
                                               Z.of_nat (length Q))) e)
                          (UnregisterAllConnections (acl_queue_handlers_ s)))
                       (with_fragments Q s))) = credits k s)
    by (destruct k; reflexivity).
  rewrite Hc. clear Hc.
  replace (credits_max k (SendNextFragment _)) with (credits_max k s)
    by (destruct k; reflexivity).
  fields. rewrite (sum_sent_update _ _ _ _ _ Hfu), sum_sent_unregister_all, HQ.
  rewrite Hq in Hb. cbn [queued] in Hb.
  unfold contribution.
  cbn [connection_type_ number_of_sent_packets_ set_number_of_sent_packets
       set_dequeue_is_registered].
  destruct (ConnectionType_eqb (connection_type_ r) k).
  - rewrite cong16_wrap.
    replace (credits k s + (sum_sent k (acl_queue_handlers_ s) -
                            number_of_sent_packets_ r +
                            (number_of_sent_packets_ r + Z.of_nat (length Q))))
      with (credits k s + sum_sent k (acl_queue_handlers_ s) + Z.of_nat (length Q))
      by ring.
    rewrite Hb. replace (credits_max k s + 0 + Z.of_nat (length Q))
      with (credits_max k s + Z.of_nat (length Q)) by ring.
    reflexivity.
  - replace (credits k s + (sum_sent k (acl_queue_handlers_ s) - 0 + 0))
      with (credits k s + sum_sent k (acl_queue_handlers_ s)) by ring.
    exact Hb.
Qed.

Lemma balance_HandleEnqueueNextFragment k s s' pkt :
  HandleEnqueueNextFragment s = Done (s', pkt) ->
  credit_balance k s -> credit_balance k s'.
Proof.
  unfold HandleEnqueueNextFragment. intros H.
  destruct (fragments_to_send_ s) as [|[kf f] rest] eqn:Hq; [discriminate|].
  rewrite !credit_balance_cong. rewrite Hq. intros Hb.
  assert (Hgoal : forall s1,
             (s1 = with_acl_credits (wrap16 (acl_packet_credits_ s - 1)) s /\ kf = CLASSIC) \/
             (s1 = with_le_credits (wrap16 (le_acl_packet_credits_ s - 1)) s /\ kf = LE) ->
             cong16 (credits k s1 + sum_sent k (acl_queue_handlers_ s1))
                    (credits_max k s1 + queued k rest)).
  { intros s1 [[-> ->]|[-> ->]]; destruct k; fields; cbn [queued ConnectionType_eqb] in Hb;
      rewrite ?cong16_wrap.
    - replace (acl_packet_credits_ s - 1 + sum_sent CLASSIC (acl_queue_handlers_ s))
        with (acl_packet_credits_ s + sum_sent CLASSIC (acl_queue_handlers_ s) - 1) by ring.
      rewrite Hb. replace (max_acl_packet_credits_ s + (1 + queued CLASSIC rest) - 1)
        with (max_acl_packet_credits_ s + queued CLASSIC rest) by ring. reflexivity.
    - exact Hb.
    - exact Hb.
    - replace (le_acl_packet_credits_ s - 1 + sum_sent LE (acl_queue_handlers_ s))
        with (le_acl_packet_credits_ s + sum_sent LE (acl_queue_handlers_ s) - 1) by ring.
      rewrite Hb. replace (le_max_acl_packet_credits_ s + (1 + queued LE rest) - 1)
        with (le_max_acl_packet_credits_ s + queued LE rest) by ring. reflexivity. }
  destruct kf;
    [destruct (0 <? acl_packet_credits_ s) | destruct (0 <? le_acl_packet_credits_ s)];
    cbn [ASSERT bind] in H; try discriminate; cbv zeta in H.
  - specialize (Hgoal _ (or_introl (conj eq_refl eq_refl))).
    destruct rest as [|[k2 f2] rest2].
    + injection H as <- <-. destruct k; exact Hgoal.
    + match type of H with (if ?c then _ else _) = _ => destruct c end;
        injection H as <- <-; destruct k; exact Hgoal.
  - specialize (Hgoal _ (or_intror (conj eq_refl eq_refl))).
    destruct rest as [|[k2 f2] rest2].
    + injection H as <- <-. destruct k; exact Hgoal.
    + match type of H with (if ?c then _ else _) = _ => destruct c end;
        injection H as <- <-; destruct k; exact Hgoal.
Qed.

Lemma balance_IncomingAclCredits k h n s s' :
  IncomingAclCredits h n s = Done s' -> credit_balance k s -> credit_balance k s'.
Proof.
  unfold IncomingAclCredits. intros H Hb.
  destruct (map_find h (acl_queue_handlers_ s)) as [r|] eqn:Hf;
    [|now injection H as <-].
  destruct (is_disconnected_ r); [now injection H as <-|].
  cbv zeta in H.
  match type of H with
  | context [ASSERT (acl_packet_credits_ ?x <=? _) _] => set (s2 := x) in *
  end.
  assert (Hb2 : credit_balance k s2).
  { rewrite credit_balance_cong in *. unfold s2.
    destruct (connection_type_ r) eqn:Hkind, k; fields;
      rewrite (sum_sent_update _ _ _ _ _ Hf); unfold contribution;
      cbn [connection_type_ number_of_sent_packets_ set_number_of_sent_packets];
      rewrite Hkind; cbn [ConnectionType_eqb]; rewrite ?cong16_wrap.
    - rewrite <- Hb.
      replace (acl_packet_credits_ s + n +
               (sum_sent CLASSIC (acl_queue_handlers_ s) - number_of_sent_packets_ r +
                (number_of_sent_packets_ r - n)))
        with (acl_packet_credits_ s + sum_sent CLASSIC (acl_queue_handlers_ s)) by ring.
      reflexivity.
    - rewrite <- Hb. now rewrite Z.sub_0_r, Z.add_0_r.
    - rewrite <- Hb. now rewrite Z.sub_0_r, Z.add_0_r.
    - rewrite <- Hb.
      replace (le_acl_packet_credits_ s + n +
               (sum_sent LE (acl_queue_handlers_ s) - number_of_sent_packets_ r +
                (number_of_sent_packets_ r - n)))
        with (le_acl_packet_credits_ s + sum_sent LE (acl_queue_handlers_ s)) by ring.
      reflexivity. }
  destruct (ASSERT (acl_packet_credits_ s2 <=? max_acl_packet_credits_ s2) _);
    cbn [bind] in H; try discriminate.
  destruct (ASSERT (le_acl_packet_credits_ s2 <=? le_max_acl_packet_credits_ s2) _);
    cbn [bind] in H; try discriminate.
  destruct ((acl_packet_credits_ s2 =? n) || (le_acl_packet_credits_ s2 =? n)).
  - eapply balance_StartRoundRobin; eassumption.
  - now injection H as <-.
Qed.

Lemma balance_new k a b c d : credit_balance k (new a b c d).
Proof. destruct k; unfold credit_balance; simpl; now rewrite !Z.add_0_r. Qed.

End Accounting.

(** C1 (as the code has it): for each kind, credits plus the sum of the
    per-connection counts equals the maximum plus the number of fragments
    of that kind still queued, as 16-bit values.  The equation holds after
    construction and every step keeps it, except Unregister and
    SetDisconnect of a connection whose count is not zero. *)
Theorem credit_balance_kept (k : ConnectionType) (a b c d : Z) :
  credit_balance k (new a b c d) /\
  forall s o s',
    reachable (new a b c d) s ->
    enabled o s = true -> run o s = Done s' ->
    reclaim_free o s ->
    credit_balance k s -> credit_balance k s'.
Proof.
  split; [apply balance_new|].
  intros s o s' Hreach Hen Hrun Hfree Hb.
  pose proof (reachable_inv _ _ (new_inv a b c d) Hreach) as Hinv.
  destruct o; simpl in Hen, Hrun, Hfree.
  - eapply balance_Register; eassumption.
  - eapply balance_Unregister; eassumption.
  - eapply balance_SetDisconnect; eassumption.
  - destruct (map_find handle (acl_queue_handlers_ s)) as [r|] eqn:Hf; [|discriminate].
    eapply balance_BufferPacket; try eassumption.
    destruct (fragments_to_send_ s) eqn:Hq; [reflexivity|].
    destruct Hinv as [[_ Hflags _ _] _].
    rewrite Hq in Hflags.
    rewrite (all_unregistered_find _ _ _ (Hflags ltac:(discriminate)) Hf) in Hen.
    discriminate.
  - destruct (HandleEnqueueNextFragment s) as [[s1 pkt]| |] eqn:Hh; try discriminate.
    injection Hrun as <-. eapply balance_HandleEnqueueNextFragment; eassumption.
  - eapply balance_IncomingAclCredits; eassumption.
  - eapply balance_StartRoundRobin; [eassumption|].
    revert Hb. apply balance_frame; destruct k; reflexivity.
Qed.

(** ** SetDisconnect *)

(** C3: for a registered handle, SetDisconnect adds the connection's count
    to the credit pool of the connection's kind (a 16-bit addition, exact
    when the sum fits) and leaves the pool of the other kind unchanged. *)
Theorem SetDisconnect_reclaims (s : scheduler) (h : Z) (r : acl_queue_handler) :
  map_find h (acl_queue_handlers_ s) = Some r ->
  exists s',
    SetDisconnect h s = Done s' /\
    credits (connection_type_ r) s' =
      wrap16 (credits (connection_type_ r) s + number_of_sent_packets_ r) /\
    credits (other_kind (connection_type_ r)) s' =
      credits (other_kind (connection_type_ r)) s /\
    (0 <= credits (connection_type_ r) s + number_of_sent_packets_ r < 65536 ->
     credits (connection_type_ r) s' =
       credits (connection_type_ r) s + number_of_sent_packets_ r).
Proof.
  intros Hf. unfold SetDisconnect. rewrite Hf. cbv zeta.
  cbn [connection_type_ number_of_sent_packets_ set_is_disconnected].
  eexists. split; [reflexivity|].
  destruct (connection_type_ r); fields; cbn [other_kind credits]; fields.
  all: repeat split; try reflexivity.
  all: intros Hrange; unfold wrap16; now apply Z.mod_small.
Qed.

(** Scenario 4 of the spec: two classic connections, two credits, one
    payload emitted on each; SetDisconnect on the first makes the classic
    pool 1. *)
Lemma SetDisconnect_reclaims_scenario :
  exec both_credits_used_trace (new 2 27 0 27) = Done both_credits_used /\
  acl_packet_credits_ both_credits_used = 0 /\
  exists s', SetDisconnect 64 both_credits_used = Done s' /\
             acl_packet_credits_ s' = 1 /\ le_acl_packet_credits_ s' = 0.
Proof.
  split; [reflexivity|]. split; [reflexivity|].
  destruct (SetDisconnect_reclaims both_credits_used 64
              (mk_handler CLASSIC 1 false 1 false) eq_refl)
    as (s' & Hrun & _ & Hother & Hexact).
  exists s'. split; [exact Hrun|]. split.
  - apply Hexact. simpl. lia.
  - exact Hother.
Defined.

Lemma SetDisconnect_keeps_map h s s' :
  SetDisconnect h s = Done s' -> acl_queue_handlers_ s' = acl_queue_handlers_ s.
Proof.
  unfold SetDisconnect.
  destruct (map_find h (acl_queue_handlers_ s)) as [r|]; [|discriminate].
  cbv zeta. intros [= <-]. now destruct (connection_type_ _).
Qed.

Lemma SetDisconnect_unknown h s :
  map_find h (acl_queue_handlers_ s) = None -> SetDisconnect h s = UndefinedBehavior.
Proof. unfold SetDisconnect. now intros ->. Qed.

(** C2: on the state of scenario 4, SetDisconnect(0x40) leaves the map as
    it was (the disconnected flag and the zeroed count are written to a
    copy), and the following IncomingAclCredits(0x40, 1) is not discarded:
    it moves the classic pool from 1 to 2 and the count from 1 to 0. *)
Theorem credits_after_SetDisconnect_not_discarded :
  reachable (new 2 27 0 27) both_credits_used /\
  exists s1 s2,
    SetDisconnect 64 both_credits_used = Done s1 /\
    acl_queue_handlers_ s1 = acl_queue_handlers_ both_credits_used /\
    IncomingAclCredits 64 1 s1 = Done s2 /\
    acl_packet_credits_ s1 = 1 /\ acl_packet_credits_ s2 = 2 /\
    sent_of 64 s1 = 1 /\ sent_of 64 s2 = 0.
Proof.
  split.
  - apply (exec_reachable both_credits_used_trace); reflexivity.
  - eexists. eexists. repeat split; reflexivity.
Qed.

(** C9: SetDisconnect on a handle that is not in the map dereferences
    [end()]; no assertion guards it, unlike Unregister. *)
Theorem SetDisconnect_unknown_handle_unguarded :
  SetDisconnect 64 (new 2 27 0 27) = UndefinedBehavior /\
  Unregister 64 (new 2 27 0 27) =
    AssertFailed "acl_queue_handlers_.count(handle) == 1".
Proof. split; reflexivity. Qed.

(** ** Credits at dispatch *)

(** C4: one classic connection, one credit of each kind.  After the first
    payload the classic pool is empty but the LE pool is not, so the
    connection is registered again; its second payload reaches
    HandleEnqueueNextFragment, whose assertion fails. *)
Theorem credit_assertion_fires :
  admissible second_payload_trace (new 1 27 1 27) = true /\
  exec second_payload_trace (new 1 27 1 27) = AssertFailed "acl_packet_credits_ > 0".
Proof. split; reflexivity. Qed.

(** C1 as stated fails: after BufferPacket the count already includes the
    queued fragment while the credit is still in the pool. *)
Lemma spec_credit_equation_broken :
  reachable (new 2 27 0 27) one_connection /\
  spec_credit_equation CLASSIC one_connection /\
  enabled (OpBufferPacket 64 (payload 10)) one_connection = true /\
  exists s', run (OpBufferPacket 64 (payload 10)) one_connection = Done s' /\
             ~ spec_credit_equation CLASSIC s'.
Proof.
  split; [apply (exec_reachable [OpRegister CLASSIC 64 1]); reflexivity|].
  split; [reflexivity|]. split; [reflexivity|].
  eexists. split; [reflexivity|].
  unfold spec_credit_equation. vm_compute. discriminate.
Qed.

(** The equation the code keeps, on the same step. *)
Lemma credit_balance_kept_example :
  exists s', run (OpBufferPacket 64 (payload 10)) one_connection = Done s' /\
             credit_balance CLASSIC s'.
Proof.
  eexists. split; [reflexivity|].
  apply (proj2 (credit_balance_kept CLASSIC 2 27 0 27) one_connection
               (OpBufferPacket 64 (payload 10))).
  - apply (exec_reachable [OpRegister CLASSIC 64 1]); reflexivity.
  - reflexivity.
  - reflexivity.
  - exact I.
  - reflexivity.
Defined.

(** ** Dequeue registration *)

(** C5: the code registers a connection for dequeue while the pool of
    its own kind is empty.  One classic connection, one credit of each
    kind: after the first payload went out and the posted StartRoundRobin
    ran, the classic connection has its dequeue flag set with the classic
    pool at 0, because StartRoundRobin only returns early when both pools
    are 0.  The state is reached by enabled steps, and two more enabled
    steps (the connection's next payload and its dispatch) fail the
    credit assertion of HandleEnqueueNextFragment. *)
Theorem dequeue_registered_with_empty_pool :
  admissible (firstn 4 second_payload_trace) (new 1 27 1 27) = true /\
  exec (firstn 4 second_payload_trace) (new 1 27 1 27) = Done classic_pool_empty /\
  reachable (new 1 27 1 27) classic_pool_empty /\
  map_find 64 (acl_queue_handlers_ classic_pool_empty) =
    Some (mk_handler CLASSIC 1 true 1 false) /\
  fragments_to_send_ classic_pool_empty = [] /\
  credits CLASSIC classic_pool_empty = 0 /\
  ~ spec_dequeue_condition classic_pool_empty /\
  admissible [OpBufferPacket 64 (payload 10); OpHandleEnqueueNextFragment]
             classic_pool_empty = true /\
  exec [OpBufferPacket 64 (payload 10); OpHandleEnqueueNextFragment]
       classic_pool_empty = AssertFailed "acl_packet_credits_ > 0".
Proof.
  split; [reflexivity|]. split; [reflexivity|].
  split; [apply (exec_reachable (firstn 4 second_payload_trace)); reflexivity|].
  split; [reflexivity|]. split; [reflexivity|]. split; [reflexivity|].
  split; [|split; reflexivity].
  intros H.
  destruct (H 64 (mk_handler CLASSIC 1 true 1 false) eq_refl eq_refl) as [_ Hc].
  simpl in Hc. lia.
Qed.

(** X20: what the code does keep of the dequeue flags.  In every
    reachable state a connection whose dequeue flag is set sees an empty
    FIFO; and a flag that is set after StartRoundRobin was either set
    before or the call found the FIFO empty and one of the two pools not
    zero (the gate of line 117 looks at both pools together, never at
    the pool of the connection's kind). *)
Theorem dequeue_registered_only_when_idle (a b c d : Z) :
  (forall s h r,
      reachable (new a b c d) s ->
      map_find h (acl_queue_handlers_ s) = Some r ->
      dequeue_is_registered_ r = true ->
      fragments_to_send_ s = []) /\
  (forall s s' h r',
      StartRoundRobin s = Done s' ->
      map_find h (acl_queue_handlers_ s') = Some r' ->
      dequeue_is_registered_ r' = true ->
      (exists r, map_find h (acl_queue_handlers_ s) = Some r /\
                 dequeue_is_registered_ r = true) \/
      (fragments_to_send_ s = [] /\
       (acl_packet_credits_ s <> 0 \/ le_acl_packet_credits_ s <> 0))).
Proof.
  split.
  - intros s h r Hreach Hf Hflag.
    pose proof (reachable_inv _ _ (new_inv a b c d) Hreach) as [[_ Hflags _ _] _].
    destruct (fragments_to_send_ s) eqn:Hq; [reflexivity|].
    rewrite (all_unregistered_find _ _ _ (Hflags ltac:(discriminate)) Hf) in Hflag.
    discriminate.
  - intros s s' h r' H Hf Hflag. apply StartRoundRobin_cases in H.
    destruct H as [[_ ->]|[[_ ->]|(Hq & Hnz & _)]].
    + left. eauto.
    + left. eauto.
    + right. split; [assumption|]. unfold no_credits in Hnz. lia.
Qed.

Lemma dequeue_registered_only_when_idle_example :
  fragments_to_send_ classic_pool_empty = [].
Proof.
  apply (proj1 (dequeue_registered_only_when_idle 1 27 1 27) classic_pool_empty 64
               (mk_handler CLASSIC 1 true 1 false)).
  - apply (exec_reachable (firstn 4 second_payload_trace)); reflexivity.
  - reflexivity.
  - reflexivity.
Defined.

(** ** The rotation cursor *)

Section Cursor.

Lemma map_index_unregister_all h m :
  map_index h (UnregisterAllConnections m) = map_index h m.
Proof.
  induction m as [|[k r] m IH]; simpl; [reflexivity|].
  destruct (k =? h); [reflexivity | now rewrite IH].
Qed.

Lemma map_index_same_unregistered h m m' :
  UnregisterAllConnections m' = UnregisterAllConnections m ->
  map_index h m' = map_index h m.
Proof.
  intros H. rewrite <- (map_index_unregister_all h m'), H.
  apply map_index_unregister_all.
Qed.

Lemma pass_start_designated s :
  acl_queue_handlers_ s <> [] ->
  (length (acl_queue_handlers_ s) = 1%nat \/
   cursor_designates (acl_queue_handlers_ s) (starting_point_ s)) ->
  exists h,
    pass_start s = Done (it_at h) /\
    In h (map_keys (acl_queue_handlers_ s)) /\
    (cursor_designates (acl_queue_handlers_ s) (starting_point_ s) ->
     (S (map_index h (acl_queue_handlers_ s)) mod length (acl_queue_handlers_ s) =
      S (iter_pos (starting_point_ s) (acl_queue_handlers_ s))
        mod length (acl_queue_handlers_ s))%nat).
Proof.
  intros Hne Hcur. unfold pass_start.
  destruct (acl_queue_handlers_ s) as [|[k r] m] eqn:Hm; [congruence|].
  destruct (Z.eqb_spec (Z.of_nat (length ((k, r) :: m))) 1) as [E|E].
  - exists k. split; [reflexivity|]. split; [simpl; auto|].
    intros _. assert (Hlen : length ((k, r) :: m) = 1%nat) by lia.
    rewrite Hlen. now rewrite !Nat.mod_1_r.
  - destruct Hcur as [Hlen|Hd]; [lia|].
    destruct (starting_point_ s) as [| |h]; [destruct Hd| |].
    + exists k. split; [reflexivity|]. split; [simpl; auto|].
      intros _. cbn [map_begin iter_pos map_index]. rewrite Z.eqb_refl.
      set (n := length ((k, r) :: m)).
      replace (S n) with (1 + 1 * n)%nat by lia.
      now rewrite Nat.Div0.mod_add.
    + exists h. split; [reflexivity|]. split; [exact Hd|]. reflexivity.
Qed.

(** The loop never clears a dequeue flag and writes nothing else. *)
Lemma round_robin_loop_flags count :
  forall it m m' h r,
    round_robin_loop count it m = Done m' ->
    map_find h m = Some r ->
    exists r',
      map_find h m' = Some r' /\
      (dequeue_is_registered_ r = true -> dequeue_is_registered_ r' = true) /\
      set_dequeue_is_registered false r' = set_dequeue_is_registered false r.
Proof.
  induction count as [|count IH]; intros it m m' h r; cbn [round_robin_loop].
  - intros [= <-] Hf. eauto.
  - destruct it as [| |h0]; try discriminate.
    destruct (map_find h0 m) as [r0|] eqn:Hf0; [|discriminate].
    set (m1 := if dequeue_is_registered_ r0 then m
               else map_update h0 (set_dequeue_is_registered true) m).
    unfold iter_next.
    destruct (map_next_of h0 m1) as [it1|]; cbn [bind]; [|discriminate].
    intros Hl Hf.
    assert (H1 : exists r1, map_find h m1 = Some r1 /\
                   (dequeue_is_registered_ r = true -> dequeue_is_registered_ r1 = true) /\
                   set_dequeue_is_registered false r1 = set_dequeue_is_registered false r).
    { unfold m1. destruct (dequeue_is_registered_ r0); [eauto|].
      rewrite map_find_update. destruct (h0 =? h); [|eauto].
      rewrite Hf. eexists. split; [reflexivity|]. split; reflexivity. }
    destruct H1 as (r1 & Hf1 & Hmono1 & Hsame1).
    destruct (IH _ _ _ _ _ Hl Hf1) as (r' & Hf' & Hmono & Hsame).
    exists r'. split; [assumption|]. split; [auto | congruence].
Qed.

Lemma StartRoundRobin_sets_flag u t' :
  StartRoundRobin u = Done t' ->
  all_unregistered (acl_queue_handlers_ u) = true ->
  all_unregistered (acl_queue_handlers_ t') = false ->
  fragments_to_send_ u = [] /\ ~ no_credits u.
Proof.
  intros H Hu Ht. apply StartRoundRobin_cases in H.
  destruct H as [[_ ->]|[[_ ->]|(Hq & Hnz & _)]]; fields; [congruence | congruence | auto].
Qed.

(** Only a registration pass registers a dequeue callback. *)
Lemma flag_set_only_by_pass o t t' :
  run o t = Done t' ->
  all_unregistered (acl_queue_handlers_ t) = true ->
  all_unregistered (acl_queue_handlers_ t') = false ->
  exists u,
    StartRoundRobin u = Done t' /\ fragments_to_send_ u = [] /\ ~ no_credits u /\
    starting_point_ u = starting_point_ t.
Proof.
  intros H Ht Ht'. destruct o; simpl in H.
  - unfold Register in H.
    match type of H with
    | context [StartRoundRobin ?x] => set (s1 := x) in *
    end.
    assert (H1 : all_unregistered (acl_queue_handlers_ s1) = true).
    { unfold s1. fields. now apply all_unregistered_insert. }
    destruct (Nat.eqb (length (fragments_to_send_ s1)) 0).
    + exists s1. split; [assumption|].
      destruct (StartRoundRobin_sets_flag _ _ H H1 Ht'). auto.
    + injection H as <-. congruence.
  - unfold Unregister in H.
    destruct (map_find handle (acl_queue_handlers_ t)); [|discriminate].
    injection H as <-. fields.
    rewrite all_unregistered_erase in Ht' by assumption. discriminate.
  - apply SetDisconnect_keeps_map in H. congruence.
  - unfold BufferPacket in H.
    destruct (map_find handle (acl_queue_handlers_ t)); [|discriminate].
    cbv zeta in H.
    match type of H with
    | context [ASSERT ?c _] => destruct c
    end; cbn [ASSERT bind] in H; [|discriminate].
    injection H as <-. fields.
    rewrite unregister_all_update_sent in Ht'. discriminate.
  - destruct (HandleEnqueueNextFragment t) as [[s1 pkt]| |] eqn:Hh; try discriminate.
    injection H as <-. unfold HandleEnqueueNextFragment in Hh.
    destruct (fragments_to_send_ t) as [|[k f] rest]; [discriminate|].
    destruct k;
      [destruct (0 <? acl_packet_credits_ t) | destruct (0 <? le_acl_packet_credits_ t)];
      cbn [ASSERT bind] in Hh; try discriminate; cbv zeta in Hh;
      destruct rest as [|[k2 f2] rest2];
      try (match type of Hh with (if ?c then _ else _) = _ => destruct c end);
      injection Hh as <- _; fields; congruence.
  - unfold IncomingAclCredits in H.
    destruct (map_find handle (acl_queue_handlers_ t)) as [r|];
      [|injection H as <-; congruence].
    destruct (is_disconnected_ r); [injection H as <-; congruence|].
    cbv zeta in H.
    match type of H with
    | context [ASSERT (acl_packet_credits_ ?x <=? _) _] => set (s2 := x) in *
    end.
    assert (H2 : all_unregistered (acl_queue_handlers_ s2) = true).
    { unfold s2. destruct (connection_type_ r); fields;
        now apply all_unregistered_update_sent. }
    destruct (ASSERT (acl_packet_credits_ s2 <=? max_acl_packet_credits_ s2) _);
      cbn [bind] in H; try discriminate.
    destruct (ASSERT (le_acl_packet_credits_ s2 <=? le_max_acl_packet_credits_ s2) _);
      cbn [bind] in H; try discriminate.
    match type of H with (if ?c then _ else _) = _ => destruct c end.
    + exists s2. split; [assumption|].
      destruct (StartRoundRobin_sets_flag _ _ H H2 Ht'). repeat split; auto.
      unfold s2. now destruct (connection_type_ r).
    + injection H as <-. congruence.
  - eexists. split; [eassumption|].
    destruct (StartRoundRobin_sets_flag _ _ H Ht Ht'). auto.
Qed.

End Cursor.

(** C7: with a non-empty map, a registration pass of StartRoundRobin
    leaves the cursor exactly one position after the place where the pass
    started ([end()] counting as position [size()]), hence one position
    further modulo the number of connections than the cursor was; once a
    connection has delivered a payload no dequeue callback is registered
    any more, while the cursor stays where it is; and only a further
    registration pass registers one again. *)
Theorem registration_pass_advances_cursor (s : scheduler) :
  acl_queue_handlers_ s <> [] ->
  NoDup (map_keys (acl_queue_handlers_ s)) ->
  fragments_to_send_ s = [] ->
  ~ no_credits s ->
  (length (acl_queue_handlers_ s) = 1%nat \/
   cursor_designates (acl_queue_handlers_ s) (starting_point_ s)) ->
  exists start s',
    pass_start s = Done start /\
    StartRoundRobin s = Done s' /\
    length (acl_queue_handlers_ s') = length (acl_queue_handlers_ s) /\
    iter_pos (starting_point_ s') (acl_queue_handlers_ s') =
      S (iter_pos start (acl_queue_handlers_ s)) /\
    (cursor_designates (acl_queue_handlers_ s) (starting_point_ s) ->
     (iter_pos (starting_point_ s') (acl_queue_handlers_ s')
        mod length (acl_queue_handlers_ s) =
      (iter_pos (starting_point_ s) (acl_queue_handlers_ s) + 1)
        mod length (acl_queue_handlers_ s))%nat) /\
    (forall h p t t',
        BufferPacket h (Some p) t = Done t' ->
        starting_point_ t' = starting_point_ t /\
        all_unregistered (acl_queue_handlers_ t') = true /\
        forall h' p', enabled (OpBufferPacket h' p') t' = false) /\
    (forall o t t',
        run o t = Done t' ->
        all_unregistered (acl_queue_handlers_ t) = true ->
        all_unregistered (acl_queue_handlers_ t') = false ->
        exists u,
          StartRoundRobin u = Done t' /\ fragments_to_send_ u = [] /\
          ~ no_credits u /\ starting_point_ u = starting_point_ t).
Proof.
  intros Hne Hnd Hq Hnz Hcur.
  destruct (pass_start_designated s Hne Hcur) as (h & Hstart & Hin & Hmod).
  destruct (round_robin_loop_total (length (acl_queue_handlers_ s)) h _ Hin)
    as (m' & Hl).
  pose proof (round_robin_loop_frame _ _ _ _ Hl) as Hfr.
  pose proof (same_unregistered_keys _ _ Hfr) as Hkeys.
  assert (Hin' : In h (map_keys m')) by now rewrite Hkeys.
  destruct (map_next_of_designates h m' Hin') as (next & Hn & _).
  assert (Hrun : StartRoundRobin s =
                 Done (with_starting_point next (with_handlers m' s))).
  { unfold StartRoundRobin.
    assert (Hz : (acl_packet_credits_ s =? 0) && (le_acl_packet_credits_ s =? 0) = false).
    { apply andb_false_iff. unfold no_credits in Hnz.
      destruct (Z.eqb_spec (acl_packet_credits_ s) 0); [|auto].
      destruct (Z.eqb_spec (le_acl_packet_credits_ s) 0); [tauto|auto]. }
    rewrite Hz, Hq. cbn [length Nat.eqb negb]. rewrite Hstart. cbn [bind].
    rewrite Hl. cbn [bind]. unfold iter_next. rewrite Hn. reflexivity. }
  assert (Hpos : iter_pos next m' = S (map_index h (acl_queue_handlers_ s))).
  { rewrite <- (map_index_same_unregistered h _ _ Hfr).
    apply map_next_of_pos; [now rewrite Hkeys | assumption]. }
  exists (it_at h), (with_starting_point next (with_handlers m' s)).
  split; [assumption|]. split; [assumption|]. fields.
  split; [now apply same_unregistered_length|].
  split; [exact Hpos|].
  split; [intros Hd; rewrite Hpos, (Hmod Hd); f_equal; lia|].
  split; [|exact flag_set_only_by_pass].
  - intros h0 p t t' Hb. unfold BufferPacket in Hb.
    destruct (map_find h0 (acl_queue_handlers_ t)) as [r|]; [|discriminate].
    cbv zeta in Hb.
    match type of Hb with
    | context [ASSERT ?c _] => destruct c
    end; cbn [ASSERT bind] in Hb; [|discriminate].
    injection Hb as <-. fields. split; [reflexivity|].
    split; [apply unregister_all_update_sent|].
    intros h' p'. cbn [enabled]. fields.
    match goal with
    | |- match map_find h' ?m with _ => _ end = false =>
        destruct (map_find h' m) as [r'|] eqn:Hf'; [|reflexivity];
        apply (all_unregistered_find m h' r'); [|assumption]
    end.
    apply unregister_all_update_sent.
Qed.

Lemma registration_pass_advances_cursor_example :
  exists start s',
    pass_start two_connections = Done start /\
    StartRoundRobin two_connections = Done s' /\
    length (acl_queue_handlers_ s') = 2%nat /\
    iter_pos (starting_point_ s') (acl_queue_handlers_ s') = S (iter_pos start (acl_queue_handlers_ two_connections)).
Proof.
  assert (Hnd : NoDup (map_keys (acl_queue_handlers_ two_connections))).
  { simpl. repeat constructor; simpl; lia. }
  assert (Hnz : ~ no_credits two_connections).
  { unfold no_credits. simpl. lia. }
  destruct (registration_pass_advances_cursor two_connections
              ltac:(discriminate) Hnd eq_refl Hnz
              (or_intror (or_intror (or_introl eq_refl))))
    as (start & s' & H1 & H2 & H3 & H4 & _).
  exists start, s'. repeat split; assumption.
Defined.

(** ** Iteration order *)

Section KeyOrder.

Lemma map_place_sorted h r m :
  ~ In h (map_keys m) -> keys_sorted m -> keys_sorted (map_place h r m).
Proof.
  unfold keys_sorted.
  induction m as [|[k0 r0] m IH]; simpl; intros Hn Hs.
  - repeat constructor.
  - apply StronglySorted_inv in Hs. destruct Hs as [Hs Hall].
    destruct (Z.ltb_spec h k0); simpl.
    + constructor; [constructor; assumption|].
      constructor; [assumption|].
      rewrite Forall_forall in *. intros x Hx. specialize (Hall x Hx). lia.
    + constructor; [apply IH; tauto|].
      rewrite Forall_forall in *. intros x Hx.
      apply (map_place_keys h r m x) in Hx. destruct Hx as [->|Hx]; [|auto].
      assert (k0 <> h) by tauto. lia.
Qed.

Lemma map_insert_sorted h r m : keys_sorted m -> keys_sorted (map_insert h r m).
Proof.
  unfold map_insert. destruct (map_find h m) eqn:E; [auto|].
  intros. apply map_place_sorted; [now apply map_find_None | assumption].
Qed.

Lemma map_erase_sorted h m : keys_sorted m -> keys_sorted (map_erase h m).
Proof.
  unfold keys_sorted.
  induction m as [|[k0 r0] m IH]; simpl; intros Hs; [constructor|].
  apply StronglySorted_inv in Hs. destruct Hs as [Hs Hall].
  destruct (k0 =? h); simpl; [assumption|].
  constructor; [auto|].
  rewrite Forall_forall in *. intros x Hx. apply Hall.
  now apply map_erase_keys in Hx.
Qed.

Lemma StartRoundRobin_keys s s' :
  StartRoundRobin s = Done s' ->
  map_keys (acl_queue_handlers_ s') = map_keys (acl_queue_handlers_ s).
Proof.
  intros H. apply StartRoundRobin_frame in H.
  now apply same_unregistered_keys.
Qed.

Lemma run_keys_sorted o s s' :
  run o s = Done s' ->
  keys_sorted (acl_queue_handlers_ s) -> keys_sorted (acl_queue_handlers_ s').
Proof.
  unfold keys_sorted. intros H Hs. destruct o; simpl in H.
  - unfold Register in H.
    match type of H with
    | context [StartRoundRobin ?x] => set (s1 := x) in *
    end.
    assert (H1 : StronglySorted Z.lt (map_keys (acl_queue_handlers_ s1))).
    { unfold s1. fields. now apply map_insert_sorted. }
    destruct (Nat.eqb (length (fragments_to_send_ s1)) 0).
    + now rewrite (StartRoundRobin_keys _ _ H).
    + now injection H as <-.
  - unfold Unregister in H.
    destruct (map_find handle (acl_queue_handlers_ s)); [|discriminate].
    injection H as <-. fields. now apply map_erase_sorted.
  - now rewrite (SetDisconnect_keeps_map _ _ _ H).
  - unfold BufferPacket in H.
    destruct (map_find handle (acl_queue_handlers_ s)); [|discriminate].
    cbv zeta in H.
    match type of H with
    | context [ASSERT ?c _] => destruct c
    end; cbn [ASSERT bind] in H; [|discriminate].
    injection H as <-. fields. now rewrite map_update_keys, unregister_all_keys.
  - destruct (HandleEnqueueNextFragment s) as [[s1 pkt]| |] eqn:Hh; try discriminate.
    injection H as <-. unfold HandleEnqueueNextFragment in Hh.
    destruct (fragments_to_send_ s) as [|[k f] rest]; [discriminate|].
    destruct k;
      [destruct (0 <? acl_packet_credits_ s) | destruct (0 <? le_acl_packet_credits_ s)];
      cbn [ASSERT bind] in Hh; try discriminate; cbv zeta in Hh;
      destruct rest as [|[k2 f2] rest2];
      try (match type of Hh with (if ?c then _ else _) = _ => destruct c end);
      injection Hh as <- _; fields; assumption.
  - unfold IncomingAclCredits in H.
    destruct (map_find handle (acl_queue_handlers_ s)) as [r|];
      [|now injection H as <-].
    destruct (is_disconnected_ r); [now injection H as <-|].
    cbv zeta in H.
    match type of H with
    | context [ASSERT (acl_packet_credits_ ?x <=? _) _] => set (s2 := x) in *
    end.
    assert (H2 : map_keys (acl_queue_handlers_ s2) = map_keys (acl_queue_handlers_ s)).
    { unfold s2. destruct (connection_type_ r); fields; apply map_update_keys. }
    destruct (ASSERT (acl_packet_credits_ s2 <=? max_acl_packet_credits_ s2) _);
      cbn [bind] in H; try discriminate.
    destruct (ASSERT (le_acl_packet_credits_ s2 <=? le_max_acl_packet_credits_ s2) _);
      cbn [bind] in H; try discriminate.
    match type of H with (if ?c then _ else _) = _ => destruct c end.
    + now rewrite (StartRoundRobin_keys _ _ H), H2.
    + injection H as <-. now rewrite H2.
  - now rewrite (StartRoundRobin_keys _ _ H).
Qed.

(** In every reachable state the map is in increasing handle order. *)
Theorem reachable_keys_sorted a b c d s :
  reachable (new a b c d) s -> keys_sorted (acl_queue_handlers_ s).
Proof.
  intros Hr.
  assert (H0 : keys_sorted (acl_queue_handlers_ (new a b c d))) by constructor.
  revert H0. induction Hr as [|s o s1 s2 _ Hrun _ IH]; [auto|].
  intros H0. apply IH. eapply run_keys_sorted; eauto.
Qed.

End KeyOrder.

(** ** Registering a handle twice *)

(** C10: when the handle is already in the map, Register returns normally
    and [insert] leaves the map as it is.  With fragments queued nothing
    changes at all; with an empty FIFO the call is a StartRoundRobin, after
    which the record for the handle has the same kind, queue end, count and
    disconnected flag, and its dequeue flag is either unchanged or set. *)
Theorem Register_existing_handle (a b c d : Z) (s : scheduler)
        (kind : ConnectionType) (h q : Z) (r : acl_queue_handler) :
  reachable (new a b c d) s ->
  map_find h (acl_queue_handlers_ s) = Some r ->
  map_insert h (mk_handler kind q false 0 false) (acl_queue_handlers_ s) =
    acl_queue_handlers_ s /\
  exists s',
    Register kind h q s = Done s' /\
    (fragments_to_send_ s <> [] -> s' = s) /\
    (fragments_to_send_ s = [] -> StartRoundRobin s = Done s') /\
    exists r',
      map_find h (acl_queue_handlers_ s') = Some r' /\
      connection_type_ r' = connection_type_ r /\
      queue_down_end_ r' = queue_down_end_ r /\
      number_of_sent_packets_ r' = number_of_sent_packets_ r /\
      is_disconnected_ r' = is_disconnected_ r /\
      (dequeue_is_registered_ r' = dequeue_is_registered_ r \/
       (dequeue_is_registered_ r' = true /\ fragments_to_send_ s = [])).
Proof.
  intros Hreach Hf.
  pose proof (reachable_inv _ _ (new_inv a b c d) Hreach) as [Hpre _].
  pose proof (map_insert_present h (mk_handler kind q false 0 false) r _ Hf) as Hins.
  split; [exact Hins|].
  unfold Register. cbv zeta. rewrite Hins, with_handlers_same.
  destruct (fragments_to_send_ s) as [|f rest] eqn:Hq; cbn [length Nat.eqb].
  - assert (Hne : acl_queue_handlers_ s <> []).
    { intros E. rewrite E in Hf. discriminate. }
    destruct (StartRoundRobin_total s Hpre Hne) as (s' & Hrun).
    exists s'. split; [assumption|]. split; [congruence|]. split; [auto|].
    pose proof Hrun as Hcase. apply StartRoundRobin_cases in Hcase.
    destruct Hcase as [[_ ->]|[[Hq' _]|(_ & _ & h0 & m' & next & _ & Hl & _ & ->)]].
    + exists r. repeat split; auto.
    + congruence.
    + destruct (round_robin_loop_flags _ _ _ _ h r Hl Hf) as (r' & Hf' & _ & Hsame).
      exists r'. fields. split; [assumption|].
      destruct r as [k1 q1 f1 n1 d1], r' as [k2 q2 f2 n2 d2].
      unfold set_dequeue_is_registered in Hsame. simpl in Hsame.
      injection Hsame as -> -> -> ->. simpl.
      repeat split.
      destruct f2; [|destruct f1; [|auto]].
      * right. auto.
      * exfalso.
        destruct (round_robin_loop_flags _ _ _ _ h _ Hl Hf) as (r2 & Hf2 & Hmono & _).
        rewrite Hf' in Hf2. injection Hf2 as <-. simpl in Hmono.
        specialize (Hmono eq_refl). discriminate.
  - exists s. split; [reflexivity|]. split; [reflexivity|]. split; [discriminate|].
    exists r. repeat split; auto.
Qed.

Lemma Register_existing_handle_example :
  exists s',
    Register LE 64 2 one_connection = Done s' /\
    map_find 64 (acl_queue_handlers_ s') = Some (mk_handler CLASSIC 1 true 0 false).
Proof.
  assert (Hr : reachable (new 2 27 0 27) one_connection).
  { apply (exec_reachable [OpRegister CLASSIC 64 1]); reflexivity. }
  destruct (Register_existing_handle 2 27 0 27 one_connection LE 64 2
              (mk_handler CLASSIC 1 true 0 false) Hr eq_refl)
    as (_ & s' & Hrun & _ & Hsrr & _).
  exists s'. split; [exact Hrun|].
  specialize (Hsrr eq_refl). vm_compute in Hsrr. injection Hsrr as <-. reflexivity.
Defined.

(** C6 on a 60-byte payload with MTU 27: three fragments. *)
Lemma BufferPacket_fragments_example :
  exists s' frs,
    BufferPacket 64 (Some (payload 60)) one_connection = Done s' /\
    fragments_to_send_ s' = map (pair CLASSIC) frs /\
    Z.of_nat (length frs) = 3 /\
    concat (map builder_payload frs) = payload 60.
Proof.
  destruct (BufferPacket_fragments one_connection 64
              (mk_handler CLASSIC 1 true 0 false) (payload 60) eq_refl)
    as (s' & frs & Hrun & Hq & Hlen & Hcat & _).
  - simpl. lia.
  - exists s', frs. repeat split; assumption.
Defined.

(** * Further properties of the scheduler *)

(** ** Registering and unregistering *)

Section RegisterUnregister.

Lemma map_find_erase_NoDup h m k :
  NoDup (map_keys m) ->
  map_find k (map_erase h m) = if h =? k then None else map_find k m.
Proof.
  induction m as [|[k0 r0] m IH]; simpl; intros Hd.
  - now destruct (h =? k).
  - inversion Hd as [|? ? Hnotin Hd']; subst.
    destruct (Z.eqb_spec k0 h) as [->|Hne]; simpl.
    + destruct (Z.eqb_spec h k) as [->|Hk]; [|reflexivity].
      destruct (map_find k m) eqn:E; [|reflexivity].
      apply map_find_In in E. contradiction.
    + rewrite (IH Hd').
      destruct (Z.eqb_spec k0 k), (Z.eqb_spec h k); try reflexivity; congruence.
Qed.

Lemma map_erase_place h r m :
  ~ In h (map_keys m) -> map_erase h (map_place h r m) = m.
Proof.
  induction m as [|[k0 r0] m IH]; simpl; intros Hn.
  - now rewrite Z.eqb_refl.
  - destruct (h <? k0); simpl.
    + now rewrite Z.eqb_refl.
    + destruct (Z.eqb_spec k0 h); [tauto|]. rewrite IH; tauto.
Qed.

Lemma unregister_all_erase h m :
  UnregisterAllConnections (map_erase h m) = map_erase h (UnregisterAllConnections m).
Proof.
  induction m as [|[k0 r0] m IH]; simpl; [reflexivity|].
  destruct (k0 =? h); simpl; [reflexivity | now rewrite IH].
Qed.

Lemma unregister_all_place h r m :
  UnregisterAllConnections (map_place h r m) =
  map_place h (set_dequeue_is_registered false r) (UnregisterAllConnections m).
Proof.
  induction m as [|[k0 r0] m IH]; simpl; [reflexivity|].
  destruct (h <? k0); simpl; [reflexivity | now rewrite IH].
Qed.

Lemma map_place_length h r m : length (map_place h r m) = S (length m).
Proof.
  induction m as [|[k0 r0] m IH]; simpl; [reflexivity|].
  destruct (h <? k0); simpl; [reflexivity | now rewrite IH].
Qed.

(** What [Register] hands to [StartRoundRobin] satisfies its precondition. *)
Lemma Register_insert_pre k h q s :
  sched_inv s ->
  sched_pre (with_handlers
               (map_insert h (mk_handler k q false 0 false) (acl_queue_handlers_ s)) s).
Proof.
  intros [[Hk Hf He Hc] Hi]. constructor; fields.
  - now apply map_insert_NoDup.
  - intros Hne. apply all_unregistered_insert; [reflexivity | auto].
  - exact He.
  - destruct (starting_point_ s) eqn:Hsp.
    + destruct Hc as [Hu Hlen]. split.
      * destruct Hu. constructor; fields; auto.
        -- apply all_unregistered_insert; [reflexivity | assumption].
        -- intros h1 r1 Hfind. apply map_find_insert_cases in Hfind.
           destruct Hfind as [->|Hfind]; [reflexivity | eauto].
      * destruct (Hi eq_refl) as [Hm|Hz]; [left | right; exact Hz].
        rewrite Hm. unfold map_insert. simpl. lia.
    + exact I.
    + simpl. apply map_insert_keys. auto.
Qed.

Lemma map_insert_nonempty h r m : map_insert h r m <> [].
Proof.
  unfold map_insert. destruct (map_find h m) eqn:E.
  - intros ->. discriminate.
  - destruct m as [|[k0 r0] m]; simpl; [discriminate|].
    destruct (h <? k0); discriminate.
Qed.

Lemma Register_total k h q s :
  sched_inv s -> exists s', Register k h q s = Done s'.
Proof.
  intros Hinv. unfold Register. cbv zeta.
  match goal with
  | |- context [StartRoundRobin ?x] => set (s1 := x)
  end.
  destruct (Nat.eqb (length (fragments_to_send_ s1)) 0); [|eauto].
  apply StartRoundRobin_total.
  - now apply Register_insert_pre.
  - unfold s1. fields. apply map_insert_nonempty.
Qed.

End RegisterUnregister.

(** X8: Unregister of a handle that is not registered is fatal.  For a
    registered handle it returns; afterwards the handle is unknown, the
    records of all other handles are as before, the cursor is at
    [begin()], and both credit pools and the fragment FIFO are untouched:
    the credits the connection still holds are not given back. *)
Theorem Unregister_effect (a b c d : Z) (s : scheduler) (h : Z) :
  reachable (new a b c d) s ->
  (map_find h (acl_queue_handlers_ s) = None ->
   Unregister h s = AssertFailed "acl_queue_handlers_.count(handle) == 1") /\
  (map_find h (acl_queue_handlers_ s) <> None ->
   exists s',
     Unregister h s = Done s' /\
     map_find h (acl_queue_handlers_ s') = None /\
     (forall h2, h2 <> h ->
                 map_find h2 (acl_queue_handlers_ s') = map_find h2 (acl_queue_handlers_ s)) /\
     starting_point_ s' = map_begin (acl_queue_handlers_ s') /\
     acl_packet_credits_ s' = acl_packet_credits_ s /\
     le_acl_packet_credits_ s' = le_acl_packet_credits_ s /\
     fragments_to_send_ s' = fragments_to_send_ s /\
     enqueue_registered_ s' = enqueue_registered_ s).
Proof.
  intros Hreach.
  pose proof (reachable_inv _ _ (new_inv a b c d) Hreach) as [[Hk _ _ _] _].
  unfold Unregister. split.
  - now intros ->.
  - intros Hf. destruct (map_find h (acl_queue_handlers_ s)); [|congruence].
    eexists. split; [reflexivity|]. fields.
    split; [rewrite map_find_erase_NoDup by assumption; now rewrite Z.eqb_refl|].
    split; [|repeat split].
    intros h2 Hne. rewrite map_find_erase_NoDup by assumption.
    destruct (Z.eqb_spec h h2); [congruence | reflexivity].
Qed.

Lemma Unregister_effect_example :
  exists s',
    Unregister 64 both_credits_used = Done s' /\
    map_find 64 (acl_queue_handlers_ s') = None /\
    acl_packet_credits_ s' = 0.
Proof.
  assert (Hr : reachable (new 2 27 0 27) both_credits_used).
  { apply (exec_reachable both_credits_used_trace); reflexivity. }
  destruct (proj2 (Unregister_effect 2 27 0 27 both_credits_used 64 Hr))
    as (s' & Hrun & Hgone & _ & _ & Hacl & _).
  - simpl. discriminate.
  - exists s'. split; [exact Hrun|]. split; [exact Hgone | exact Hacl].
Defined.

(** X9: Register of a handle that is not yet registered returns in every
    reachable state.  Afterwards the handle maps to a record with the
    given kind and queue end, count 0, not disconnected; every other
    record is as before except possibly for its dequeue flag; there is one
    more connection; credit pools and FIFO are untouched. *)
Theorem Register_fresh_handle (a b c d : Z) (s : scheduler)
        (kind : ConnectionType) (h q : Z) :
  reachable (new a b c d) s ->
  map_find h (acl_queue_handlers_ s) = None ->
  exists s',
    Register kind h q s = Done s' /\
    (exists r', map_find h (acl_queue_handlers_ s') = Some r' /\
                connection_type_ r' = kind /\ queue_down_end_ r' = q /\
                number_of_sent_packets_ r' = 0 /\ is_disconnected_ r' = false) /\
    (forall h2, h2 <> h ->
       option_map (set_dequeue_is_registered false)
                  (map_find h2 (acl_queue_handlers_ s')) =
       option_map (set_dequeue_is_registered false)
                  (map_find h2 (acl_queue_handlers_ s))) /\
    length (acl_queue_handlers_ s') = S (length (acl_queue_handlers_ s)) /\
    acl_packet_credits_ s' = acl_packet_credits_ s /\
    le_acl_packet_credits_ s' = le_acl_packet_credits_ s /\
    fragments_to_send_ s' = fragments_to_send_ s.
Proof.
  intros Hreach Hfresh.
  pose proof (reachable_inv _ _ (new_inv a b c d) Hreach) as Hinv.
  destruct (Register_total kind h q s Hinv) as (s' & Hrun).
  exists s'. split; [assumption|].
  unfold Register in Hrun. cbv zeta in Hrun.
  match type of Hrun with
  | context [StartRoundRobin ?x] => set (s1 := x) in *
  end.
  assert (Hm1 : acl_queue_handlers_ s1 =
                map_place h (mk_handler kind q false 0 false) (acl_queue_handlers_ s)).
  { unfold s1, map_insert. fields. now rewrite Hfresh. }
  assert (Hfr : UnregisterAllConnections (acl_queue_handlers_ s') =
                UnregisterAllConnections (acl_queue_handlers_ s1) /\
                acl_packet_credits_ s' = acl_packet_credits_ s /\
                le_acl_packet_credits_ s' = le_acl_packet_credits_ s /\
                fragments_to_send_ s' = fragments_to_send_ s).
  { destruct (Nat.eqb (length (fragments_to_send_ s1)) 0).
    - apply StartRoundRobin_frame in Hrun.
      destruct Hrun as (Hq & Ha & Hl & _ & _ & _ & Hu). auto.
    - injection Hrun as <-. auto. }
  destruct Hfr as (Hu & Ha & Hl & Hq).
  assert (Hfind : forall h2,
             option_map (set_dequeue_is_registered false)
                        (map_find h2 (acl_queue_handlers_ s')) =
             option_map (set_dequeue_is_registered false)
                        (map_find h2 (acl_queue_handlers_ s1))).
  { intros h2. rewrite <- !unregister_all_find. now rewrite Hu. }
  split.
  - specialize (Hfind h). rewrite Hm1, map_place_find, Z.eqb_refl in Hfind by assumption.
    destruct (map_find h (acl_queue_handlers_ s')) as [r'|]; [|discriminate].
    exists r'. split; [reflexivity|].
    destruct r' as [k1 q1 f1 n1 d1]. simpl in Hfind.
    unfold set_dequeue_is_registered in Hfind. simpl in Hfind.
    injection Hfind as -> -> -> ->. simpl. auto.
  - split.
    + intros h2 Hne. rewrite Hfind, Hm1, map_place_find by assumption.
      destruct (Z.eqb_spec h h2); [congruence | reflexivity].
    + split; [|auto].
      rewrite (same_unregistered_length _ _ Hu), Hm1. apply map_place_length.
Qed.

Lemma Register_fresh_handle_example :
  exists s',
    Register LE 65 2 one_connection = Done s' /\
    length (acl_queue_handlers_ s') = 2%nat /\
    acl_packet_credits_ s' = 2.
Proof.
  assert (Hr : reachable (new 2 27 0 27) one_connection).
  { apply (exec_reachable [OpRegister CLASSIC 64 1]); reflexivity. }
  destruct (Register_fresh_handle 2 27 0 27 one_connection LE 65 2 Hr eq_refl)
    as (s' & Hrun & _ & _ & Hlen & Hacl & _).
  exists s'. split; [exact Hrun|]. split; [exact Hlen | exact Hacl].
Defined.

(** X10: Register of a handle that is not registered followed by
    Unregister of that handle returns, and leaves every record as it was
    up to the dequeue flags (the set of handles, kinds, queue ends, counts
    and disconnected flags), the credit pools and the FIFO as they were. *)
Theorem Register_then_Unregister (a b c d : Z) (s : scheduler)
        (kind : ConnectionType) (h q : Z) :
  reachable (new a b c d) s ->
  map_find h (acl_queue_handlers_ s) = None ->
  exists s1 s2,
    Register kind h q s = Done s1 /\
    Unregister h s1 = Done s2 /\
    UnregisterAllConnections (acl_queue_handlers_ s2) =
      UnregisterAllConnections (acl_queue_handlers_ s) /\
    acl_packet_credits_ s2 = acl_packet_credits_ s /\
    le_acl_packet_credits_ s2 = le_acl_packet_credits_ s /\
    fragments_to_send_ s2 = fragments_to_send_ s.
Proof.
  intros Hreach Hfresh.
  pose proof (reachable_inv _ _ (new_inv a b c d) Hreach) as Hinv.
  destruct (Register_total kind h q s Hinv) as (s1 & Hrun).
  exists s1. pose proof Hrun as Hrun'.
  unfold Register in Hrun. cbv zeta in Hrun.
  match type of Hrun with
  | context [StartRoundRobin ?x] => set (s0 := x) in *
  end.
  assert (Hm0 : acl_queue_handlers_ s0 =
                map_place h (mk_handler kind q false 0 false) (acl_queue_handlers_ s)).
  { unfold s0, map_insert. fields. now rewrite Hfresh. }
  assert (Hfr : UnregisterAllConnections (acl_queue_handlers_ s1) =
                UnregisterAllConnections (acl_queue_handlers_ s0) /\
                acl_packet_credits_ s1 = acl_packet_credits_ s /\
                le_acl_packet_credits_ s1 = le_acl_packet_credits_ s /\
                fragments_to_send_ s1 = fragments_to_send_ s).
  { destruct (Nat.eqb (length (fragments_to_send_ s0)) 0).
    - apply StartRoundRobin_frame in Hrun.
      destruct Hrun as (Hq & Ha & Hl & _ & _ & _ & Hu). auto.
    - injection Hrun as <-. auto. }
  destruct Hfr as (Hu & Ha & Hl & Hq).
  assert (Hfound : map_find h (acl_queue_handlers_ s1) <> None).
  { intros E.
    assert (Hx : map_find h (UnregisterAllConnections (acl_queue_handlers_ s1)) = None)
      by now rewrite unregister_all_find, E.
    rewrite Hu, unregister_all_find, Hm0, map_place_find, Z.eqb_refl in Hx
      by assumption.
    discriminate. }
  unfold Unregister.
  destruct (map_find h (acl_queue_handlers_ s1)); [|congruence].
  eexists. split; [assumption|]. split; [reflexivity|]. fields.
  split; [|auto].
  rewrite unregister_all_erase, Hu, Hm0, unregister_all_place.
  apply map_erase_place. rewrite unregister_all_keys. now apply map_find_None.
Qed.

Lemma Register_then_Unregister_example :
  exists s1 s2,
    Register LE 65 2 one_connection = Done s1 /\
    Unregister 65 s1 = Done s2 /\
    UnregisterAllConnections (acl_queue_handlers_ s2) =
      UnregisterAllConnections (acl_queue_handlers_ one_connection).
Proof.
  assert (Hr : reachable (new 2 27 0 27) one_connection).
  { apply (exec_reachable [OpRegister CLASSIC 64 1]); reflexivity. }
  destruct (Register_then_Unregister 2 27 0 27 one_connection LE 65 2 Hr eq_refl)
    as (s1 & s2 & H1 & H2 & H3 & _).
  exists s1, s2. repeat split; assumption.
Defined.

(** ** Credit return *)

Section CreditReturn.

Lemma sent_of_same_unregistered h s s' :
  UnregisterAllConnections (acl_queue_handlers_ s') =
  UnregisterAllConnections (acl_queue_handlers_ s) ->
  sent_of h s' = sent_of h s.
Proof.
  intros Hu. unfold sent_of.
  assert (H : option_map (set_dequeue_is_registered false)
                         (map_find h (acl_queue_handlers_ s')) =
              option_map (set_dequeue_is_registered false)
                         (map_find h (acl_queue_handlers_ s))).
  { rewrite <- !unregister_all_find. now rewrite Hu. }
  destruct (map_find h (acl_queue_handlers_ s')) as [r'|],
           (map_find h (acl_queue_handlers_ s)) as [r|]; simpl in H;
    try discriminate; [|reflexivity].
  injection H as _ _ Hn _. exact Hn.
Qed.

Lemma wrap16_range z : is_uint16 (wrap16 z) = true.
Proof.
  unfold is_uint16, wrap16.
  pose proof (Z.mod_pos_bound z 65536 ltac:(lia)) as [H1 H2].
  apply andb_true_iff. split; [now apply Z.leb_le | now apply Z.ltb_lt].
Qed.

End CreditReturn.

(** X11: IncomingAclCredits for an unknown handle changes nothing.  For a
    registered handle whose record is not marked disconnected, a normal
    return means: the count of that handle went down by [n] and the pool
    of its kind up by [n] (16-bit arithmetic), both pools are at most
    their maxima, the other pool, the counts of all other handles and the
    FIFO are unchanged.  When the pool of its kind would exceed its
    maximum the call is fatal. *)
Theorem IncomingAclCredits_effect (s : scheduler) (h n : Z) :
  (map_find h (acl_queue_handlers_ s) = None -> IncomingAclCredits h n s = Done s) /\
  (forall r s',
      map_find h (acl_queue_handlers_ s) = Some r ->
      is_disconnected_ r = false ->
      IncomingAclCredits h n s = Done s' ->
      credits (connection_type_ r) s' = wrap16 (credits (connection_type_ r) s + n) /\
      credits (other_kind (connection_type_ r)) s' =
        credits (other_kind (connection_type_ r)) s /\
      acl_packet_credits_ s' <= max_acl_packet_credits_ s' /\
      le_acl_packet_credits_ s' <= le_max_acl_packet_credits_ s' /\
      sent_of h s' = wrap16 (number_of_sent_packets_ r - n) /\
      (forall h2, h2 <> h -> sent_of h2 s' = sent_of h2 s) /\
      fragments_to_send_ s' = fragments_to_send_ s) /\
  (forall r,
      map_find h (acl_queue_handlers_ s) = Some r ->
      is_disconnected_ r = false ->
      credits_max (connection_type_ r) s < wrap16 (credits (connection_type_ r) s + n) ->
      exists text, IncomingAclCredits h n s = AssertFailed text).
Proof.
  unfold IncomingAclCredits. split; [now intros ->|]. split.
  - intros r s' Hf Hd H. rewrite Hf, Hd in H. cbv zeta in H.
    match type of H with
    | context [ASSERT (acl_packet_credits_ ?x <=? _) _] => set (s2 := x) in *
    end.
    destruct (acl_packet_credits_ s2 <=? max_acl_packet_credits_ s2) eqn:Ha;
      cbn [ASSERT bind] in H; [|discriminate].
    destruct (le_acl_packet_credits_ s2 <=? le_max_acl_packet_credits_ s2) eqn:Hl;
      cbn [ASSERT bind] in H; [|discriminate].
    apply Z.leb_le in Ha, Hl.
    assert (Hfr : fragments_to_send_ s' = fragments_to_send_ s2 /\
                  acl_packet_credits_ s' = acl_packet_credits_ s2 /\
                  le_acl_packet_credits_ s' = le_acl_packet_credits_ s2 /\
                  max_acl_packet_credits_ s' = max_acl_packet_credits_ s2 /\
                  le_max_acl_packet_credits_ s' = le_max_acl_packet_credits_ s2 /\
                  UnregisterAllConnections (acl_queue_handlers_ s') =
                  UnregisterAllConnections (acl_queue_handlers_ s2)).
    { match type of H with (if ?c then _ else _) = _ => destruct c end.
      - apply StartRoundRobin_frame in H. tauto.
      - injection H as <-. tauto. }
    destruct Hfr as (Hq & Hca & Hcl & Hma & Hml & Hu).
    assert (Hsent : forall h2, sent_of h2 s' = sent_of h2 s2)
      by (intros h2; now apply sent_of_same_unregistered).
    assert (Hs2 : forall h2,
               sent_of h2 s2 =
               if h =? h2 then wrap16 (number_of_sent_packets_ r - n) else sent_of h2 s).
    { intros h2. unfold sent_of, s2.
      destruct (connection_type_ r); fields; rewrite map_find_update;
        destruct (Z.eqb_spec h h2) as [<-|Hne]; try reflexivity;
        rewrite Hf; reflexivity. }
    split; [|split; [|split; [|split; [|split; [|split]]]]].
    + unfold s2 in *. destruct (connection_type_ r); fields; cbn [other_kind] in *; assumption.
    + unfold s2 in *. destruct (connection_type_ r); cbn [other_kind] in *; fields; assumption.
    + rewrite Hca, Hma. exact Ha.
    + rewrite Hcl, Hml. exact Hl.
    + rewrite Hsent, Hs2, Z.eqb_refl. reflexivity.
    + intros h2 Hne. rewrite Hsent, Hs2.
      destruct (Z.eqb_spec h h2); [congruence | reflexivity].
    + rewrite Hq. unfold s2. now destruct (connection_type_ r).
  - intros r Hf Hd Hover. rewrite Hf, Hd. cbv zeta.
    destruct (connection_type_ r); fields.
    + apply Z.leb_gt in Hover. rewrite Hover. cbn [ASSERT bind]. eauto.
    + match goal with
      | |- context [ASSERT ?c ?t] => destruct c; cbn [ASSERT bind]; [|eauto]
      end.
      apply Z.leb_gt in Hover. rewrite Hover. cbn [ASSERT bind]. eauto.
Qed.

Lemma IncomingAclCredits_effect_example :
  (exists s', IncomingAclCredits 65 1 both_credits_used = Done s' /\
              acl_packet_credits_ s' = 1 /\ sent_of 65 s' = 0) /\
  (exists text, IncomingAclCredits 64 3 both_credits_used = AssertFailed text).
Proof.
  destruct (IncomingAclCredits_effect both_credits_used 65 1) as (_ & Hok & _).
  destruct (IncomingAclCredits_effect both_credits_used 64 3) as (_ & _ & Hover).
  split.
  - eexists. split; [reflexivity|].
    destruct (Hok (mk_handler CLASSIC 2 false 1 false) _ eq_refl eq_refl eq_refl)
      as (H1 & _ & _ & _ & H2 & _).
    split; [exact H1 | exact H2].
  - apply (Hover (mk_handler CLASSIC 1 false 1 false) eq_refl eq_refl).
    vm_compute. reflexivity.
Defined.

(** X12: credits returned to an empty pool resume a stalled burst of
    the same kind.  If the pool of the connection's kind is 0, the other
    pool is within its maximum, the front fragment of the FIFO is of the
    connection's kind, and [n] credits with [0 < n <= max] and
    [n < 65536] come back for a registered connection not marked
    disconnected, then IncomingAclCredits returns with the enqueue
    callback registered, the pool at [n], the other pool and the FIFO
    unchanged, and the next HandleEnqueueNextFragment returns the front
    fragment, leaving the rest of the FIFO and [n - 1] credits. *)
Theorem credits_resume_dispatch (s : scheduler) (h n : Z) (r : acl_queue_handler)
        (f : AclPacketBuilder) (rest : list (ConnectionType * AclPacketBuilder)) :
  map_find h (acl_queue_handlers_ s) = Some r ->
  is_disconnected_ r = false ->
  credits (connection_type_ r) s = 0 ->
  0 < n <= credits_max (connection_type_ r) s ->
  n < 65536 ->
  credits (other_kind (connection_type_ r)) s <=
    credits_max (other_kind (connection_type_ r)) s ->
  fragments_to_send_ s = (connection_type_ r, f) :: rest ->
  exists s',
    IncomingAclCredits h n s = Done s' /\
    enqueue_registered_ s' = true /\
    credits (connection_type_ r) s' = n /\
    credits (other_kind (connection_type_ r)) s' =
      credits (other_kind (connection_type_ r)) s /\
    fragments_to_send_ s' = fragments_to_send_ s /\
    exists s'',
      HandleEnqueueNextFragment s' = Done (s'', f) /\
      fragments_to_send_ s'' = rest /\
      credits (connection_type_ r) s'' = n - 1.
Proof.
  intros Hf Hd Hzero Hn Hn16 Hother Hq.
  unfold IncomingAclCredits. rewrite Hf, Hd. cbv zeta.
  assert (Hw : wrap16 (0 + n) = n) by (unfold wrap16; apply Z.mod_small; lia).
  assert (Hw1 : wrap16 (n - 1) = n - 1) by (unfold wrap16; apply Z.mod_small; lia).
  assert (Hpos : (0 <? n) = true) by (apply Z.ltb_lt; lia).
  assert (Hsrr : forall s2,
             fragments_to_send_ s2 = fragments_to_send_ s ->
             credits (connection_type_ r) s2 = n ->
             StartRoundRobin s2 = Done (SendNextFragment s2)).
  { intros s2 Hq2 Hc2. unfold StartRoundRobin.
    assert (Hz : (acl_packet_credits_ s2 =? 0) && (le_acl_packet_credits_ s2 =? 0) = false).
    { apply andb_false_iff. destruct (connection_type_ r); simpl in Hc2;
        [left | right]; apply Z.eqb_neq; lia. }
    rewrite Hz, Hq2, Hq. reflexivity. }
  destruct (connection_type_ r); simpl in Hzero, Hn, Hother; fields;
    rewrite Hzero, Hw.
  - assert (Ha : (n <=? max_acl_packet_credits_ s) = true) by (apply Z.leb_le; lia).
    assert (Hl : (le_acl_packet_credits_ s <=? le_max_acl_packet_credits_ s) = true)
      by now apply Z.leb_le.
    rewrite Ha, Hl. cbn [ASSERT bind]. rewrite Z.eqb_refl. cbn [orb].
    rewrite Hsrr by reflexivity. eexists. split; [reflexivity|]. fields.
    repeat (split; [reflexivity|]).
    unfold HandleEnqueueNextFragment. fields. rewrite Hq. fields.
    rewrite Hpos, Hw1. cbn [ASSERT bind].
    destruct rest as [|[k2 f2] rest2].
    + eexists. split; [reflexivity|]. fields. auto.
    + match goal with |- context [if ?c then _ else _] => destruct c end;
        (eexists; split; [reflexivity|]; fields; auto).
  - assert (Ha : (acl_packet_credits_ s <=? max_acl_packet_credits_ s) = true)
      by now apply Z.leb_le.
    assert (Hl : (n <=? le_max_acl_packet_credits_ s) = true) by (apply Z.leb_le; lia).
    rewrite Ha, Hl. cbn [ASSERT bind]. rewrite Z.eqb_refl, orb_true_r.
    rewrite Hsrr by reflexivity. eexists. split; [reflexivity|]. fields.
    repeat (split; [reflexivity|]).
    unfold HandleEnqueueNextFragment. fields. rewrite Hq. fields.
    rewrite Hpos, Hw1. cbn [ASSERT bind].
    destruct rest as [|[k2 f2] rest2].
    + eexists. split; [reflexivity|]. fields. auto.
    + match goal with |- context [if ?c then _ else _] => destruct c end;
        (eexists; split; [reflexivity|]; fields; auto).
Qed.

Lemma credits_resume_dispatch_example :
  exists s' s'',
    IncomingAclCredits 64 1 stalled_burst = Done s' /\
    enqueue_registered_ s' = true /\ acl_packet_credits_ s' = 1 /\
    HandleEnqueueNextFragment s' =
      Done (s'', Create 64 CONTINUING_FRAGMENT POINT_TO_POINT (payload 27)) /\
    acl_packet_credits_ s'' = 0.
Proof.
  destruct (credits_resume_dispatch stalled_burst 64 1
              (mk_handler CLASSIC 1 false 3 false)
              (Create 64 CONTINUING_FRAGMENT POINT_TO_POINT (payload 27))
              [ (CLASSIC, Create 64 CONTINUING_FRAGMENT POINT_TO_POINT (payload 6)) ]
              eq_refl eq_refl eq_refl)
    as (s' & H1 & H2 & H3 & _ & _ & s'' & H4 & _ & H5).
  - simpl. lia.
  - lia.
  - simpl. lia.
  - reflexivity.
  - exists s', s''. repeat split; assumption.
Defined.

(** ** Dispatch *)

Section Dispatch.

Lemma queued_nonneg k q : 0 <= queued k q.
Proof.
  induction q as [|[k' f] q IH]; simpl; [lia|].
  destruct (ConnectionType_eqb k' k); lia.
Qed.

Lemma wrap16_pred c : 0 < c < 65536 -> wrap16 (c - 1) = c - 1.
Proof. intros H. unfold wrap16. apply Z.mod_small. lia. Qed.

End Dispatch.

(** X13: fragments leave in FIFO order, one credit each.  When every kind
    has at least as many credits as fragments queued, as many calls of
    HandleEnqueueNextFragment as there are fragments return exactly the
    queued fragments in their order; each pool has gone down by the number
    of fragments of its kind; the FIFO is empty, the enqueue callback is
    unregistered, one StartRoundRobin has been posted, and the connection
    records and the cursor are untouched. *)
Theorem drain_in_order (s : scheduler) :
  fragments_to_send_ s <> [] ->
  queued CLASSIC (fragments_to_send_ s) <= acl_packet_credits_ s < 65536 ->
  queued LE (fragments_to_send_ s) <= le_acl_packet_credits_ s < 65536 ->
  exists s',
    drain (length (fragments_to_send_ s)) s = Done (s', map snd (fragments_to_send_ s)) /\
    fragments_to_send_ s' = [] /\
    acl_packet_credits_ s' =
      acl_packet_credits_ s - queued CLASSIC (fragments_to_send_ s) /\
    le_acl_packet_credits_ s' =
      le_acl_packet_credits_ s - queued LE (fragments_to_send_ s) /\
    enqueue_registered_ s' = false /\
    handler_posts_ s' = S (handler_posts_ s) /\
    acl_queue_handlers_ s' = acl_queue_handlers_ s /\
    starting_point_ s' = starting_point_ s.
Proof.
  remember (fragments_to_send_ s) as q eqn:Hq. revert s Hq.
  induction q as [|[k f] rest IH]; intros s Hq Hne Hc Hl; [congruence|].
  cbn [length drain]. unfold HandleEnqueueNextFragment. rewrite <- Hq.
  cbn [queued] in Hc, Hl.
  pose proof (queued_nonneg CLASSIC rest) as Hn1.
  pose proof (queued_nonneg LE rest) as Hn2.
  destruct k; cbn [ConnectionType_eqb] in Hc, Hl.
  - assert (Hpos : (0 <? acl_packet_credits_ s) = true) by (apply Z.ltb_lt; lia).
    rewrite Hpos. cbn [ASSERT bind]. cbv zeta. rewrite wrap16_pred by lia.
    destruct rest as [|[k2 f2] rest2].
    + cbn [bind fst snd drain map]. eexists. split; [reflexivity|].
      simpl. repeat split; lia.
    + match goal with
      | |- context [if ?c then _ else _] => set (full := c)
      end.
      assert (Hstep : forall s1,
                 fragments_to_send_ s1 = (k2, f2) :: rest2 ->
                 acl_packet_credits_ s1 = acl_packet_credits_ s - 1 ->
                 le_acl_packet_credits_ s1 = le_acl_packet_credits_ s ->
                 handler_posts_ s1 = handler_posts_ s ->
                 acl_queue_handlers_ s1 = acl_queue_handlers_ s ->
                 starting_point_ s1 = starting_point_ s ->
                 exists s',
                   (rest0 <- drain (length ((k2, f2) :: rest2)) s1 ;;
                    Done (fst rest0, f :: snd rest0)) =
                     Done (s', f :: map snd ((k2, f2) :: rest2)) /\
                   fragments_to_send_ s' = [] /\
                   acl_packet_credits_ s' =
                     acl_packet_credits_ s - (1 + queued CLASSIC ((k2, f2) :: rest2)) /\
                   le_acl_packet_credits_ s' =
                     le_acl_packet_credits_ s - (0 + queued LE ((k2, f2) :: rest2)) /\
                   enqueue_registered_ s' = false /\
                   handler_posts_ s' = S (handler_posts_ s) /\
                   acl_queue_handlers_ s' = acl_queue_handlers_ s /\
                   starting_point_ s' = starting_point_ s).
      { intros s1 Hq1 Ha1 Hl1 Hp1 Hm1 Hs1.
        destruct (IH s1 (eq_sym Hq1) ltac:(discriminate)) as (s' & Hd & H1 & H2 & H3 & H4 & H5 & H6 & H7).
        - rewrite Ha1. lia.
        - rewrite Hl1. lia.
        - exists s'. rewrite Hd. cbn [bind fst snd].
          split; [reflexivity|]. repeat split; try assumption; try lia; congruence. }
      destruct full; cbn [bind fst snd]; apply Hstep; reflexivity.
  - assert (Hpos : (0 <? le_acl_packet_credits_ s) = true) by (apply Z.ltb_lt; lia).
    rewrite Hpos. cbn [ASSERT bind]. cbv zeta. rewrite wrap16_pred by lia.
    destruct rest as [|[k2 f2] rest2].
    + cbn [bind fst snd drain map]. eexists. split; [reflexivity|].
      simpl. repeat split; lia.
    + match goal with
      | |- context [if ?c then _ else _] => set (full := c)
      end.
      assert (Hstep : forall s1,
                 fragments_to_send_ s1 = (k2, f2) :: rest2 ->
                 acl_packet_credits_ s1 = acl_packet_credits_ s ->
                 le_acl_packet_credits_ s1 = le_acl_packet_credits_ s - 1 ->
                 handler_posts_ s1 = handler_posts_ s ->
                 acl_queue_handlers_ s1 = acl_queue_handlers_ s ->
                 starting_point_ s1 = starting_point_ s ->
                 exists s',
                   (rest0 <- drain (length ((k2, f2) :: rest2)) s1 ;;
                    Done (fst rest0, f :: snd rest0)) =
                     Done (s', f :: map snd ((k2, f2) :: rest2)) /\
                   fragments_to_send_ s' = [] /\
                   acl_packet_credits_ s' =
                     acl_packet_credits_ s - (0 + queued CLASSIC ((k2, f2) :: rest2)) /\
                   le_acl_packet_credits_ s' =
                     le_acl_packet_credits_ s - (1 + queued LE ((k2, f2) :: rest2)) /\
                   enqueue_registered_ s' = false /\
                   handler_posts_ s' = S (handler_posts_ s) /\
                   acl_queue_handlers_ s' = acl_queue_handlers_ s /\
                   starting_point_ s' = starting_point_ s).
      { intros s1 Hq1 Ha1 Hl1 Hp1 Hm1 Hs1.
        destruct (IH s1 (eq_sym Hq1) ltac:(discriminate)) as (s' & Hd & H1 & H2 & H3 & H4 & H5 & H6 & H7).
        - rewrite Ha1. lia.
        - rewrite Hl1. lia.
        - exists s'. rewrite Hd. cbn [bind fst snd].
          split; [reflexivity|]. repeat split; try assumption; try lia; congruence. }
      destruct full; cbn [bind fst snd]; apply Hstep; reflexivity.
Qed.

Lemma drain_in_order_example :
  exists s',
    drain 3 three_fragments_queued =
      Done (s', map snd (fragments_to_send_ three_fragments_queued)) /\
    acl_packet_credits_ s' = 0 /\ handler_posts_ s' = 1%nat.
Proof.
  destruct (drain_in_order three_fragments_queued) as (s' & H1 & _ & H2 & _ & _ & H3 & _).
  - discriminate.
  - vm_compute. split; [discriminate | reflexivity].
  - vm_compute. split; [discriminate | reflexivity].
  - exists s'. split; [exact H1|]. split; [exact H2 | exact H3].
Defined.

(** ** Counters within 16 bits, and a burst in progress *)

Section Ranges.

Lemma run_credits_in_range o s s' :
  run o s = Done s' -> credits_in_range s -> credits_in_range s'.
Proof.
  unfold credits_in_range. intros H [Ha Hl]. destruct o; simpl in H.
  - unfold Register in H. cbv zeta in H.
    match type of H with
    | context [StartRoundRobin ?x] => set (s1 := x) in *
    end.
    destruct (Nat.eqb (length (fragments_to_send_ s1)) 0).
    + apply StartRoundRobin_frame in H. destruct H as (_ & -> & -> & _). auto.
    + injection H as <-. auto.
  - unfold Unregister in H.
    destruct (map_find handle (acl_queue_handlers_ s)); [|discriminate].
    injection H as <-. auto.
  - unfold SetDisconnect in H.
    destruct (map_find handle (acl_queue_handlers_ s)) as [r|]; [|discriminate].
    cbv zeta in H. injection H as <-.
    destruct (connection_type_ _); fields; auto using wrap16_range.
  - unfold BufferPacket in H.
    destruct (map_find handle (acl_queue_handlers_ s)); [|discriminate].
    cbv zeta in H.
    match type of H with
    | context [ASSERT ?c _] => destruct c
    end; cbn [ASSERT bind] in H; [|discriminate].
    injection H as <-. auto.
  - destruct (HandleEnqueueNextFragment s) as [[s1 pkt]| |] eqn:Hh; try discriminate.
    injection H as <-. unfold HandleEnqueueNextFragment in Hh.
    destruct (fragments_to_send_ s) as [|[k f] rest]; [discriminate|].
    destruct k;
      [destruct (0 <? acl_packet_credits_ s) | destruct (0 <? le_acl_packet_credits_ s)];
      cbn [ASSERT bind] in Hh; try discriminate; cbv zeta in Hh;
      destruct rest as [|[k2 f2] rest2];
      try (match type of Hh with (if ?c then _ else _) = _ => destruct c end);
      injection Hh as <- _; fields; auto using wrap16_range.
  - unfold IncomingAclCredits in H.
    destruct (map_find handle (acl_queue_handlers_ s)) as [r|];
      [|injection H as <-; auto].
    destruct (is_disconnected_ r); [injection H as <-; auto|].
    cbv zeta in H.
    match type of H with
    | context [ASSERT (acl_packet_credits_ ?x <=? _) _] => set (s2 := x) in *
    end.
    assert (H2 : is_uint16 (acl_packet_credits_ s2) = true /\
                 is_uint16 (le_acl_packet_credits_ s2) = true).
    { unfold s2. destruct (connection_type_ r); fields; auto using wrap16_range. }
    destruct (ASSERT (acl_packet_credits_ s2 <=? max_acl_packet_credits_ s2) _);
      cbn [bind] in H; try discriminate.
    destruct (ASSERT (le_acl_packet_credits_ s2 <=? le_max_acl_packet_credits_ s2) _);
      cbn [bind] in H; try discriminate.
    match type of H with (if ?c then _ else _) = _ => destruct c end.
    + apply StartRoundRobin_frame in H. destruct H as (_ & -> & -> & _). exact H2.
    + injection H as <-. exact H2.
  - apply StartRoundRobin_frame in H. destruct H as (_ & -> & -> & _). auto.
Qed.

Lemma reachable_credits_in_range s s' :
  credits_in_range s -> reachable s s' -> credits_in_range s'.
Proof.
  intros Hr Hreach. induction Hreach as [|s o s1 s2 _ Hrun _ IH]; [assumption|].
  apply IH. eapply run_credits_in_range; eauto.
Qed.

Lemma uint16_nonzero_pos z : is_uint16 z = true -> (z =? 0) = false -> (0 <? z) = true.
Proof.
  unfold is_uint16. intros H Hz. apply andb_true_iff in H. destruct H as [H1 _].
  apply Z.leb_le in H1. apply Z.eqb_neq in Hz. apply Z.ltb_lt. lia.
Qed.

End Ranges.

(** X14: inside a burst the credit assertion cannot fire.  In a state
    reachable from a scheduler built with 16-bit buffer counts, if
    HandleEnqueueNextFragment returns and leaves the enqueue callback
    registered, the next call of HandleEnqueueNextFragment returns too:
    a fragment is queued and the pool of its kind is positive. *)
Theorem next_dispatch_returns (a b c d : Z) (s s1 : scheduler) (p : AclPacketBuilder) :
  is_uint16 a = true -> is_uint16 c = true ->
  reachable (new a b c d) s ->
  HandleEnqueueNextFragment s = Done (s1, p) ->
  enqueue_registered_ s1 = true ->
  exists s2 p2,
    HandleEnqueueNextFragment s1 = Done (s2, p2) /\
    fragments_to_send_ s1 = (fst (List.hd (CLASSIC, p2) (fragments_to_send_ s1)), p2)
                              :: fragments_to_send_ s2.
Proof.
  intros Ha Hc Hreach H Hen.
  assert (Hrange : credits_in_range s).
  { apply (reachable_credits_in_range (new a b c d)); [|assumption]. now split. }
  assert (Hrange1 : credits_in_range s1).
  { apply (run_credits_in_range OpHandleEnqueueNextFragment s); [|assumption].
    simpl. now rewrite H. }
  destruct Hrange1 as [Hr1 Hr2].
  assert (Hfront : exists k2 f2 rest2,
             fragments_to_send_ s1 = (k2, f2) :: rest2 /\
             (ConnectionType_eqb k2 CLASSIC && (acl_packet_credits_ s1 =? 0)
              || ConnectionType_eqb k2 LE && (le_acl_packet_credits_ s1 =? 0)) = false).
  { unfold HandleEnqueueNextFragment in H.
    destruct (fragments_to_send_ s) as [|[k f] rest]; [discriminate|].
    destruct k;
      [destruct (0 <? acl_packet_credits_ s) | destruct (0 <? le_acl_packet_credits_ s)];
      cbn [ASSERT bind] in H; try discriminate; cbv zeta in H;
      destruct rest as [|[k2 f2] rest2].
    all: try (injection H as <- _; fields; discriminate).
    all: match type of H with (if ?c then _ else _) = _ => destruct c eqn:Hfull end;
      injection H as <- _; fields; try discriminate;
      exists k2, f2, rest2; split; [reflexivity | exact Hfull]. }
  destruct Hfront as (k2 & f2 & rest2 & Hq1 & Hfull).
  unfold HandleEnqueueNextFragment. rewrite Hq1.
  apply orb_false_iff in Hfull. destruct Hfull as [Hf1 Hf2].
  destruct k2; cbn [ConnectionType_eqb andb] in Hf1, Hf2.
  - rewrite (uint16_nonzero_pos _ Hr1 Hf1). cbn [ASSERT bind]. cbv zeta.
    destruct rest2 as [|[k3 f3] rest3].
    + eexists _, _. split; reflexivity.
    + match goal with |- context [if ?c then _ else _] => destruct c end;
        eexists _, _; split; reflexivity.
  - rewrite (uint16_nonzero_pos _ Hr2 Hf2). cbn [ASSERT bind]. cbv zeta.
    destruct rest2 as [|[k3 f3] rest3].
    + eexists _, _. split; reflexivity.
    + match goal with |- context [if ?c then _ else _] => destruct c end;
        eexists _, _; split; reflexivity.
Qed.

Lemma next_dispatch_returns_example :
  exists s1 p1 s2 p2,
    HandleEnqueueNextFragment three_fragments_queued = Done (s1, p1) /\
    HandleEnqueueNextFragment s1 = Done (s2, p2) /\
    builder_payload p2 = payload 27.
Proof.
  assert (Hr : reachable (new 3 27 0 27) three_fragments_queued).
  { apply (exec_reachable [OpRegister CLASSIC 64 1; OpBufferPacket 64 (payload 60)]);
      reflexivity. }
  eexists _, _.
  destruct (next_dispatch_returns 3 27 0 27 three_fragments_queued _ _
              eq_refl eq_refl Hr eq_refl eq_refl) as (s2 & p2 & Hrun & Hq).
  exists s2, p2. split; [reflexivity|]. split; [exact Hrun|].
  vm_compute in Hrun. injection Hrun as _ <-. reflexivity.
Defined.

(** ** No undefined behaviour *)

Section Defined.

(** The state [IncomingAclCredits] hands to [StartRoundRobin]. *)
Lemma IncomingAclCredits_mid_inv h n s r s2 :
  sched_inv s -> is_uint16 n = true ->
  map_find h (acl_queue_handlers_ s) = Some r ->
  s2 = match connection_type_ r with
       | CLASSIC =>
           with_acl_credits (wrap16 (acl_packet_credits_ s + n))
             (with_handlers
                (map_update h
                   (fun e => set_number_of_sent_packets
                               (wrap16 (number_of_sent_packets_ e - n)) e)
                   (acl_queue_handlers_ s)) s)
       | LE =>
           with_le_credits (wrap16 (le_acl_packet_credits_ s + n))
             (with_handlers
                (map_update h
                   (fun e => set_number_of_sent_packets
                               (wrap16 (number_of_sent_packets_ e - n)) e)
                   (acl_queue_handlers_ s)) s)
       end ->
  acl_packet_credits_ s2 <= max_acl_packet_credits_ s2 ->
  le_acl_packet_credits_ s2 <= le_max_acl_packet_credits_ s2 ->
  sched_inv s2.
Proof.
  intros Hinv Hn Hfind Hs2 Ha Hl.
  destruct (starting_point_ s) eqn:Hsp.
  - pose proof (singular_untouched s Hinv Hsp) as Hu. destruct Hu.
    destruct Hinv as [Hp Hi].
    destruct (Hi Hsp) as [Hm|[Hz1 Hz2]]; [rewrite Hm in Hfind; discriminate|].
    assert (H0 : number_of_sent_packets_ r = 0) by eauto.
    assert (Hn0 : n = 0).
    { rewrite Hs2 in Ha, Hl.
      destruct (connection_type_ r); fields.
      - rewrite Hz1, Z.add_0_l, wrap16_small in Ha by assumption.
        unfold is_uint16 in Hn. lia.
      - rewrite Hz2, Z.add_0_l, wrap16_small in Hl by assumption.
        unfold is_uint16 in Hn. lia. }
    assert (Hsame : s2 = s).
    { rewrite Hs2. subst n.
      rewrite (map_update_id h _ _ r Hfind).
      - rewrite with_handlers_same, Hz1, Hz2. cbn [Z.add]. rewrite wrap16_0.
        destruct (connection_type_ r).
        + rewrite <- Hz1 at 1. apply with_acl_credits_same.
        + rewrite <- Hz2 at 1. apply with_le_credits_same.
      - rewrite H0. cbn [Z.sub Z.add Z.opp]. rewrite wrap16_0.
        destruct r; simpl in *. now subst. }
    rewrite Hsame. now split.
  - apply sched_inv_frame with (s := s); try assumption; try congruence;
      rewrite Hs2; destruct (connection_type_ r); fields;
      rewrite ?map_update_keys; auto;
      try (intros Hne; apply all_unregistered_update_sent; now apply Hinv);
      apply Hinv.
  - apply sched_inv_frame with (s := s); try assumption; try congruence;
      rewrite Hs2; destruct (connection_type_ r); fields;
      rewrite ?map_update_keys; auto;
      try (intros Hne; apply all_unregistered_update_sent; now apply Hinv);
      apply Hinv.
Qed.

Lemma map_update_nonempty h f m : m <> [] -> map_update h f m <> [].
Proof.
  destruct m as [|[k r] m]; [congruence|]. simpl. intros _.
  destruct (k =? h); discriminate.
Qed.

Lemma IncomingAclCredits_defined h n s :
  sched_inv s -> is_uint16 n = true ->
  IncomingAclCredits h n s <> UndefinedBehavior.
Proof.
  intros Hinv Hn. unfold IncomingAclCredits.
  destruct (map_find h (acl_queue_handlers_ s)) as [r|] eqn:Hfind; [|discriminate].
  destruct (is_disconnected_ r); [discriminate|]. cbv zeta.
  match goal with
  | |- context [ASSERT (acl_packet_credits_ ?x <=? _) _] => remember x as s2 eqn:Hs2
  end.
  destruct (acl_packet_credits_ s2 <=? max_acl_packet_credits_ s2) eqn:Ha;
    cbn [ASSERT bind]; [|discriminate].
  destruct (le_acl_packet_credits_ s2 <=? le_max_acl_packet_credits_ s2) eqn:Hl;
    cbn [ASSERT bind]; [|discriminate].
  apply Z.leb_le in Ha, Hl.
  match goal with |- (if ?c then _ else _) <> _ => destruct c end; [|discriminate].
  assert (Hinv2 : sched_inv s2).
  { apply (IncomingAclCredits_mid_inv h n s r s2); assumption. }
  destruct (StartRoundRobin_total s2) as (s' & ->); [apply Hinv2| |discriminate].
  rewrite Hs2. destruct (connection_type_ r); fields; apply map_update_nonempty;
    intros E; rewrite E in Hfind; discriminate.
Qed.

End Defined.

(** X15: in a reachable state no enabled step runs into undefined
    behaviour (a dereferenced or advanced iterator that designates no
    element, [front()] of an empty FIFO), except SetDisconnect of an
    unknown handle and a posted StartRoundRobin that finds the map empty:
    every other step returns or fails an assertion. *)
Theorem enabled_steps_are_defined (a b c d : Z) (s : scheduler) (o : op) :
  reachable (new a b c d) s ->
  enabled o s = true ->
  defined_step o s ->
  run o s <> UndefinedBehavior.
Proof.
  intros Hreach Hen Hdef.
  pose proof (reachable_inv _ _ (new_inv a b c d) Hreach) as Hinv.
  destruct o; simpl in Hen, Hdef |- *.
  - destruct (Register_total connection_type handle queue_down_end s Hinv) as (s' & ->).
    discriminate.
  - unfold Unregister. destruct (map_find handle (acl_queue_handlers_ s)); discriminate.
  - unfold SetDisconnect.
    destruct (map_find handle (acl_queue_handlers_ s)); [discriminate | congruence].
  - unfold BufferPacket.
    destruct (map_find handle (acl_queue_handlers_ s)); [|discriminate].
    cbv zeta.
    match goal with
    | |- context [ASSERT ?c _] => destruct c
    end; cbn [ASSERT bind]; discriminate.
  - destruct Hinv as [[_ _ He _] _]. specialize (He Hen).
    unfold HandleEnqueueNextFragment.
    destruct (fragments_to_send_ s) as [|[k f] rest]; [congruence|].
    destruct k;
      [destruct (0 <? acl_packet_credits_ s) | destruct (0 <? le_acl_packet_credits_ s)];
      cbn [ASSERT bind]; try discriminate; cbv zeta;
      destruct rest as [|[k2 f2] rest2]; cbn [bind]; try discriminate;
      match goal with |- context [if ?c then _ else _] => destruct c end;
      cbn [bind]; discriminate.
  - apply andb_true_iff in Hen. apply IncomingAclCredits_defined; tauto.
  - assert (Hns : starting_point_ s <> it_singular).
    { intros E. apply singular_untouched in E; [|assumption]. destruct E.
      rewrite un_posts0 in Hen. discriminate. }
    destruct (StartRoundRobin_total
                (with_handler_posts (Nat.pred (handler_posts_ s)) s)) as (s' & ->);
      [|exact Hdef|discriminate].
    apply (sched_inv_frame s); try assumption; fields; auto; apply Hinv.
Qed.

Lemma enabled_steps_are_defined_example :
  run (OpIncomingAclCredits 64 1) both_credits_used <> UndefinedBehavior.
Proof.
  apply (enabled_steps_are_defined 2 27 0 27).
  - apply (exec_reachable both_credits_used_trace); reflexivity.
  - reflexivity.
  - exact I.
Defined.

(** X16: with no connection registered, an empty FIFO and a credit in
    either pool, StartRoundRobin advances the [end()] iterator of the
    empty map: undefined behaviour. *)
Theorem StartRoundRobin_without_connections (s : scheduler) :
  acl_queue_handlers_ s = [] ->
  fragments_to_send_ s = [] ->
  ~ no_credits s ->
  StartRoundRobin s = UndefinedBehavior.
Proof.
  intros Hm Hq Hnz. unfold StartRoundRobin, pass_start.
  assert (Hz : (acl_packet_credits_ s =? 0) && (le_acl_packet_credits_ s =? 0) = false).
  { apply andb_false_iff. unfold no_credits in Hnz.
    destruct (Z.eqb_spec (acl_packet_credits_ s) 0); [|auto].
    destruct (Z.eqb_spec (le_acl_packet_credits_ s) 0); [tauto|auto]. }
  rewrite Hz, Hq, Hm. simpl.
  destruct (starting_point_ s); reflexivity.
Qed.

(** The state is reachable: the only connection is unregistered between
    the last fragment and the posted pass. *)
Lemma StartRoundRobin_without_connections_example :
  reachable (new 2 27 0 27) last_connection_gone /\
  enabled OpStartRoundRobin last_connection_gone = true /\
  run OpStartRoundRobin last_connection_gone = UndefinedBehavior.
Proof.
  split; [apply (exec_reachable last_connection_gone_trace); reflexivity|].
  split; [reflexivity|].
  apply (StartRoundRobin_without_connections
           (with_handler_posts (Nat.pred (handler_posts_ last_connection_gone))
                               last_connection_gone)).
  - reflexivity.
  - reflexivity.
  - unfold no_credits. simpl. lia.
Defined.

(** ** One payload at a time *)

Section OnePayload.

Lemma one_payload_tail f q : one_payload_queued (f :: q) -> one_payload_queued q.
Proof.
  intros [Hsame Hcont]. split.
  - intros x y Hx Hy. apply Hsame; now right.
  - destruct q as [|g rest]; [exact I|]. now inversion Hcont.
Qed.

Lemma one_payload_nil : one_payload_queued [].
Proof. split; [intros f g [] | exact I]. Qed.

Lemma one_payload_tagged k h flag pieces :
  one_payload_queued (map (pair k) (tag_pieces k h flag pieces)).
Proof.
  assert (Hall : forall x, In x (map (pair k) (tag_pieces k h flag pieces)) ->
                           fst x = k /\ builder_handle (snd x) = h).
  { intros x Hx. apply in_map_iff in Hx. destruct Hx as (y & <- & Hy).
    split; [reflexivity|]. simpl.
    destruct pieces as [|f rest]; [destruct Hy|].
    destruct Hy as [<-|Hy]; [reflexivity|].
    apply in_map_iff in Hy. destruct Hy as (z & <- & _). reflexivity. }
  split.
  - intros x y Hx Hy. destruct (Hall x Hx) as [-> ->], (Hall y Hy) as [-> ->]. auto.
  - destruct pieces as [|f rest]; [exact I|]. cbn [tag_pieces map].
    apply Forall_forall. intros x Hx. apply in_map_iff in Hx.
    destruct Hx as (y & <- & Hy). apply in_map_iff in Hy.
    destruct Hy as (z & <- & _). reflexivity.
Qed.

Lemma run_one_payload o s s' :
  sched_inv s -> enabled o s = true -> run o s = Done s' ->
  one_payload_queued (fragments_to_send_ s) ->
  one_payload_queued (fragments_to_send_ s').
Proof.
  intros Hinv Hen H Hone. destruct o; simpl in Hen, H.
  - unfold Register in H. cbv zeta in H.
    match type of H with
    | context [StartRoundRobin ?x] => set (s1 := x) in *
    end.
    destruct (Nat.eqb (length (fragments_to_send_ s1)) 0).
    + apply StartRoundRobin_frame in H. destruct H as (-> & _). exact Hone.
    + now injection H as <-.
  - unfold Unregister in H.
    destruct (map_find handle (acl_queue_handlers_ s)); [|discriminate].
    now injection H as <-.
  - unfold SetDisconnect in H.
    destruct (map_find handle (acl_queue_handlers_ s)) as [r|]; [|discriminate].
    cbv zeta in H. injection H as <-. now destruct (connection_type_ _).
  - destruct (map_find handle (acl_queue_handlers_ s)) as [r|] eqn:Hf; [|discriminate].
    assert (Hq : fragments_to_send_ s = []).
    { destruct (fragments_to_send_ s) eqn:Hq; [reflexivity|].
      destruct Hinv as [[_ Hflags _ _] _]. rewrite Hq in Hflags.
      rewrite (all_unregistered_find _ _ _ (Hflags ltac:(discriminate)) Hf) in Hen.
      discriminate. }
    unfold BufferPacket in H. rewrite Hf, Hq in H. cbv zeta in H.
    match type of H with
    | context [ASSERT (0 <? Z.of_nat (length ?q)) _] => set (Q := q) in *
    end.
    destruct (0 <? Z.of_nat (length Q)); cbn [ASSERT bind] in H; [|discriminate].
    injection H as <-. fields. unfold Q.
    destruct (Z.of_nat (length packet) <=? mtu_of (connection_type_ r) s).
    + apply (one_payload_tagged (connection_type_ r) handle
               FIRST_AUTOMATICALLY_FLUSHABLE [packet]).
    + rewrite push_fragments_app. apply one_payload_tagged.
  - destruct (HandleEnqueueNextFragment s) as [[s1 pkt]| |] eqn:Hh; try discriminate.
    injection H as <-. unfold HandleEnqueueNextFragment in Hh.
    destruct (fragments_to_send_ s) as [|[k f] rest]; [discriminate|].
    apply one_payload_tail in Hone.
    destruct k;
      [destruct (0 <? acl_packet_credits_ s) | destruct (0 <? le_acl_packet_credits_ s)];
      cbn [ASSERT bind] in Hh; try discriminate; cbv zeta in Hh;
      destruct rest as [|[k2 f2] rest2];
      try (match type of Hh with (if ?c then _ else _) = _ => destruct c end);
      injection Hh as <- _; fields; assumption.
  - unfold IncomingAclCredits in H.
    destruct (map_find handle (acl_queue_handlers_ s)) as [r|];
      [|now injection H as <-].
    destruct (is_disconnected_ r); [now injection H as <-|].
    cbv zeta in H.
    match type of H with
    | context [ASSERT (acl_packet_credits_ ?x <=? _) _] => set (s2 := x) in *
    end.
    assert (H2 : fragments_to_send_ s2 = fragments_to_send_ s).
    { unfold s2. now destruct (connection_type_ r). }
    destruct (ASSERT (acl_packet_credits_ s2 <=? max_acl_packet_credits_ s2) _);
      cbn [bind] in H; try discriminate.
    destruct (ASSERT (le_acl_packet_credits_ s2 <=? le_max_acl_packet_credits_ s2) _);
      cbn [bind] in H; try discriminate.
    match type of H with (if ?c then _ else _) = _ => destruct c end.
    + apply StartRoundRobin_frame in H. destruct H as (-> & _). now rewrite H2.
    + injection H as <-. now rewrite H2.
  - apply StartRoundRobin_frame in H. destruct H as (-> & _). exact Hone.
Qed.

End OnePayload.

(** X17: in every reachable state the fragments queued in the FIFO all
    carry the same handle and the same kind tag, and every fragment behind
    the front one is a CONTINUING_FRAGMENT: the FIFO only ever holds what
    is left of one payload, so fragments of different payloads or
    connections are never interleaved. *)
Theorem fifo_holds_one_payload (a b c d : Z) (s : scheduler) :
  reachable (new a b c d) s -> one_payload_queued (fragments_to_send_ s).
Proof.
  intros Hreach.
  assert (H0 : sched_inv (new a b c d) /\
               one_payload_queued (fragments_to_send_ (new a b c d))).
  { split; [apply new_inv | apply one_payload_nil]. }
  revert H0. induction Hreach as [|s o s1 s2 Hen Hrun _ IH]; [tauto|].
  intros [Hinv Hone]. apply IH. split.
  - eapply step_inv; eauto.
  - eapply run_one_payload; eauto.
Qed.

Lemma fifo_holds_one_payload_example :
  one_payload_queued (fragments_to_send_ three_fragments_queued).
Proof.
  apply (fifo_holds_one_payload 3 27 0 27).
  apply (exec_reachable [OpRegister CLASSIC 64 1; OpBufferPacket 64 (payload 60)]);
    reflexivity.
Defined.

(** ** What a registration pass registers *)

Section PassRegistersAll.

Lemma find_in_context pre k r rest :
  ~ In k (map_keys pre) -> map_find k (pre ++ (k, r) :: rest) = Some r.
Proof.
  induction pre as [|[k0 r0] pre IH]; simpl; intros Hn.
  - now rewrite Z.eqb_refl.
  - destruct (Z.eqb_spec k0 k); [tauto|]. apply IH. tauto.
Qed.

Lemma update_in_context pre k r rest f :
  ~ In k (map_keys pre) ->
  map_update k f (pre ++ (k, r) :: rest) = pre ++ (k, f r) :: rest.
Proof.
  induction pre as [|[k0 r0] pre IH]; simpl; intros Hn.
  - now rewrite Z.eqb_refl.
  - destruct (Z.eqb_spec k0 k); [tauto|]. rewrite IH; tauto.
Qed.

Lemma next_in_context pre k r rest :
  ~ In k (map_keys pre) ->
  map_next_of k (pre ++ (k, r) :: rest) = Some (map_begin rest).
Proof.
  induction pre as [|[k0 r0] pre IH]; simpl; intros Hn.
  - now rewrite Z.eqb_refl.
  - destruct (Z.eqb_spec k0 k); [tauto|]. apply IH. tauto.
Qed.

Lemma set_registered_id r :
  dequeue_is_registered_ r = true -> set_dequeue_is_registered true r = r.
Proof. destruct r; simpl. now intros ->. Qed.

Lemma split_at_key h m :
  In h (map_keys m) ->
  exists pre r rest, m = pre ++ (h, r) :: rest /\ ~ In h (map_keys pre).
Proof.
  induction m as [|[k r] m IH]; simpl; [tauto|].
  destruct (Z.eq_dec k h) as [->|Hne].
  - intros _. exists [], r, m. split; [reflexivity | simpl; tauto].
  - intros [E|Hin]; [congruence|].
    destruct (IH Hin) as (pre & r1 & rest & -> & Hn).
    exists ((k, r) :: pre), r1, rest. split; [reflexivity|]. simpl. tauto.
Qed.

Lemma all_registered_keys m : map_keys (all_registered m) = map_keys m.
Proof. unfold map_keys, all_registered. rewrite map_map. reflexivity. Qed.

(** The loop run over a segment [l] of the map: every element of [l] gets
    registered, and the iterator ends behind [l], wrapped to [begin()] if
    [l] reaches the end of the map. *)
Lemma round_robin_loop_segment l :
  forall pre post c2,
    NoDup (map_keys (pre ++ l ++ post)) -> l <> [] ->
    round_robin_loop (length l + c2) (map_begin l) (pre ++ l ++ post) =
    round_robin_loop c2
      (match post with
       | [] => map_begin (pre ++ all_registered l)
       | _ => map_begin post
       end)
      (pre ++ all_registered l ++ post).
Proof.
  induction l as [|[k r] l' IH]; intros pre post c2 Hd Hne; [congruence|].
  assert (Hk : ~ In k (map_keys pre)).
  { unfold map_keys in *. rewrite map_app in Hd. apply NoDup_remove_2 in Hd.
    intros Hin. apply Hd. apply in_or_app. now left. }
  cbn [length Nat.add round_robin_loop map_begin app].
  rewrite find_in_context by assumption.
  set (r1 := set_dequeue_is_registered true r).
  match goal with
  | |- context [iter_next _ ?M] =>
      assert (Hm1 : M = pre ++ (k, r1) :: l' ++ post)
  end.
  { destruct (dequeue_is_registered_ r) eqn:Hflag.
    - unfold r1. now rewrite set_registered_id.
    - now apply update_in_context. }
  rewrite Hm1. unfold iter_next. rewrite next_in_context by assumption.
  cbn [bind all_registered map fst snd]. fold r1. fold (all_registered l').
  destruct l' as [|[k' r'] l''].
  - cbn [app all_registered map length Nat.add].
    destruct post as [|[kp rp] post'].
    + reflexivity.
    + reflexivity.
  - cbn [app map_begin iterator_is_end].
    specialize (IH (pre ++ [(k, r1)]) post c2).
    rewrite <- !app_assoc in IH. cbn [app] in IH.
    cbn [map_begin] in IH. rewrite IH; [reflexivity| |discriminate].
    clear - Hd. unfold map_keys in *.
    repeat (rewrite ?map_app in *; cbn [map fst app] in * ). exact Hd.
Qed.

Lemma round_robin_loop_registers_all h m :
  NoDup (map_keys m) -> In h (map_keys m) ->
  round_robin_loop (length m) (it_at h) m = Done (all_registered m).
Proof.
  intros Hd Hin.
  destruct (split_at_key h m Hin) as (pre & r & rest & -> & Hn).
  set (l := (h, r) :: rest).
  assert (H1 : round_robin_loop (length l + length pre) (map_begin l) (pre ++ l ++ []) =
               round_robin_loop (length pre) (map_begin (pre ++ all_registered l))
                                (pre ++ all_registered l ++ [])).
  { apply round_robin_loop_segment; [now rewrite app_nil_r | discriminate]. }
  rewrite !app_nil_r in H1.
  replace (length (pre ++ l)) with (length l + length pre)%nat
    by (rewrite length_app; lia).
  change (it_at h) with (map_begin l). rewrite H1.
  destruct pre as [|[k0 r0] pre'].
  - reflexivity.
  - set (pre := (k0, r0) :: pre').
    assert (H2 : round_robin_loop (length pre + 0) (map_begin pre)
                                  ([] ++ pre ++ all_registered l) =
                 round_robin_loop 0
                   (match all_registered l with
                    | [] => map_begin ([] ++ all_registered pre)
                    | _ => map_begin (all_registered l)
                    end)
                   ([] ++ all_registered pre ++ all_registered l)).
    { apply round_robin_loop_segment; [|discriminate].
      cbn [app]. revert Hd. unfold map_keys. rewrite !map_app.
      fold (map_keys (all_registered l)). fold (map_keys l).
      now rewrite all_registered_keys. }
    rewrite Nat.add_0_r in H2. cbn [app] in H2.
    change (map_begin (pre ++ all_registered l)) with (map_begin pre).
    rewrite H2. cbn [round_robin_loop]. unfold all_registered. now rewrite map_app.
Qed.

End PassRegistersAll.

(** X18: a registration pass registers every connection for dequeue,
    wherever the cursor is: with a non-empty map, an empty FIFO and a
    credit in either pool, StartRoundRobin returns with the dequeue flag
    of every record set and the rest of every record unchanged. *)
Theorem registration_pass_registers_all (s : scheduler) :
  acl_queue_handlers_ s <> [] ->
  NoDup (map_keys (acl_queue_handlers_ s)) ->
  fragments_to_send_ s = [] ->
  ~ no_credits s ->
  (length (acl_queue_handlers_ s) = 1%nat \/
   cursor_designates (acl_queue_handlers_ s) (starting_point_ s)) ->
  exists s',
    StartRoundRobin s = Done s' /\
    acl_queue_handlers_ s' = all_registered (acl_queue_handlers_ s) /\
    forall h r, map_find h (acl_queue_handlers_ s) = Some r ->
                map_find h (acl_queue_handlers_ s') =
                  Some (set_dequeue_is_registered true r).
Proof.
  intros Hne Hnd Hq Hnz Hcur.
  destruct (pass_start_designated s Hne Hcur) as (h & Hstart & Hin & _).
  pose proof (round_robin_loop_registers_all h _ Hnd Hin) as Hl.
  assert (Hin' : In h (map_keys (all_registered (acl_queue_handlers_ s))))
    by now rewrite all_registered_keys.
  destruct (map_next_of_designates h _ Hin') as (next & Hn & _).
  exists (with_starting_point next
            (with_handlers (all_registered (acl_queue_handlers_ s)) s)).
  split.
  - unfold StartRoundRobin.
    assert (Hz : (acl_packet_credits_ s =? 0) && (le_acl_packet_credits_ s =? 0) = false).
    { apply andb_false_iff. unfold no_credits in Hnz.
      destruct (Z.eqb_spec (acl_packet_credits_ s) 0); [|auto].
      destruct (Z.eqb_spec (le_acl_packet_credits_ s) 0); [tauto|auto]. }
    rewrite Hz, Hq. cbn [length Nat.eqb negb]. rewrite Hstart. cbn [bind].
    rewrite Hl. cbn [bind]. unfold iter_next. rewrite Hn. reflexivity.
  - fields. split; [reflexivity|].
    intros h0 r Hf. clear - Hf.
    induction (acl_queue_handlers_ s) as [|[k r0] m IH]; simpl in *; [discriminate|].
    destruct (k =? h0); [now injection Hf as -> | auto].
Qed.

Lemma registration_pass_registers_all_example :
  exists s',
    StartRoundRobin two_connections = Done s' /\
    map_find 64 (acl_queue_handlers_ s') = Some (mk_handler CLASSIC 1 true 0 false).
Proof.
  assert (Hnd : NoDup (map_keys (acl_queue_handlers_ two_connections))).
  { simpl. repeat constructor; simpl; lia. }
  assert (Hnz : ~ no_credits two_connections).
  { unfold no_credits. simpl. lia. }
  destruct (registration_pass_registers_all two_connections
              ltac:(discriminate) Hnd eq_refl Hnz
              (or_intror (or_intror (or_introl eq_refl))))
    as (s' & Hrun & _ & Hall).
  exists s'. split; [exact Hrun|].
  exact (Hall 64 (mk_handler CLASSIC 1 false 0 false) eq_refl).
Defined.

(** ** Fragment sizes *)

Section FragmentSizes.

Lemma split_pieces_sizes fuel mtu (p : list byte) :
  (0 < mtu)%nat ->
  Forall (fun x => (length x <= mtu)%nat) (split_pieces fuel mtu p) /\
  Forall (fun x => length x = mtu) (removelast (split_pieces fuel mtu p)).
Proof.
  intros Hm. revert p. induction fuel as [|fuel IH]; intros p.
  - simpl. split; constructor.
  - destruct p as [|b p]; [simpl; split; constructor|].
    cbn [split_pieces]. destruct (IH (skipn mtu (b :: p))) as [H1 H2]. split.
    + constructor; [apply firstn_le_length | assumption].
    + destruct (split_pieces fuel mtu (skipn mtu (b :: p))) as [|x rest] eqn:Hs.
      * constructor.
      * change (removelast (firstn mtu (b :: p) :: x :: rest))
          with (firstn mtu (b :: p) :: removelast (x :: rest)).
        constructor; [|assumption].
        apply firstn_length_le.
        destruct (Nat.le_gt_cases mtu (length (b :: p))) as [Hle|Hgt]; [assumption|].
        rewrite skipn_all2 in Hs by lia.
        destruct fuel; discriminate.
Qed.

End FragmentSizes.

(** X19: no fragment exceeds the MTU.  For a registered connection with
    MTU [M > 0], the fragments BufferPacket appends for one payload all
    carry the connection's handle and POINT_TO_POINT, none carries more
    than [M] bytes, and all but the last carry exactly [M] bytes.  (The
    splitting of a payload longer than [M] is [GetFragments], modelled
    from the spec.) *)
Theorem BufferPacket_fragment_sizes (s : scheduler) (h : Z) (r : acl_queue_handler)
        (p : list byte) :
  map_find h (acl_queue_handlers_ s) = Some r ->
  0 < mtu_of (connection_type_ r) s ->
  exists s' frs,
    BufferPacket h (Some p) s = Done s' /\
    fragments_to_send_ s' =
      fragments_to_send_ s ++ map (pair (connection_type_ r)) frs /\
    Forall (fun f => builder_handle f = h /\
                     builder_broadcast_flag f = POINT_TO_POINT /\
                     Z.of_nat (length (builder_payload f)) <=
                       mtu_of (connection_type_ r) s) frs /\
    Forall (fun x => Z.of_nat (length x) = mtu_of (connection_type_ r) s)
           (removelast (map builder_payload frs)).
Proof.
  intros Hfind Hmtu. unfold BufferPacket. rewrite Hfind. cbv zeta.
  set (k := connection_type_ r) in *.
  set (M := mtu_of k s) in *.
  destruct (Z.of_nat (length p) <=? M) eqn:Hle.
  - apply Z.leb_le in Hle.
    set (f := Create h FIRST_AUTOMATICALLY_FLUSHABLE POINT_TO_POINT p).
    assert (Hpos : (0 <? Z.of_nat (length (fragments_to_send_ s ++ [(k, f)]))) = true).
    { apply Z.ltb_lt. rewrite length_app. simpl. lia. }
    rewrite Hpos. cbn [ASSERT bind].
    eexists. exists [f]. split; [reflexivity|]. split; [reflexivity|].
    split; [|constructor].
    constructor; [|constructor]. simpl. auto.
  - apply Z.leb_gt in Hle. rewrite push_fragments_app.
    set (frs := tag_pieces k h FIRST_AUTOMATICALLY_FLUSHABLE (GetFragments M p)).
    assert (Hne : p <> []) by (intros ->; simpl in Hle; lia).
    assert (HM : (0 < Z.to_nat M)%nat) by lia.
    pose proof (split_pieces_count (length p) (Z.to_nat M) p HM (le_n _) Hne) as Hc.
    cbv zeta in Hc. fold (GetFragments M p) in Hc.
    assert (Hlen : length frs = length (GetFragments M p)).
    { unfold frs. rewrite <- (length_map builder_payload).
      now rewrite tag_pieces_payload. }
    assert (Hpos : (0 <? Z.of_nat (length (fragments_to_send_ s ++ map (pair k) frs)))
                   = true).
    { apply Z.ltb_lt. rewrite length_app, length_map, Hlen. lia. }
    rewrite Hpos. cbn [ASSERT bind].
    eexists. exists frs. split; [reflexivity|]. split; [reflexivity|].
    destruct (split_pieces_sizes (length p) (Z.to_nat M) p HM) as [Hs1 Hs2].
    fold (GetFragments M p) in Hs1, Hs2.
    split.
    + apply Forall_forall. intros f Hf.
      assert (Hpay : In (builder_payload f) (GetFragments M p)).
      { rewrite <- (tag_pieces_payload k h FIRST_AUTOMATICALLY_FLUSHABLE).
        now apply in_map. }
      rewrite Forall_forall in Hs1. specialize (Hs1 _ Hpay).
      split; [|split; [|lia]].
      * unfold frs in Hf. destruct (GetFragments M p) as [|x rest]; [destruct Hf|].
        destruct Hf as [<-|Hf]; [reflexivity|].
        apply in_map_iff in Hf. destruct Hf as (z & <- & _). reflexivity.
      * unfold frs in Hf. destruct (GetFragments M p) as [|x rest]; [destruct Hf|].
        destruct Hf as [<-|Hf]; [reflexivity|].
        apply in_map_iff in Hf. destruct Hf as (z & <- & _). reflexivity.
    + unfold frs. rewrite tag_pieces_payload.
      apply Forall_forall. intros x Hx.
      rewrite Forall_forall in Hs2. specialize (Hs2 _ Hx). lia.
Qed.

Lemma BufferPacket_fragment_sizes_example :
  exists s' frs,
    BufferPacket 64 (Some (payload 60)) one_connection = Done s' /\
    fragments_to_send_ s' = map (pair CLASSIC) frs /\
    Forall (fun f => Z.of_nat (length (builder_payload f)) <= 27) frs.
Proof.
  destruct (BufferPacket_fragment_sizes one_connection 64
              (mk_handler CLASSIC 1 true 0 false) (payload 60) eq_refl)
    as (s' & frs & Hrun & Hq & Hall & _).
  - simpl. lia.
  - exists s', frs. split; [exact Hrun|]. split; [exact Hq|].
    apply Forall_forall. intros f Hf. rewrite Forall_forall in Hall.
    exact (proj2 (proj2 (Hall f Hf))).
Defined.

(** * Properties of the module registry *)

Module RegistryFacts.

Import ModuleRegistry.

Local Open Scope nat_scope.

Lemma find_In module m i : find module m = Some i -> In module (map fst m).
Proof.
  induction m as [|[k j] m IH]; simpl; [discriminate|].
  destruct (Nat.eqb_spec k module); [now left | right; auto].
Qed.

Lemma find_None_all m : (forall k, find k m = None) -> m = [].
Proof.
  destruct m as [|[k j] m]; [reflexivity|].
  intros H. specialize (H k). simpl in H. rewrite Nat.eqb_refl in H. discriminate.
Qed.

Lemma find_assign module i m k :
  find k (assign module i m) = if Nat.eqb module k then Some i else find k m.
Proof.
  induction m as [|[k0 j] m IH]; simpl.
  - reflexivity.
  - destruct (Nat.eqb_spec k0 module) as [->|Hne]; simpl.
    + destruct (Nat.eqb_spec module k); reflexivity.
    + rewrite IH. destruct (Nat.eqb_spec k0 k), (Nat.eqb_spec module k);
        try reflexivity; congruence.
Qed.

Lemma assign_fresh_keys module i m :
  find module m = None -> map fst (assign module i m) = map fst m ++ [module].
Proof.
  induction m as [|[k j] m IH]; simpl; [reflexivity|].
  destruct (Nat.eqb_spec k module); [discriminate|].
  intros H. simpl. now rewrite IH.
Qed.

Lemma find_None_not_In module m : find module m = None -> ~ In module (map fst m).
Proof.
  induction m as [|[k j] m IH]; simpl; [tauto|].
  destruct (Nat.eqb_spec k module); [discriminate|].
  intros H [E|E]; [congruence | now apply IH].
Qed.

Lemma erase_keys module m k : In k (map fst (erase module m)) -> In k (map fst m).
Proof.
  induction m as [|[k0 j] m IH]; simpl; [tauto|].
  destruct (Nat.eqb k0 module); simpl; intuition.
Qed.

Lemma erase_NoDup module m : NoDup (map fst m) -> NoDup (map fst (erase module m)).
Proof.
  induction m as [|[k0 j] m IH]; simpl; intros Hd; [constructor|].
  inversion Hd; subst. destruct (Nat.eqb k0 module); simpl; [assumption|].
  constructor; [|auto]. intros Hin. now apply erase_keys in Hin.
Qed.

Lemma find_erase module m k :
  NoDup (map fst m) ->
  find k (erase module m) = if Nat.eqb module k then None else find k m.
Proof.
  induction m as [|[k0 j] m IH]; simpl; intros Hd.
  - now destruct (Nat.eqb module k).
  - inversion Hd as [|? ? Hnotin Hd']; subst.
    destruct (Nat.eqb_spec k0 module) as [->|Hne]; simpl.
    + destruct (Nat.eqb_spec module k) as [->|Hk]; [|reflexivity].
      destruct (find k m) eqn:E; [|reflexivity].
      apply find_In in E. contradiction.
    + rewrite (IH Hd').
      destruct (Nat.eqb_spec k0 k), (Nat.eqb_spec module k); try reflexivity; congruence.
Qed.

Lemma empty_inv : registry_inv empty.
Proof.
  constructor; simpl; try reflexivity; try constructor.
Qed.

Section StartFacts.

Variable ListDependencies : ModuleFactory -> list ModuleFactory.

(** A module on the chain has a dependency that is on the chain too, or is
    the module about to start. *)
Lemma chain_dependency stack a x :
  chain ListDependencies stack a -> In x stack ->
  exists dep, In dep (ListDependencies x) /\ (dep = a \/ In dep stack).
Proof.
  induction 1 as [a|s rest a Hdep Hchain IH]; simpl; [tauto|].
  intros [->|Hin].
  - exists a. auto.
  - destruct (IH Hin) as (dep & H1 & H2). exists dep.
    split; [assumption|]. destruct H2; auto.
Qed.

Lemma unstarted_not_in_order r module :
  registry_inv r -> unstarted r module -> ~ In module (start_order_ r).
Proof.
  intros Hinv Hu Hin. unfold unstarted in Hu.
  rewrite (inv_find r Hinv) in Hu.
  destruct (in_dec Nat.eq_dec module (start_order_ r)); [discriminate | contradiction].
Qed.

(** Adding a module that was not started keeps the invariant. *)
Lemma push_inv r module :
  registry_inv r -> unstarted r module ->
  registry_inv
    (mk_registry (assign module (Instance module) (started_modules_ r))
                 (start_order_ r ++ [module])
                 (calls_ r ++ [Start_called (Instance module)])).
Proof.
  intros Hinv Hu. pose proof (unstarted_not_in_order r module Hinv Hu) as Hnot.
  destruct Hinv as [Hc Hd Hf Hk]. constructor; simpl.
  - rewrite Hc, map_app. reflexivity.
  - apply NoDup_app; [assumption | repeat constructor; simpl; tauto |].
    intros x Hx [<-|[]]. contradiction.
  - intros m. rewrite find_assign, Hf.
    destruct (Nat.eqb_spec module m) as [->|Hne].
    + destruct (in_dec Nat.eq_dec m (start_order_ r ++ [m])) as [|Hn]; [reflexivity|].
      exfalso. apply Hn, in_or_app. right. now left.
    + destruct (in_dec Nat.eq_dec m (start_order_ r)),
               (in_dec Nat.eq_dec m (start_order_ r ++ [module])) as [Hi|Hi];
        try reflexivity; exfalso.
      * apply Hi, in_or_app. now left.
      * apply in_app_or in Hi. destruct Hi as [|[|[]]]; [contradiction | congruence].
  - rewrite assign_fresh_keys by exact Hu.
    apply NoDup_app; [assumption | repeat constructor; simpl; tauto |].
    intros x Hx [<-|[]]. now apply find_None_not_In in Hu.
Qed.

Lemma StartList_spec fuel (IH : Start_returns ListDependencies fuel) :
  forall modules r r1 stack,
    (forall d, In d modules -> chain ListDependencies stack d) ->
    registry_inv r -> Forall (unstarted r) stack ->
    StartList (Start ListDependencies fuel) modules r = Some r1 ->
    registry_inv r1 /\ Forall (unstarted r1) stack /\
    (forall d, In d modules -> ~ In d stack).
Proof.
  induction modules as [|it rest IHl]; intros r r1 stack Hch Hinv Hun; simpl.
  - intros [= <-]. split; [assumption|]. split; [assumption|]. intros d [].
  - destruct (Start ListDependencies fuel it r) as [ra|] eqn:Hit; [|discriminate].
    intros Hrest.
    destruct (IH it r ra stack Hinv Hit (Hch it (or_introl eq_refl)) Hun)
      as (Hinva & Huna & Hfound).
    destruct (IHl ra r1 stack (fun d Hd => Hch d (or_intror Hd)) Hinva Huna Hrest)
      as (Hinv1 & Hun1 & Hnot).
    split; [assumption|]. split; [assumption|].
    intros d [<-|Hd]; [|auto].
    intros Hin. rewrite Forall_forall in Huna. apply Hfound. now apply Huna.
Qed.

Lemma Start_spec fuel : Start_returns ListDependencies fuel.
Proof.
  induction fuel as [|fuel IH]; intros module r r' stack Hinv Hrun Hchain Hun;
    cbn [Start] in Hrun; [discriminate|].
  destruct (find module (started_modules_ r)) as [i|] eqn:Hfind.
  - injection Hrun as <-. split; [assumption|]. split; [assumption|]. congruence.
  - cbv zeta in Hrun.
    destruct (StartList (Start ListDependencies fuel) (ListDependencies module) r)
      as [r1|] eqn:Hdeps; [|discriminate].
    injection Hrun as <-.
    destruct (StartList_spec fuel IH (ListDependencies module) r r1 (module :: stack))
      as (Hinv1 & Hun1 & Hnot); try assumption.
    { intros d Hd. now constructor. }
    { constructor; assumption. }
    inversion Hun1 as [|? ? Hum Hus]; subst.
    assert (Hfresh : ~ In module stack).
    { intros Hin.
      destruct (chain_dependency stack module module Hchain Hin) as (dep & Hdep & Hon).
      apply (Hnot dep Hdep). destruct Hon as [->|Hon]; [now left | now right]. }
    split; [now apply push_inv|]. split.
    + rewrite Forall_forall in *. intros x Hx. unfold unstarted. simpl.
      rewrite find_assign. destruct (Nat.eqb_spec module x) as [->|Hne];
        [contradiction | now apply Hus].
    + simpl. rewrite find_assign, Nat.eqb_refl. discriminate.
Qed.

Lemma started_inv r : started ListDependencies r -> registry_inv r.
Proof.
  induction 1 as [|fuel module r r' _ IH Hrun]; [apply empty_inv|].
  now destruct (Start_spec fuel module r r' [] IH Hrun (chain_nil _ _) (Forall_nil _)).
Qed.

(** With acyclic dependencies [Start] returns: a rank that decreases along
    every dependency bounds the depth of the recursion. *)
Lemma StartList_total fuel (rank : ModuleFactory -> nat) :
  (forall module r, rank module < fuel ->
                    exists r', Start ListDependencies fuel module r = Some r') ->
  forall modules r,
    (forall d, In d modules -> rank d < fuel) ->
    exists r1, StartList (Start ListDependencies fuel) modules r = Some r1.
Proof.
  intros IH. induction modules as [|it rest IHl]; intros r Hrank; simpl; [eauto|].
  destruct (IH it r (Hrank it (or_introl eq_refl))) as (ra & ->).
  apply IHl. intros d Hd. apply Hrank. now right.
Qed.

Lemma Start_total (rank : ModuleFactory -> nat) :
  (forall module d, In d (ListDependencies module) -> rank d < rank module) ->
  forall fuel module r,
    rank module < fuel -> exists r', Start ListDependencies fuel module r = Some r'.
Proof.
  intros Hacyclic. induction fuel as [|fuel IH]; intros module r Hlt; [lia|].
  cbn [Start]. destruct (find module (started_modules_ r)); [eauto|].
  cbv zeta.
  destruct (StartList_total fuel rank IH (ListDependencies module) r) as (r1 & ->).
  - intros d Hd. specialize (Hacyclic module d Hd). lia.
  - eauto.
Qed.

End StartFacts.

Lemma started_instances_starts order :
  started_instances (map (fun m => Start_called (Instance m)) order) = map Instance order /\
  stopped_instances (map (fun m => Start_called (Instance m)) order) = [].
Proof. induction order as [|m order [IH1 IH2]]; simpl; [auto|]. now rewrite IH1, IH2. Qed.

Lemma started_instances_app c1 c2 :
  started_instances (c1 ++ c2) = started_instances c1 ++ started_instances c2.
Proof. induction c1 as [|[i|i] c1 IH]; simpl; now rewrite ?IH. Qed.

Lemma stopped_instances_app c1 c2 :
  stopped_instances (c1 ++ c2) = stopped_instances c1 ++ stopped_instances c2.
Proof. induction c1 as [|[i|i] c1 IH]; simpl; now rewrite ?IH. Qed.

Lemma instances_stops order :
  started_instances (map (fun m => Stop_called (Instance m)) order) = [] /\
  stopped_instances (map (fun m => Stop_called (Instance m)) order) = map Instance order.
Proof. induction order as [|m order [IH1 IH2]]; simpl; [auto|]. now rewrite IH1, IH2. Qed.

Lemma stop_loop_spec order :
  forall modules order0 calls,
    NoDup order -> NoDup (map fst modules) ->
    (forall m, find m modules =
               if in_dec Nat.eq_dec m order then Some (Instance m) else None) ->
    stop_loop order (mk_registry modules order0 calls) =
    Done (mk_registry [] order0
            (calls ++ map (fun m => Stop_called (Instance m)) order)).
Proof.
  induction order as [|it rest IH]; intros modules order0 calls Hd Hk Hf; simpl.
  - rewrite (find_None_all modules Hf), app_nil_r. reflexivity.
  - inversion Hd as [|? ? Hnotin Hd']; subst.
    pose proof (Hf it) as Hit.
    destruct (in_dec Nat.eq_dec it (it :: rest)) as [_|Hn];
      [|exfalso; apply Hn; now left].
    rewrite Hit. simpl. rewrite IH.
    + now rewrite <- app_assoc.
    + assumption.
    + now apply erase_NoDup.
    + intros m. rewrite (find_erase it modules m Hk), Hf.
      destruct (Nat.eqb_spec it m) as [->|Hne].
      * destruct (in_dec Nat.eq_dec m rest); [contradiction | reflexivity].
      * destruct (in_dec Nat.eq_dec m (it :: rest)) as [Hi|Hi],
                 (in_dec Nat.eq_dec m rest) as [Hj|Hj]; try reflexivity; exfalso.
        -- destruct Hi; [congruence | contradiction].
        -- apply Hi. now right.
Qed.

(** C8: for a registry produced by any sequence of returning Start calls,
    StopAll returns; the stop steps it ran are, in order, exactly the
    reverse of the start steps that ran; and afterwards the registry holds
    no instance and the start order is empty. *)
Theorem StopAll_reverses_start_order
        (ListDependencies : ModuleFactory -> list ModuleFactory) (r : registry) :
  started ListDependencies r ->
  exists r',
    StopAll r = Done r' /\
    started_instances (calls_ r') = started_instances (calls_ r) /\
    stopped_instances (calls_ r) = [] /\
    stopped_instances (calls_ r') = rev (started_instances (calls_ r')) /\
    started_modules_ r' = [] /\
    start_order_ r' = [].
Proof.
  intros Hs. pose proof (started_inv ListDependencies r Hs) as [Hc Hd Hf Hk].
  unfold StopAll. destruct r as [modules order calls]. simpl in *.
  rewrite (stop_loop_spec (rev order) modules order calls).
  - cbn [bind ASSERT started_modules_ calls_]. eexists. split; [reflexivity|].
    simpl. subst calls.
    rewrite started_instances_app, stopped_instances_app.
    destruct (started_instances_starts order) as [-> ->].
    destruct (instances_stops (rev order)) as [-> ->].
    rewrite app_nil_r, map_rev. simpl. auto.
  - now apply NoDup_rev.
  - assumption.
  - intros m. rewrite Hf.
    destruct (in_dec Nat.eq_dec m order) as [Hi|Hi],
             (in_dec Nat.eq_dec m (rev order)) as [Hj|Hj]; try reflexivity; exfalso.
    + apply Hj. now apply -> in_rev.
    + apply Hi. now apply in_rev.
Qed.

(** Modules 0, 1, 2 of the example start in the order 2, 1, 0 and stop in
    the order 0, 1, 2. *)
Lemma StopAll_reverses_start_order_example :
  Start example_dependencies 3 0 empty = Some example_registry /\
  exists r',
    StopAll example_registry = Done r' /\
    stopped_instances (calls_ r') = [Instance 0; Instance 1; Instance 2] /\
    started_modules_ r' = [] /\ start_order_ r' = [].
Proof.
  split; [reflexivity|].
  destruct (StopAll_reverses_start_order example_dependencies example_registry)
    as (r' & Hrun & Hsame & _ & Hrev & Hm & Ho).
  - apply (started_Start example_dependencies 3 0 empty); [constructor | reflexivity].
  - exists r'. split; [exact Hrun|]. split; [|auto].
    rewrite Hrev, Hsame. reflexivity.
Defined.

(** ** Further properties of the registry *)

Section StartOrder.

Variable ListDependencies : ModuleFactory -> list ModuleFactory.

Lemma snoc_split (A : Type) (l l1 l2 : list A) (x m : A) :
  l ++ [x] = l1 ++ m :: l2 ->
  (l1 = l /\ m = x /\ l2 = []) \/
  (exists l2', l2 = l2' ++ [x] /\ l = l1 ++ m :: l2').
Proof.
  destruct l2 as [|y l2' _] using rev_ind.
  - intros H. apply app_inj_tail in H. destruct H as [-> ->]. auto.
  - intros H. change (l ++ [x] = l1 ++ (m :: l2') ++ [y]) in H.
    rewrite app_assoc in H. apply app_inj_tail in H. destruct H as [-> ->].
    right. eauto.
Qed.

Lemma dependencies_first_snoc order module :
  dependencies_first ListDependencies order ->
  (forall d, In d (ListDependencies module) -> In d order) ->
  dependencies_first ListDependencies (order ++ [module]).
Proof.
  intros Hdf Hdeps l1 m l2 Heq d Hd.
  apply snoc_split in Heq. destruct Heq as [(-> & -> & _)|(l2' & _ & ->)].
  - auto.
  - eapply Hdf; eauto.
Qed.

Lemma StartList_order fuel :
  (forall module r r',
      registry_inv r -> dependencies_first ListDependencies (start_order_ r) ->
      Start ListDependencies fuel module r = Some r' ->
      dependencies_first ListDependencies (start_order_ r') /\
      (exists ext, start_order_ r' = start_order_ r ++ ext) /\
      In module (start_order_ r')) ->
  forall modules r r1,
    registry_inv r -> dependencies_first ListDependencies (start_order_ r) ->
    StartList (Start ListDependencies fuel) modules r = Some r1 ->
    dependencies_first ListDependencies (start_order_ r1) /\
    (exists ext, start_order_ r1 = start_order_ r ++ ext) /\
    (forall d, In d modules -> In d (start_order_ r1)).
Proof.
  intros IH. induction modules as [|it rest IHl]; intros r r1 Hinv Hdf; simpl.
  - intros [= <-]. split; [assumption|]. split; [exists []; now rewrite app_nil_r|].
    intros d [].
  - destruct (Start ListDependencies fuel it r) as [ra|] eqn:Hit; [|discriminate].
    intros Hrest.
    destruct (IH it r ra Hinv Hdf Hit) as (Hdfa & (ext & Hext) & Hin).
    destruct (Start_spec ListDependencies fuel it r ra [] Hinv Hit
                (chain_nil _ _) (Forall_nil _)) as (Hinva & _ & _).
    destruct (IHl ra r1 Hinva Hdfa Hrest) as (Hdf1 & (ext' & Hext') & Hall).
    split; [assumption|]. split.
    + exists (ext ++ ext'). now rewrite Hext', Hext, app_assoc.
    + intros d [<-|Hd]; [|auto]. rewrite Hext'. apply in_or_app. now left.
Qed.

Lemma Start_order fuel :
  forall module r r',
    registry_inv r -> dependencies_first ListDependencies (start_order_ r) ->
    Start ListDependencies fuel module r = Some r' ->
    dependencies_first ListDependencies (start_order_ r') /\
    (exists ext, start_order_ r' = start_order_ r ++ ext) /\
    In module (start_order_ r').
Proof.
  induction fuel as [|fuel IH]; intros module r r' Hinv Hdf Hrun;
    cbn [Start] in Hrun; [discriminate|].
  destruct (find module (started_modules_ r)) as [i|] eqn:Hfind.
  - injection Hrun as <-. split; [assumption|].
    split; [exists []; now rewrite app_nil_r|].
    rewrite (inv_find r Hinv) in Hfind.
    destruct (in_dec Nat.eq_dec module (start_order_ r)); [assumption | discriminate].
  - cbv zeta in Hrun.
    destruct (StartList (Start ListDependencies fuel) (ListDependencies module) r)
      as [r1|] eqn:Hdeps; [|discriminate].
    injection Hrun as <-. cbn [start_order_].
    destruct (StartList_order fuel IH _ r r1 Hinv Hdf Hdeps)
      as (Hdf1 & (ext & Hext) & Hall).
    split; [now apply dependencies_first_snoc|]. split.
    + exists (ext ++ [module]). now rewrite Hext, app_assoc.
    + apply in_or_app. right. now left.
Qed.

Lemma started_dependencies_first r :
  started ListDependencies r -> dependencies_first ListDependencies (start_order_ r).
Proof.
  induction 1 as [|fuel module r r' Hs IH Hrun].
  - intros l1 m l2 Heq. simpl in Heq. destruct l1; discriminate.
  - now destruct (Start_order fuel module r r' (started_inv _ r Hs) IH Hrun).
Qed.

Lemma IsStarted_In r m :
  registry_inv r -> (IsStarted m r = true <-> In m (start_order_ r)).
Proof.
  intros Hinv. unfold IsStarted. rewrite (inv_find r Hinv).
  destruct (in_dec Nat.eq_dec m (start_order_ r)); split; auto; discriminate.
Qed.

Lemma Instance_injective a b : Instance a = Instance b -> a = b.
Proof. now intros [= ->]. Qed.

Lemma NoDup_instances order : NoDup order -> NoDup (map Instance order).
Proof.
  induction 1 as [|m order Hnot Hd IH]; simpl; constructor; [|assumption].
  intros Hin. apply in_map_iff in Hin. destruct Hin as (x & Hx & Hin).
  apply Instance_injective in Hx. now subst.
Qed.

Lemma Start_fuel_mono fuel :
  forall fuel' module r r',
    fuel <= fuel' ->
    Start ListDependencies fuel module r = Some r' ->
    Start ListDependencies fuel' module r = Some r'.
Proof.
  induction fuel as [|fuel IH]; intros fuel' module r r' Hle Hrun;
    cbn [Start] in Hrun; [discriminate|].
  destruct fuel' as [|fuel']; [lia|]. cbn [Start].
  destruct (find module (started_modules_ r)); [assumption|].
  cbv zeta in *.
  assert (Hlist : forall modules ra rb,
             StartList (Start ListDependencies fuel) modules ra = Some rb ->
             StartList (Start ListDependencies fuel') modules ra = Some rb).
  { induction modules as [|it rest IHl]; intros ra rb; simpl; [auto|].
    destruct (Start ListDependencies fuel it ra) as [rc|] eqn:Hit; [|discriminate].
    rewrite (IH fuel' it ra rc ltac:(lia) Hit). apply IHl. }
  destruct (StartList (Start ListDependencies fuel) (ListDependencies module) r)
    as [r1|] eqn:Hdeps; [|discriminate].
  now rewrite (Hlist _ _ _ Hdeps).
Qed.

End StartOrder.

(** X1: in a registry produced by returning Start calls every start step
    ran on a different module, the start steps are those of [start_order_]
    in that order, and a module counts as started exactly when it is in
    [start_order_]. *)
Theorem started_at_most_once
        (ListDependencies : ModuleFactory -> list ModuleFactory) (r : registry) :
  started ListDependencies r ->
  NoDup (started_instances (calls_ r)) /\
  started_instances (calls_ r) = map Instance (start_order_ r) /\
  stopped_instances (calls_ r) = [] /\
  forall m, IsStarted m r = true <-> In m (start_order_ r).
Proof.
  intros Hs. pose proof (started_inv ListDependencies r Hs) as Hinv.
  pose proof Hinv as [Hc Hd Hf Hk].
  destruct (started_instances_starts (start_order_ r)) as [H1 H2].
  rewrite Hc, H1, H2. split.
  - now apply NoDup_instances.
  - split; [reflexivity|]. split; [reflexivity|].
    intros m. now apply IsStarted_In.
Qed.

Lemma started_at_most_once_example :
  NoDup (started_instances (calls_ example_registry)) /\
  (IsStarted 2 example_registry = true <-> In 2 (start_order_ example_registry)).
Proof.
  destruct (started_at_most_once example_dependencies example_registry)
    as (H1 & _ & _ & H2).
  - apply (started_Start example_dependencies 3 0 empty); [constructor | reflexivity].
  - split; [exact H1 | apply H2].
Defined.

(** X2: in a registry produced by returning Start calls, the start step
    of every dependency of a module ran before the start step of that
    module. *)
Theorem dependencies_started_first
        (ListDependencies : ModuleFactory -> list ModuleFactory) (r : registry) :
  started ListDependencies r ->
  forall i1 m i2,
    started_instances (calls_ r) = i1 ++ Instance m :: i2 ->
    forall d, In d (ListDependencies m) -> In (Instance d) i1.
Proof.
  intros Hs i1 m i2 Heq d Hd.
  pose proof (started_inv ListDependencies r Hs) as [Hc _ _ _].
  destruct (started_instances_starts (start_order_ r)) as [H1 _].
  rewrite Hc, H1 in Heq.
  apply map_eq_app in Heq. destruct Heq as (l1 & rest & Horder & <- & Hrest).
  apply map_eq_cons in Hrest. destruct Hrest as (m' & l2 & -> & Hm & _).
  apply Instance_injective in Hm. subst m'.
  apply in_map.
  exact (started_dependencies_first ListDependencies r Hs l1 m l2 Horder d Hd).
Qed.

Lemma dependencies_started_first_example :
  In (Instance 2) [Instance 2; Instance 1].
Proof.
  apply (dependencies_started_first example_dependencies example_registry
           (started_Start example_dependencies 3 0 empty example_registry
              (started_empty _) eq_refl)
           [Instance 2; Instance 1] 0 [] eq_refl 2).
  simpl. auto.
Defined.

(** X3: when Start returns, the module and all its dependencies are
    started, everything started before still is, [start_order_] has only
    grown at its end, and starting the module again changes nothing. *)
Theorem Start_postcondition
        (ListDependencies : ModuleFactory -> list ModuleFactory)
        (r r' : registry) (fuel : nat) (module : ModuleFactory) :
  started ListDependencies r ->
  Start ListDependencies fuel module r = Some r' ->
  IsStarted module r' = true /\
  (forall d, In d (ListDependencies module) -> IsStarted d r' = true) /\
  (exists ext, start_order_ r' = start_order_ r ++ ext) /\
  (forall x, IsStarted x r = true -> IsStarted x r' = true) /\
  (forall fuel', Start ListDependencies (S fuel') module r' = Some r').
Proof.
  intros Hs Hrun.
  pose proof (started_inv ListDependencies r Hs) as Hinv.
  assert (Hs' : started ListDependencies r') by (econstructor; eassumption).
  pose proof (started_inv ListDependencies r' Hs') as Hinv'.
  pose proof (started_dependencies_first ListDependencies r' Hs') as Hdf'.
  destruct (Start_order ListDependencies fuel module r r' Hinv
              (started_dependencies_first ListDependencies r Hs) Hrun)
    as (_ & (ext & Hext) & Hin).
  assert (Hstarted : IsStarted module r' = true) by now apply IsStarted_In.
  split; [assumption|]. split.
  - intros d Hd. apply IsStarted_In; [assumption|].
    destruct (in_split _ _ Hin) as (l1 & l2 & Heq).
    rewrite Heq. apply in_or_app. left. exact (Hdf' l1 module l2 Heq d Hd).
  - split; [eauto|]. split.
    + intros x Hx. apply IsStarted_In; [assumption|].
      apply IsStarted_In in Hx; [|assumption].
      rewrite Hext. apply in_or_app. now left.
    + intros fuel'. cbn [Start]. unfold IsStarted in Hstarted.
      destruct (find module (started_modules_ r')); [reflexivity | discriminate].
Qed.

Lemma Start_postcondition_example :
  IsStarted 0 example_registry = true /\
  Start example_dependencies 1 0 example_registry = Some example_registry.
Proof.
  destruct (Start_postcondition example_dependencies empty example_registry 3 0
              (started_empty _) eq_refl) as (H1 & _ & _ & _ & H2).
  split; [exact H1 | exact (H2 0)].
Defined.

(** X4: Start has no cycle detection.  If the module to start is not
    started and lies on a chain of unstarted modules that leads back to
    it, Start does not return, whatever the recursion depth allowed. *)
Theorem Start_cycle_never_returns
        (ListDependencies : ModuleFactory -> list ModuleFactory)
        (r : registry) (stack : list ModuleFactory) (module : ModuleFactory) :
  started ListDependencies r ->
  chain ListDependencies stack module ->
  In module stack ->
  Forall (unstarted r) stack ->
  forall fuel, Start ListDependencies fuel module r = None.
Proof.
  intros Hs Hchain Hin Hun fuel.
  destruct (Start ListDependencies fuel module r) as [r'|] eqn:Hrun; [|reflexivity].
  exfalso.
  destruct (Start_spec ListDependencies fuel module r r' stack
              (started_inv _ r Hs) Hrun Hchain Hun) as (_ & Hun' & Hfound).
  rewrite Forall_forall in Hun'. exact (Hfound (Hun' module Hin)).
Qed.

Lemma Start_cycle_never_returns_example :
  Start cyclic_dependencies 50 0 empty = None.
Proof.
  apply (Start_cycle_never_returns cyclic_dependencies empty [1; 0] 0).
  - constructor.
  - constructor; [simpl; auto|]. constructor; [simpl; auto|]. constructor.
  - simpl. auto.
  - repeat constructor.
Defined.

(** X5: when the dependencies are acyclic (some rank decreases along
    every dependency) Start returns for every recursion depth above the
    module's rank, always with the same registry. *)
Theorem Start_returns_when_acyclic
        (ListDependencies : ModuleFactory -> list ModuleFactory)
        (rank : ModuleFactory -> nat) :
  (forall module d, In d (ListDependencies module) -> rank d < rank module) ->
  forall module r,
  exists r', forall fuel, rank module < fuel ->
                          Start ListDependencies fuel module r = Some r'.
Proof.
  intros Hacyclic module r.
  destruct (Start_total ListDependencies rank Hacyclic (S (rank module)) module r)
    as (r' & Hrun); [lia|].
  exists r'. intros fuel Hlt.
  apply (Start_fuel_mono ListDependencies (S (rank module))); [lia | assumption].
Qed.

Lemma Start_returns_when_acyclic_example :
  exists r', forall fuel, 2 < fuel ->
                          Start example_dependencies fuel 0 empty = Some r'.
Proof.
  apply (Start_returns_when_acyclic example_dependencies (fun m => 2 - m) ) with (module := 0).
  intros module d. destruct module as [|[|module]]; simpl; intros H;
    repeat (destruct H as [<-|H]; [simpl; lia|]); destruct H.
Defined.

(** X6: in a registry produced by returning Start calls, a started module
    gets the instance of each dependency it listed from GetDependency; for
    a module it did not list the call is fatal. *)
Theorem GetDependency_of_started
        (ListDependencies : ModuleFactory -> list ModuleFactory)
        (r : registry) (self module : ModuleFactory) :
  started ListDependencies r ->
  IsStarted self r = true ->
  (In module (ListDependencies self) ->
   GetDependency ListDependencies self module r = Done (Instance module)) /\
  (~ In module (ListDependencies self) ->
   GetDependency ListDependencies self module r = AssertFailed "false").
Proof.
  intros Hs Hself.
  pose proof (started_inv ListDependencies r Hs) as Hinv.
  assert (Hloop : forall deps,
             (In module deps ->
              (forall d, In d deps -> In d (start_order_ r)) ->
              GetDependency_loop deps module r = Done (Instance module)) /\
             (~ In module deps ->
              GetDependency_loop deps module r = AssertFailed "false")).
  { induction deps as [|d deps [IH1 IH2]]; simpl; split.
    - tauto.
    - reflexivity.
    - intros Hin Hall. destruct (Nat.eqb_spec d module) as [->|Hne].
      + unfold Get. rewrite (inv_find r Hinv).
        destruct (in_dec Nat.eq_dec module (start_order_ r)) as [|Hn];
          [reflexivity | exfalso; apply Hn, Hall; now left].
      + apply IH1; [tauto | auto].
    - intros Hn. destruct (Nat.eqb_spec d module) as [->|Hne]; [tauto|].
      apply IH2. tauto. }
  unfold GetDependency. destruct (Hloop (ListDependencies self)) as [H1 H2].
  split; [|assumption].
  intros Hin. apply H1; [assumption|].
  intros d Hd. apply IsStarted_In in Hself; [|assumption].
  destruct (in_split _ _ Hself) as (l1 & l2 & Heq).
  rewrite Heq. apply in_or_app. left.
  exact (started_dependencies_first ListDependencies r Hs l1 self l2 Heq d Hd).
Qed.

Lemma GetDependency_of_started_example :
  GetDependency example_dependencies 0 2 example_registry = Done (Instance 2) /\
  GetDependency example_dependencies 1 0 example_registry = AssertFailed "false".
Proof.
  assert (Hs : started example_dependencies example_registry).
  { apply (started_Start example_dependencies 3 0 empty); [constructor | reflexivity]. }
  split.
  - apply (GetDependency_of_started example_dependencies example_registry 0 2 Hs eq_refl).
    simpl. auto.
  - apply (GetDependency_of_started example_dependencies example_registry 1 0 Hs eq_refl).
    simpl. intros [H|[]]. discriminate.
Defined.

(** X7: StopAll stops every module before the modules it depends on. *)
Theorem StopAll_stops_dependents_first
        (ListDependencies : ModuleFactory -> list ModuleFactory) (r : registry) :
  started ListDependencies r ->
  exists r',
    StopAll r = Done r' /\
    forall s1 m s2,
      stopped_instances (calls_ r') = s1 ++ Instance m :: s2 ->
      forall d, In d (ListDependencies m) -> In (Instance d) s2.
Proof.
  intros Hs. pose proof (started_inv ListDependencies r Hs) as [Hc Hd Hf Hk].
  pose proof (started_dependencies_first ListDependencies r Hs) as Hdf.
  unfold StopAll. destruct r as [modules order calls]. simpl in *.
  rewrite (stop_loop_spec (rev order) modules order calls).
  - cbn [bind ASSERT started_modules_ calls_]. eexists. split; [reflexivity|].
    simpl. subst calls. intros s1 m s2 Heq d Hdep.
    rewrite stopped_instances_app in Heq.
    destruct (started_instances_starts order) as [_ Hnone].
    destruct (instances_stops (rev order)) as [_ Hstops].
    rewrite Hnone, Hstops in Heq. simpl in Heq.
    apply map_eq_app in Heq. destruct Heq as (a & rest & Hrev & <- & Hrest).
    apply map_eq_cons in Hrest. destruct Hrest as (m' & b & -> & Hm & <-).
    apply Instance_injective in Hm. subst m'.
    apply in_map.
    assert (Horder : order = rev b ++ m :: rev a).
    { rewrite <- (rev_involutive order), Hrev, rev_app_distr. simpl.
      now rewrite <- app_assoc. }
    apply in_rev. exact (Hdf (rev b) m (rev a) Horder d Hdep).
  - now apply NoDup_rev.
  - assumption.
  - intros m. rewrite Hf.
    destruct (in_dec Nat.eq_dec m order) as [Hi|Hi],
             (in_dec Nat.eq_dec m (rev order)) as [Hj|Hj]; try reflexivity; exfalso.
    + apply Hj. now apply -> in_rev.
    + apply Hi. now apply in_rev.
Qed.

Lemma StopAll_stops_dependents_first_example :
  exists r',
    StopAll example_registry = Done r' /\
    In (Instance 2) [Instance 1; Instance 2].
Proof.
  destruct (StopAll_stops_dependents_first example_dependencies example_registry)
    as (r' & Hrun & Hdeps).
  - apply (started_Start example_dependencies 3 0 empty); [constructor | reflexivity].
  - exists r'. split; [exact Hrun|].
    apply (Hdeps [] 0 [Instance 1; Instance 2]).
    + vm_compute in Hrun. injection Hrun as <-. reflexivity.
    + simpl. auto.
Defined.

End RegistryFacts.
